(** * MapSketch collaboration: the room relay and the client reconciler

    A shallow embedding of

    - [CollabHandler.java], the WebSocket relay that fans messages
      out by room, and
    - the collaboration and history parts of [app.js] (the sketching
      client): the transport ([ws.onopen], [ws.onmessage], [ws.onclose],
      [send]), the message handler [handle], the remote feature
      operations, the outbound guards [sendAdd]/[sendEdit]/[sendRemove],
      the undo/redo history, the freehand pen ([startFreehand],
      [moveFreehand], [endFreehand], [setFreehandEnabled]), the
      identifiers ([uuidv4], [colorFromName]) and, of the shadow viewer in
      the same file, the clock label [minutesToHHMM].

    Definitions come first (Part I: the relay, Part II: JavaScript values,
    Part III: the client, then a small Leaflet to run examples on); the
    theorems follow (Part IV: the relay, Part V: the client, Part VI:
    further theorems on both). *)

From Stdlib Require Import PrimFloat Ascii String.
From stdpp Require Import gmap strings list pretty.

Set Warnings "-register-all,-inexact-float,-clear-no-such-hyp".

(* ===================================================================== *)
(** * Part I.  The relay ([CollabHandler.java])                           *)
(* ===================================================================== *)

Module Relay.

(** A [WebSocketSession] is known by its identity only; the sets and maps
    of the handler hash on it. *)
Definition Session := nat.

(** The tree Jackson reads from a payload, as far as the handler looks at
    it: [has(name)] and [get(name).asText()]. *)
Record JsonNode := { textOf : gmap string string }.

Definition has (root : JsonNode) (name : string) : bool :=
  bool_decide (is_Some (textOf root !! name)).

Definition get_asText (root : JsonNode) (name : string) : string :=
  default "" (textOf root !! name).

(** A [TextMessage]: its payload and what [mapper.readTree] makes of the
    payload ([None]: the payload is not JSON and [readTree] throws). *)
Record TextMessage := {
  getPayload : string;
  readTree : option JsonNode
}.

(** The two fields of the handler. *)
Record Handler := {
  rooms : gmap string (gset Session);        (* room -> sessions *)
  sessionRoom : gmap Session string          (* session -> room *)
}.

Definition empty_handler : Handler := {| rooms := ∅; sessionRoom := ∅ |}.

(** One [sendMessage] that went through: the receiving session and the
    text. *)
Definition Delivery := (Session * string)%type.

Section WithSessions.
(** The state of the connections, which the handler only observes:
    [s.isOpen()], and whether [s.sendMessage] throws [IOException]. *)
Variable isOpen : Session → bool.
Variable sendThrows : Session → bool.

(** [for (s : targets) if (s.isOpen()) try { s.sendMessage(..) }
    catch (IOException ignored) {}] *)
Fixpoint fan_out (targets : list Session) (payload : string) : list Delivery :=
  match targets with
  | [] => []
  | s :: rest =>
      if isOpen s
      then (if sendThrows s then [] else [(s, payload)]) ++ fan_out rest payload
      else fan_out rest payload
  end.

Definition broadcast (h : Handler) (room payload : string) : list Delivery :=
  let targets := default ∅ (rooms h !! room) in
  fan_out (elements targets) payload.

(** [sessionRoom.computeIfAbsent(session, s -> { rooms.computeIfAbsent(room,
    r -> newKeySet()).add(session); return room; })] *)
Definition register (h : Handler) (session : Session) (room : string) : Handler :=
  match sessionRoom h !! session with
  | Some _ => h
  | None =>
      {| rooms := <[room := default ∅ (rooms h !! room) ∪ {[session]}]> (rooms h);
         sessionRoom := <[session := room]> (sessionRoom h) |}
  end.

(** [root.has("room") ? root.get("room").asText() : "default"] *)
Definition roomOf (root : JsonNode) : string :=
  if has root "room" then get_asText root "room" else "default".

(** What one call of a handler method leaves behind: the handler's
    fields, the messages delivered, and whether the call threw. *)
Record Outcome := {
  after : Handler;
  delivered : list Delivery;
  threw : bool
}.

Definition handleTextMessage (h : Handler) (session : Session)
    (message : TextMessage) : Outcome :=
  match readTree message with
  | None => {| after := h; delivered := []; threw := true |}
  | Some root =>
      let room := roomOf root in
      (* on first message, register session in room *)
      let h' := register h session room in
      (* broadcast within the room only *)
      {| after := h'; delivered := broadcast h' room (getPayload message);
         threw := false |}
  end.

Definition afterConnectionClosed (h : Handler) (session : Session) : Handler :=
  match sessionRoom h !! session with
  | None => h
  | Some room =>
      let sr := delete session (sessionRoom h) in
      match rooms h !! room with
      | None => {| rooms := rooms h; sessionRoom := sr |}
      | Some set =>
          let set' := set ∖ {[session]} in
          if bool_decide (set' = ∅)
          then {| rooms := delete room (rooms h); sessionRoom := sr |}
          else {| rooms := <[room := set']> (rooms h); sessionRoom := sr |}
      end
  end.

(** The calls the container makes on the handler, and a run of them
    from the freshly constructed handler. *)
Inductive Event :=
| Text (session : Session) (message : TextMessage)
| Closed (session : Session).

Definition step (h : Handler) (e : Event) : Handler :=
  match e with
  | Text s m => after (handleTextMessage h s m)
  | Closed s => afterConnectionClosed h s
  end.

Definition run (events : list Event) : Handler :=
  foldl step empty_handler events.

(** The sessions registered in a room. *)
Definition members (h : Handler) (room : string) : gset Session :=
  default ∅ (rooms h !! room).

End WithSessions.

(** A message whose payload is the JSON object with the given room. *)
Definition in_room (room payload : string) : TextMessage :=
  {| getPayload := payload; readTree := Some {| textOf := {[ "room" := room ]} |} |}.

(** ** What the claims speak of *)

(** A session is bound to a room exactly when it sits in that room's
    set, and no room is kept with an empty set. *)
Definition consistent (h : Handler) : Prop :=
  (∀ s r, sessionRoom h !! s = Some r ↔
          ∃ set, rooms h !! r = Some set ∧ s ∈ set)
  ∧ (∀ r set, rooms h !! r = Some set → set ≠ ∅).

(** What claim C1 says of one call of [handleTextMessage]: the payload
    reaches every other member of the room, and the sender gets none. *)
Definition excludes_sender (isOpen sendThrows : Session → bool)
    (h : Handler) (s : Session) (m : TextMessage) : Prop :=
  let o := handleTextMessage isOpen sendThrows h s m in
  ∀ s' p, (s', p) ∈ delivered o → s' ≠ s.

(** What claim C2 says of a message from a session that is already
    bound: it goes to the other members of the bound room, and to them
    only. *)
Definition routed_to_bound_room (isOpen sendThrows : Session → bool)
    (h : Handler) (s : Session) (m : TextMessage) : Prop :=
  let o := handleTextMessage isOpen sendThrows h s m in
  ∀ r0, sessionRoom h !! s = Some r0 →
    ∀ s', s' ≠ s →
      ((s', getPayload m) ∈ delivered o ↔ s' ∈ members h r0).

(** Sessions 1 and 3 are in room "a", session 2 is in room "b". *)
Definition two_rooms : Handler :=
  run (λ _, true) (λ _, false)
    [Text 1 (in_room "a" "one"); Text 2 (in_room "b" "two");
     Text 3 (in_room "a" "three")].

End Relay.

(* ===================================================================== *)
(** * Part II.  JavaScript values                                         *)
(* ===================================================================== *)

Module JS.

(** The values that travel through the client: what [JSON.parse] yields,
    and [undefined] for what is absent.  An object is the list of its own
    properties, in insertion order, with no key twice. *)
Inductive value :=
| VUndefined
| VNull
| VBool (b : bool)
| VNum (x : float)
| VStr (s : string)
| VArr (items : list value)
| VObj (fields : list (string * value)).

Definition fields_t := list (string * value).

(** ** Truthiness, [||] and [??] *)

Definition truthy (v : value) : bool :=
  match v with
  | VUndefined | VNull => false
  | VBool b => b
  | VNum x => negb (PrimFloat.eqb x 0%float) && negb (PrimFloat.is_nan x)
  | VStr s => negb (String.eqb s "")
  | VArr _ | VObj _ => true
  end.

Definition nullish (v : value) : bool :=
  match v with VUndefined | VNull => true | _ => false end.

(** [a || b] *)
Definition or_else (a b : value) : value := if truthy a then a else b.
(** [a ?? b] *)
Definition coalesce (a b : value) : value := if nullish a then b else a.

(** ** Property access *)

Fixpoint own (fs : fields_t) (k : string) : value :=
  match fs with
  | [] => VUndefined
  | (k', v) :: rest => if String.eqb k' k then v else own rest k
  end.

(** [v.k] where [v] is known not to be [null] or [undefined] (reading a
    property of those throws; see [Client.getp]).  None of the names the
    client reads is a property of a string, an array or a number. *)
Definition prop (v : value) (k : string) : value :=
  match v with
  | VObj fs => own fs k
  | _ => VUndefined
  end.

(** [o.k = x] on the property list: in place when the key exists, at the
    end otherwise. *)
Fixpoint set_field (fs : fields_t) (k : string) (x : value) : fields_t :=
  match fs with
  | [] => [(k, x)]
  | (k', v) :: rest =>
      if String.eqb k' k then (k', x) :: rest else (k', v) :: set_field rest k x
  end.

(** [v.k = x].  The script is not in strict mode: the assignment to a
    property of a primitive is silently dropped.  A named property put
    on an array is not represented: [JSON.stringify] leaves it out. *)
Definition set_prop (v : value) (k : string) (x : value) : value :=
  match v with
  | VObj fs => VObj (set_field fs k x)
  | _ => v
  end.

(** [Object.assign(target, source)] on property lists. *)
Definition object_assign (target source : fields_t) : fields_t :=
  foldl (λ acc kv, set_field acc kv.1 kv.2) target source.

(** ** Equality *)

(** [a === b].  Two objects (or arrays) are equal when they are the same
    object; a value parsed from one message or snapshot is never the same
    object as one parsed from another, and the client only ever compares
    a stored value with one that has just arrived. *)
Definition strict_eq (a b : value) : bool :=
  match a, b with
  | VUndefined, VUndefined => true
  | VNull, VNull => true
  | VBool x, VBool y => Bool.eqb x y
  | VNum x, VNum y => PrimFloat.eqb x y
  | VStr x, VStr y => String.eqb x y
  | _, _ => false
  end.

(** The key comparison of a [Map] (SameValueZero): [===], except that
    NaN is the same as NaN. *)
Definition same_value_zero (a b : value) : bool :=
  match a, b with
  | VNum x, VNum y => PrimFloat.eqb x y || (PrimFloat.is_nan x && PrimFloat.is_nan y)
  | _, _ => strict_eq a b
  end.

(** [typeof v === 'number'] *)
Definition is_number (v : value) : bool :=
  match v with VNum _ => true | _ => false end.

(** ** Text *)

(** The text of a WebSocket frame or of a stored snapshot, up to what
    [JSON.parse] makes of it: either text that [JSON.parse] rejects, or
    the text of a JSON value. *)
Inductive text :=
| Malformed (s : string)
| Json (v : value).

Definition JSON_parse (t : text) : option value :=
  match t with
  | Malformed _ => None
  | Json v => Some v
  end.

(** What [JSON.stringify] keeps of a value: a property whose value is
    [undefined] is left out, [undefined] in an array and a number that is
    not finite become [null], and a negative zero is written [0]. *)
Definition finite (x : float) : bool :=
  negb (PrimFloat.is_nan x) && negb (PrimFloat.is_infinity x).

Fixpoint jsonable (v : value) : value :=
  match v with
  | VNum x =>
      if finite x then (if PrimFloat.eqb x 0%float then VNum 0%float else VNum x)
      else VNull
  | VArr items =>
      VArr (map (λ i, match jsonable i with VUndefined => VNull | j => j end) items)
  | VObj fs =>
      VObj ((fix go (fs : fields_t) : fields_t :=
               match fs with
               | [] => []
               | (k, x) :: rest =>
                   match jsonable x with
                   | VUndefined => go rest
                   | j => (k, j) :: go rest
                   end
               end) fs)
  | _ => v
  end.

Definition JSON_stringify (v : value) : text := Json (jsonable v).

(** [s.split(',')] *)
Fixpoint split_comma_from (acc : string) (s : string) : list string :=
  match s with
  | EmptyString => [acc]
  | String c rest =>
      if Ascii.eqb c ","%char
      then acc :: split_comma_from "" rest
      else split_comma_from (acc +:+ String c "") rest
  end.

Definition split_comma (s : string) : list string := split_comma_from "" s.

(** [a[i]] of an array of strings. *)
Definition nth_str (l : list string) (i : nat) : value :=
  match l !! i with Some s => VStr s | None => VUndefined end.

End JS.

(* ===================================================================== *)
(** * Part III.  The client ([app.js])                                    *)
(* ===================================================================== *)

Module Client.
Import JS.

(** ** Leaflet layers *)

(** The classes the client tells apart with [instanceof]; [L.Polygon]
    extends [L.Polyline].  [Group] is the feature group Leaflet builds for
    a MultiPoint or a GeometryCollection. *)
Inductive LClass := Marker | Polyline | Polygon | Group.

Definition instanceof_Polyline (c : LClass) : bool :=
  match c with Polyline | Polygon => true | _ => false end.
Definition instanceof_Polygon (c : LClass) : bool :=
  match c with Polygon => true | _ => false end.
Definition instanceof_Marker (c : LClass) : bool :=
  match c with Marker => true | _ => false end.

(** A layer, as far as the client reads and writes it. *)
Record Layer := {
  lclass : LClass;
  latlngs : value;            (* the position(s) Leaflet keeps *)
  feature : value;            (* layer.feature, set by L.geoJSON *)
  options : fields_t;         (* layer.options *)
  tooltip : option value;     (* the content of the bound tooltip *)
  popup : option value        (* the content of the bound popup *)
}.

Definition set_latlngs (x : value) (l : Layer) : Layer :=
  {| lclass := lclass l; latlngs := x; feature := feature l;
     options := options l; tooltip := tooltip l; popup := popup l |}.
Definition set_feature (x : value) (l : Layer) : Layer :=
  {| lclass := lclass l; latlngs := latlngs l; feature := x;
     options := options l; tooltip := tooltip l; popup := popup l |}.
Definition set_options (x : fields_t) (l : Layer) : Layer :=
  {| lclass := lclass l; latlngs := latlngs l; feature := feature l;
     options := x; tooltip := tooltip l; popup := popup l |}.
Definition set_tooltip (x : option value) (l : Layer) : Layer :=
  {| lclass := lclass l; latlngs := latlngs l; feature := feature l;
     options := options l; tooltip := x; popup := popup l |}.
Definition set_popup (x : option value) (l : Layer) : Layer :=
  {| lclass := lclass l; latlngs := latlngs l; feature := feature l;
     options := options l; tooltip := tooltip l; popup := x |}.

(** [layer.options.k] and [layer.options.k = x] *)
Definition opt (l : Layer) (k : string) : value := own (options l) k.
Definition set_opt (k : string) (x : value) (l : Layer) : Layer :=
  set_options (set_field (options l) k x) l.

(** [layer.setStyle(opts)]: every property of [opts] is put on the
    layer's options. *)
Definition setStyle (opts : fields_t) (l : Layer) : Layer :=
  set_options (object_assign (options l) opts) l.

(** What a JavaScript function may throw. *)
Inductive exn :=
| TypeError
| Error (message : string).

(** ** The collaborators the client calls and does not define *)

(** Leaflet.  The client hands it GeoJSON and gets layers back, or an
    exception. *)
Class Leaflet := {
  (** [L.geoJSON(geojson, {pointToLayer, onEachFeature})]: the features
      for which it calls [onEachFeature], in order, each with the layer it
      has built for it (for a Point, the marker [L.marker(latlng)] that
      [pointToLayer] starts from), and the exception it ends with when the
      next feature has no valid geometry. *)
  geoJSON_layers : value → list (value * Layer) * option exn;
  (** [L.GeoJSON.coordsToLatLngs(coords, levelsDeep)]; [None]: it throws. *)
  coordsToLatLngs : value → nat → option value;
  (** The geometry that [layer.toGeoJSON()] gives. *)
  toGeometry : Layer → value;
  (** Whether a tooltip with this content can be opened (else
      [openTooltip] throws). *)
  opensTooltip : value → bool;
  (** Whether a marker can be put on the map at this position (else
      [L.marker(latlng).addTo(map)] and [setLatLng(latlng)] throw). *)
  placesMarker : value → bool
}.

(** The browser: [crypto.getRandomValues] behind [uuidv4], the clock
    behind [new Date().toISOString()], and the text of a number in a
    template literal. *)
Class Browser := {
  uuid_at : nat → string;
  iso_at : nat → string;
  number_toString : float → string
}.

(** ** The state of the client *)

Record Identity := { id : string; name : string; color : string }.

(** An entry of the [participants] map. *)
Record Participant := {
  p_name : value;
  p_color : value;
  p_self : bool;
  p_cursor : option value;              (* position of the cursor marker *)
  p_lastView : option (value * value)   (* center, zoom *)
}.

Definition set_p_identity (n c : value) (p : Participant) : Participant :=
  {| p_name := n; p_color := c; p_self := p_self p;
     p_cursor := p_cursor p; p_lastView := p_lastView p |}.
Definition set_p_cursor (x : option value) (p : Participant) : Participant :=
  {| p_name := p_name p; p_color := p_color p; p_self := p_self p;
     p_cursor := x; p_lastView := p_lastView p |}.
Definition set_p_lastView (x : option (value * value)) (p : Participant) : Participant :=
  {| p_name := p_name p; p_color := p_color p; p_self := p_self p;
     p_cursor := p_cursor p; p_lastView := x |}.

Record State := {
  drawn : list Layer;                        (* the feature group [drawn] *)
  undoStack : list text;
  redoStack : list text;
  isRestoring : bool;
  isRemoteApplying : bool;
  my : Identity;
  participants : list (value * Participant); (* a Map, in insertion order *)
  connected : bool;
  room : string;
  wsOpen : bool;                             (* ws.send does not throw *)
  sent : list text;                          (* what ws.send has sent *)
  uuids : nat;                               (* calls of uuidv4 so far *)
  clock : nat                                (* readings of the clock so far *)
}.

Definition set_drawn (x : list Layer) (c : State) : State :=
  {| drawn := x; undoStack := undoStack c; redoStack := redoStack c;
     isRestoring := isRestoring c; isRemoteApplying := isRemoteApplying c;
     my := my c; participants := participants c; connected := connected c;
     room := room c; wsOpen := wsOpen c; sent := sent c; uuids := uuids c;
     clock := clock c |}.
Definition set_undoStack (x : list text) (c : State) : State :=
  {| drawn := drawn c; undoStack := x; redoStack := redoStack c;
     isRestoring := isRestoring c; isRemoteApplying := isRemoteApplying c;
     my := my c; participants := participants c; connected := connected c;
     room := room c; wsOpen := wsOpen c; sent := sent c; uuids := uuids c;
     clock := clock c |}.
Definition set_redoStack (x : list text) (c : State) : State :=
  {| drawn := drawn c; undoStack := undoStack c; redoStack := x;
     isRestoring := isRestoring c; isRemoteApplying := isRemoteApplying c;
     my := my c; participants := participants c; connected := connected c;
     room := room c; wsOpen := wsOpen c; sent := sent c; uuids := uuids c;
     clock := clock c |}.
Definition set_isRestoring (x : bool) (c : State) : State :=
  {| drawn := drawn c; undoStack := undoStack c; redoStack := redoStack c;
     isRestoring := x; isRemoteApplying := isRemoteApplying c;
     my := my c; participants := participants c; connected := connected c;
     room := room c; wsOpen := wsOpen c; sent := sent c; uuids := uuids c;
     clock := clock c |}.
Definition set_isRemoteApplying (x : bool) (c : State) : State :=
  {| drawn := drawn c; undoStack := undoStack c; redoStack := redoStack c;
     isRestoring := isRestoring c; isRemoteApplying := x;
     my := my c; participants := participants c; connected := connected c;
     room := room c; wsOpen := wsOpen c; sent := sent c; uuids := uuids c;
     clock := clock c |}.
Definition set_participants (x : list (value * Participant)) (c : State) : State :=
  {| drawn := drawn c; undoStack := undoStack c; redoStack := redoStack c;
     isRestoring := isRestoring c; isRemoteApplying := isRemoteApplying c;
     my := my c; participants := x; connected := connected c;
     room := room c; wsOpen := wsOpen c; sent := sent c; uuids := uuids c;
     clock := clock c |}.
Definition set_sent (x : list text) (c : State) : State :=
  {| drawn := drawn c; undoStack := undoStack c; redoStack := redoStack c;
     isRestoring := isRestoring c; isRemoteApplying := isRemoteApplying c;
     my := my c; participants := participants c; connected := connected c;
     room := room c; wsOpen := wsOpen c; sent := x; uuids := uuids c;
     clock := clock c |}.
Definition set_uuids (x : nat) (c : State) : State :=
  {| drawn := drawn c; undoStack := undoStack c; redoStack := redoStack c;
     isRestoring := isRestoring c; isRemoteApplying := isRemoteApplying c;
     my := my c; participants := participants c; connected := connected c;
     room := room c; wsOpen := wsOpen c; sent := sent c; uuids := x;
     clock := clock c |}.
Definition set_clock (x : nat) (c : State) : State :=
  {| drawn := drawn c; undoStack := undoStack c; redoStack := redoStack c;
     isRestoring := isRestoring c; isRemoteApplying := isRemoteApplying c;
     my := my c; participants := participants c; connected := connected c;
     room := room c; wsOpen := wsOpen c; sent := sent c; uuids := uuids c;
     clock := x |}.

(** ** Statements: state and exceptions *)

Inductive outcome (A : Type) :=
| Ok (a : A)
| Throw (e : exn).
Arguments Ok {A} a.
Arguments Throw {A} e.

(** A piece of script: from the state before, how it ends and the state
    it leaves. *)
Definition M (A : Type) : Type := State → outcome A * State.

Definition ret {A} (a : A) : M A := λ c, (Ok a, c).
Definition throw {A} (e : exn) : M A := λ c, (Throw e, c).
Definition bind {A B} (m : M A) (k : A → M B) : M B :=
  λ c, match m c with
       | (Ok a, c') => k a c'
       | (Throw e, c') => (Throw e, c')
       end.
Definition gets {A} (f : State → A) : M A := λ c, (Ok (f c), c).
Definition modify (f : State → State) : M unit := λ c, (Ok tt, f c).

Declare Scope script_scope.
Delimit Scope script_scope with script.
Notation "x ← y ; z" := (bind y (λ x, z))
  (at level 20, y at level 100, z at level 200, only parsing) : script_scope.
Notation "x ;; z" := (bind x (λ _, z))
  (at level 100, z at level 200, only parsing, right associativity) : script_scope.
Local Open Scope script_scope.

(** [try { body } finally { fin }] *)
Definition try_finally {A} (body : M A) (fin : M unit) : M A :=
  λ c, match body c with
       | (r, c') =>
           match fin c' with
           | (Ok _, c'') => (r, c'')
           | (Throw e, c'') => (Throw e, c'')
           end
       end.

(** [try { body } catch (_) { handler }] *)
Definition try_catch {A} (body : M A) (handler : exn → M A) : M A :=
  λ c, match body c with
       | (Ok a, c') => (Ok a, c')
       | (Throw e, c') => handler e c'
       end.

(** [for (x of xs) body(x)] *)
Fixpoint for_each {A} (xs : list A) (body : A → M unit) : M unit :=
  match xs with
  | [] => ret tt
  | x :: rest => bind (body x) (λ _, for_each rest body)
  end.

(** [v.k], which throws when [v] is [null] or [undefined]. *)
Definition getp (v : value) (k : string) : M value :=
  if nullish v then throw TypeError else ret (prop v k).

Section Script.
Context {Lf : Leaflet} {Br : Browser}.

(** ** Layers of the store, by reference

    A layer object that sits in [drawn] is referred to by its position
    there; a statement that changes the object changes it in the
    store. *)

Definition the_layer (r : nat) : M Layer :=
  λ c, match drawn c !! r with
       | Some l => (Ok l, c)
       | None => (Throw TypeError, c)
       end.

Definition on_layer (r : nat) (f : Layer → Layer) : M unit :=
  modify (λ c, set_drawn (alter f r (drawn c)) c).

(** ** Identifiers and metadata *)

(** [uuidv4()]: the next identifier the browser's random source gives. *)
Definition uuidv4 : M string :=
  λ c, (Ok (uuid_at (uuids c)), set_uuids (S (uuids c)) c).

(** [new Date().toISOString()] *)
Definition now : M string :=
  λ c, (Ok (iso_at (clock c)), set_clock (S (clock c)) c).

(** [function ensureLayerId(layer){ if(!layer.options._id)
    layer.options._id='f_'+uuidv4(); }] *)
Definition ensureLayerId (r : nat) : M unit :=
  l ← the_layer r;
  if truthy (opt l "_id") then ret tt
  else u ← uuidv4; on_layer r (set_opt "_id" (VStr ("f_" +:+ u))).

Definition meta (createdBy createdAt updatedBy updatedAt : value) : value :=
  VObj [("createdBy", createdBy); ("createdAt", createdAt);
        ("updatedBy", updatedBy); ("updatedAt", updatedAt)].

(** [function setMetaOnCreate(layer)] *)
Definition setMetaOnCreate (r : nat) : M unit :=
  ensureLayerId r;;
  t ← now;
  me ← gets (λ c, name (my c));
  on_layer r (set_opt "_meta" (meta (VStr me) (VStr t) (VStr me) (VStr t))).

(** [layer.options._meta = Object.assign({}, layer.options._meta||{},
    { updatedBy: collab.my.name, updatedAt: now })]; [_meta] is an object
    whenever the client has set it. *)
Definition updateMetaOnEdit (r : nat) : M unit :=
  t ← now;
  me ← gets (λ c, name (my c));
  l ← the_layer r;
  let old := match or_else (opt l "_meta") (VObj []) with
             | VObj fs => fs
             | _ => []
             end in
  on_layer r (set_opt "_meta"
    (VObj (object_assign old [("updatedBy", VStr me); ("updatedAt", VStr t)]))).

(** ** Serialising one layer *)

(** [layer.toGeoJSON()]: Leaflet's [getFeature], a copy of
    [layer.feature] with the geometry of the layer, or a new feature
    with empty properties when the layer has no [feature].  The copy is
    shallow: its [properties] is the object of [layer.feature]. *)
Definition toGeoJSON (l : Layer) : value :=
  match feature l with
  | VObj fs => VObj (set_field fs "geometry" (toGeometry l))
  | _ => VObj [("type", VStr "Feature"); ("properties", VObj []);
               ("geometry", toGeometry l)]
  end.

(** [const props = gj.properties || (gj.properties={})] *)
Definition props_of (gj : value) : value :=
  or_else (prop gj "properties") (VObj []).

(** Writing [props] back: into the copy [gj], and, since the object is
    shared, into [layer.feature] when it has properties. *)
Definition put_props (props : value) (gj : value) : value :=
  set_prop gj "properties" props.
Definition share_props (props : value) (l : Layer) : Layer :=
  if truthy (prop (feature l) "properties")
  then set_feature (set_prop (feature l) "properties" props) l
  else l.

(** The style and text that both serialisers write on [props]. *)
Definition style_props (l : Layer) (props : value) : value :=
  let props :=
    if instanceof_Polyline (lclass l) then
      let props := set_prop props "stroke" (or_else (opt l "color") (VStr "#ff4757")) in
      let props := set_prop props "opacity" (coalesce (opt l "opacity") (VNum 0.7)) in
      let props := set_prop props "dashArray" (or_else (opt l "dashArray") VNull) in
      if instanceof_Polygon (lclass l)
      then set_prop props "fill" (or_else (opt l "fillColor") (VStr "#2ed573"))
      else props
    else props in
  let props := match tooltip l with
               | Some content => set_prop props "label" content
               | None => props
               end in
  let props := match popup l with
               | Some content => set_prop props "popup" content
               | None => props
               end in
  if instanceof_Marker (lclass l) && truthy (opt l "_am")
  then set_prop props "_am" (opt l "_am")
  else props.

(** [layer.options._id || ('f_'+uuidv4())] *)
Definition id_or_fresh (l : Layer) : M value :=
  if truthy (opt l "_id") then ret (opt l "_id")
  else u ← uuidv4; ret (VStr ("f_" +:+ u)).

Definition set_if_truthy (k : string) (x : value) (props : value) : value :=
  if truthy x then set_prop props k x else props.

(** [function toSingleGeoJSON(layer)] *)
Definition toSingleGeoJSON (r : nat) : M value :=
  l ← the_layer r;
  let gj := toGeoJSON l in
  let props := props_of gj in
  i ← id_or_fresh l;
  let props := set_prop props "_id" i in
  let m := or_else (opt l "_meta") (VObj []) in
  me ← gets (λ c, name (my c));
  let props := set_prop props "_createdBy" (or_else (prop m "createdBy") (VStr me)) in
  createdAt ← (if truthy (prop m "createdAt") then ret (prop m "createdAt")
               else t ← now; ret (VStr t));
  let props := set_prop props "_createdAt" createdAt in
  let props := set_prop props "_updatedBy"
                 (or_else (prop m "updatedBy") (prop props "_createdBy")) in
  let props := set_prop props "_updatedAt"
                 (or_else (prop m "updatedAt") (prop props "_createdAt")) in
  let props := style_props l props in
  (* metadata *)
  i ← id_or_fresh l;
  let props := set_prop props "_id" i in
  let mm := or_else (opt l "_meta") (VObj []) in
  let props := set_if_truthy "_createdBy" (prop mm "createdBy") props in
  let props := set_if_truthy "_createdAt" (prop mm "createdAt") props in
  let props := set_if_truthy "_updatedBy" (prop mm "updatedBy") props in
  let props := set_if_truthy "_updatedAt" (prop mm "updatedAt") props in
  on_layer r (share_props props);;
  ret (put_props props gj).


(** ** Markers with an icon *)

(** The text a value has in a template literal. *)
Fixpoint to_string (v : value) : string :=
  match v with
  | VUndefined => "undefined"
  | VNull => "null"
  | VBool true => "true"
  | VBool false => "false"
  | VNum x => number_toString x
  | VStr s => s
  | VArr items =>
      (fix join (items : list value) : string :=
         match items with
         | [] => ""
         | [i] => if nullish i then "" else to_string i
         | i :: rest => (if nullish i then "" else to_string i) +:+ "," +:+ join rest
         end) items
  | VObj _ => "[object Object]"
  end.

(** [function setMarkerIcon(marker, value)]: the icon itself is
    rendering; what the client reads again is [marker.options._am]. *)
Definition setMarkerIcon (value : string) (marker : Layer) : Layer :=
  let parts := split_comma value in
  let iconName := nth_str parts 0 in
  let color := nth_str parts 1 in
  set_opt "_am" (VObj [("iconName", iconName); ("color", color)]) marker.

(** The [pointToLayer] callback of [addFeatureFromRemote] and of
    [restoreFromGeoJSON], applied to the marker [L.marker(latlng)]. *)
Definition pointToLayer (feature : value) (m : Layer) : Layer :=
  if truthy (prop feature "properties")
     && truthy (prop (prop feature "properties") "_am")
  then
    let am := prop (prop feature "properties") "_am" in
    let v := to_string (prop am "iconName") +:+ ","
             +:+ to_string (or_else (prop am "color") (VStr "#d33")) in
    setMarkerIcon v m
  else m.

(** ** Building layers from GeoJSON *)

(** [function attachCommon(layer){ layer.addTo(drawn); layer.on('click',
    ..) }]: the layer is new, it goes to the end of [drawn]; the result
    is the reference to it. *)
Definition attachCommon (l : Layer) : M nat :=
  λ c, (Ok (length (drawn c)), set_drawn (drawn c ++ [l]) c).

(** [layer.bindTooltip(content, ..).openTooltip()] *)
Definition bindTooltip_open (r : nat) (content : value) : M unit :=
  on_layer r (set_tooltip (Some content));;
  if opensTooltip content then ret tt
  else throw (Error "openTooltip").

(** The style a remote or restored feature puts on a line or polygon. *)
Definition style_from (p : value) (cls : LClass) : fields_t :=
  let opts := [("color", or_else (prop p "stroke") (VStr "#ff4757"));
               ("opacity", coalesce (prop p "opacity") (VNum 0.7));
               ("weight", VNum 3);
               ("dashArray", or_else (prop p "dashArray") VNull)] in
  if instanceof_Polygon cls
  then opts ++ [("fillColor", or_else (prop p "fill") (VStr "#2ed573"));
                ("fillOpacity", coalesce (prop p "opacity") (VNum 0.7));
                ("fill", VBool true)]
  else opts.

Definition meta_from (p : value) : value :=
  meta (prop p "_createdBy") (prop p "_createdAt")
       (prop p "_updatedBy") (prop p "_updatedAt").

(** The [onEachFeature] callback, the same in [addFeatureFromRemote]
    and in [restoreFromGeoJSON]. *)
Definition onEachFeature (feature : value) (layer : Layer) : M unit :=
  r ← attachCommon layer;
  ensureLayerId r;;
  ensureLayerId r;;
  let p := or_else (prop feature "properties") (VObj []) in
  l ← the_layer r;
  on_layer r (set_opt "_id" (or_else (prop p "_id") (opt l "_id")));;
  on_layer r (set_opt "_meta" (meta_from p));;
  (if instanceof_Polyline (lclass layer)
   then on_layer r (setStyle (style_from p (lclass layer)))
   else ret tt);;
  (if truthy (prop p "label") then bindTooltip_open r (prop p "label") else ret tt);;
  (if truthy (prop p "popup")
   then on_layer r (set_popup (Some (prop p "popup")))
   else ret tt).

(** [L.geoJSON(geojson, { pointToLayer, onEachFeature }).addTo(map)] *)
Definition L_geoJSON (geojson : value) : M unit :=
  let '(built, failure) := geoJSON_layers geojson in
  for_each built (λ '(feature, layer),
    onEachFeature feature
      (if instanceof_Marker (lclass layer) then pointToLayer feature layer
       else layer));;
  match failure with
  | Some e => throw e
  | None => ret tt
  end.

Definition restoreFromGeoJSON (geojson : value) : M unit := L_geoJSON geojson.

(** ** History *)

Definition HISTORY_LIMIT : nat := 100.

(** [updateUndoRedoUI] only enables and disables two buttons. *)
Definition updateUndoRedoUI : M unit := ret tt.

(** One layer of [collectGeoJSON]: the feature it pushes, and the layer
    as the shared [properties] object leaves it. *)
Definition collect_layer (l : Layer) : value * Layer :=
  let gj := toGeoJSON l in
  let props := style_props l (props_of gj) in
  (put_props props gj, share_props props l).

(** [function collectGeoJSON()] *)
Definition collectGeoJSON : M value :=
  λ c, let done := map collect_layer (drawn c) in
       (Ok (VObj [("type", VStr "FeatureCollection");
                  ("features", VArr (map fst done))]),
        set_drawn (map snd done) c).

(** [function snapshot()] *)
Definition snapshot : M unit :=
  restoring ← gets isRestoring;
  if restoring then ret tt
  else
    try_catch
      (fc ← collectGeoJSON;
       let state := JSON_stringify fc in
       modify (λ c, set_undoStack (undoStack c ++ [state]) c);;
       n ← gets (λ c, length (undoStack c));
       (if decide (HISTORY_LIMIT < n)
        then modify (λ c, set_undoStack (tail (undoStack c)) c)
        else ret tt);;
       modify (set_redoStack []);;
       updateUndoRedoUI)
      (λ _, ret tt).

(** [function loadState(geojson)].  After [drawn.clearLayers()] it takes
    the groups that earlier [L.geoJSON(..).addTo(map)] calls left on the
    map off the map; what is on the map is rendering, and every layer of
    such a group was put in [drawn] by [attachCommon]. *)
Definition loadState (geojson : value) : M unit :=
  modify (set_isRestoring true);;
  try_finally
    (modify (set_drawn []);;
     restoreFromGeoJSON geojson)
    (modify (set_isRestoring false);;
     updateUndoRedoUI).

Definition canUndo (c : State) : bool := bool_decide (1 < length (undoStack c)).
Definition canRedo (c : State) : bool := bool_decide (0 < length (redoStack c)).

(** [JSON.parse(text)], which throws on text that is not JSON. *)
Definition parse (t : text) : M value :=
  match JSON_parse t with
  | Some v => ret v
  | None => throw (Error "SyntaxError")
  end.

(** [function undo()] and [function redo()].  [pop()] and the read of
    the new top always find an entry, as [canUndo()]/[canRedo()] held. *)
Definition undo : M unit :=
  can ← gets canUndo;
  if negb can then ret tt
  else
    stack ← gets undoStack;
    match last stack with
    | None => ret tt
    | Some curr =>
        modify (set_undoStack (removelast stack));;
        modify (λ c, set_redoStack (redoStack c ++ [curr]) c);;
        match last (removelast stack) with
        | None => throw TypeError
        | Some top => prev ← parse top; loadState prev
        end
    end.

Definition redo : M unit :=
  can ← gets canRedo;
  if negb can then ret tt
  else
    stack ← gets redoStack;
    match last stack with
    | None => ret tt
    | Some state =>
        modify (set_redoStack (removelast stack));;
        modify (λ c, set_undoStack (undoStack c ++ [state]) c);;
        prev ← parse state;
        loadState prev
    end.


(** ** Collaboration: the participants *)

(** The position of a key in the map. *)
Fixpoint key_index (ps : list (value * Participant)) (k : value) : option nat :=
  match ps with
  | [] => None
  | (k', _) :: rest =>
      if same_value_zero k' k then Some 0
      else S <$> key_index rest k
  end.

(** [participants.get(k)] *)
Definition participants_get (k : value) : M (option Participant) :=
  gets (λ c, i ← key_index (participants c) k;
             snd <$> participants c !! i)%stdpp.

(** [participants.set(k, p)]; the result is where the entry sits, for
    the statements that go on changing the object [p]. *)
Definition participants_set (k : value) (p : Participant) : M nat :=
  λ c, match key_index (participants c) k with
       | Some i =>
           (Ok i, set_participants
                    (alter (λ e, (e.1, p)) i (participants c)) c)
       | None =>
           (Ok (length (participants c)),
            set_participants (participants c ++ [(k, p)]) c)
       end.

Definition on_participant (i : nat) (f : Participant → Participant) : M unit :=
  modify (λ c, set_participants
                 (alter (λ e, (e.1, f e.2)) i (participants c)) c).

Definition is_string (v : value) : bool :=
  match v with VStr _ => true | _ => false end.

(** [renderPresence] puts the own entry in the map and redraws the
    list; drawing an entry calls [p.name.slice(0,2).toUpperCase()],
    which throws unless the name is a string. *)
Definition renderPresence : M unit :=
  me ← gets my;
  participants_set (VStr (id me))
    {| p_name := VStr (name me); p_color := VStr (color me); p_self := true;
       p_cursor := None; p_lastView := None |};;
  ps ← gets participants;
  if forallb (λ e, is_string (p_name e.2)) ps then ret tt
  else throw TypeError.

(** ** Collaboration: sending *)

Definition send (type : string) (payload : fields_t) : M unit :=
  on ← gets connected;
  if negb on then ret tt
  else
    me ← gets my;
    rm ← gets room;
    let msg := object_assign
                 [("type", VStr type); ("room", VStr rm);
                  ("user", VObj [("id", VStr (id me)); ("name", VStr (name me));
                                 ("color", VStr (color me))])]
                 payload in
    try_catch
      (ready ← gets wsOpen;
       if ready
       then modify (λ c, set_sent (sent c ++ [JSON_stringify (VObj msg)]) c)
       else throw (Error "InvalidStateError"))
      (λ _, ret tt).

(** [sendAdd], [sendEdit], [sendRemove]: the layer they are given is a
    layer of [drawn]; [sendEdit] and [sendRemove] also accept none. *)
Definition sendAdd (layer : nat) : M unit :=
  remote ← gets isRemoteApplying;
  if remote then ret tt
  else
    ensureLayerId layer;;
    setMetaOnCreate layer;;
    gj ← toSingleGeoJSON layer;
    send "feature:add" [("feature", gj)].

Definition sendEdit (layer : option nat) : M unit :=
  remote ← gets isRemoteApplying;
  if remote then ret tt
  else
    match layer with
    | None => ret tt
    | Some r =>
        updateMetaOnEdit r;;
        gj ← toSingleGeoJSON r;
        send "feature:edit" [("feature", gj)]
    end.

Definition sendRemove (layer : option nat) : M unit :=
  remote ← gets isRemoteApplying;
  if remote then ret tt
  else
    match layer with
    | None => ret tt
    | Some r =>
        l ← the_layer r;
        let i := opt l "_id" in
        if truthy i then send "feature:remove" [("id", i)] else ret tt
    end.

(** ** Collaboration: applying what arrives *)

(** [function findLayerById(id)]: the last layer of [drawn] whose
    [options._id] is [id]. *)
Fixpoint find_last (ls : list Layer) (i : value) (at_ : nat) (found : option nat)
    : option nat :=
  match ls with
  | [] => found
  | l :: rest =>
      find_last rest i (S at_)
        (if strict_eq (opt l "_id") i then Some at_ else found)
  end.

Definition findLayerById (i : value) : M (option nat) :=
  gets (λ c, find_last (drawn c) i 0 None).

Definition addFeatureFromRemote (feat : value) : M unit := L_geoJSON feat.

(** In the branch for a known identifier, [unbindTooltip] and
    [unbindPopup] are called when there is one to unbind; either way
    none is bound afterwards. *)
Definition editFeatureFromRemote (feat : value) : M unit :=
  props ← getp feat "properties";
  let i := if truthy props then prop props "_id" else props in
  if negb (truthy i) then addFeatureFromRemote feat
  else
    found ← findLayerById i;
    match found with
    | None => addFeatureFromRemote feat
    | Some r =>
        layer ← the_layer r;
        let g := prop feat "geometry" in
        (if instanceof_Polyline (lclass layer) && truthy g then
           if strict_eq (prop g "type") (VStr "LineString") then
             match coordsToLatLngs (prop g "coordinates") 0 with
             | Some lls => on_layer r (set_latlngs lls)
             | None => throw (Error "coordsToLatLngs")
             end
           else if strict_eq (prop g "type") (VStr "Polygon") then
             match coordsToLatLngs (prop g "coordinates") 1 with
             | Some lls => on_layer r (set_latlngs lls)
             | None => throw (Error "coordsToLatLngs")
             end
           else ret tt
         else ret tt);;
        let p := or_else (prop feat "properties") (VObj []) in
        (if instanceof_Polyline (lclass layer)
         then on_layer r (setStyle (style_from p (lclass layer)))
         else ret tt);;
        (if truthy (prop p "label") then bindTooltip_open r (prop p "label")
         else on_layer r (set_tooltip None));;
        (if truthy (prop p "popup")
         then on_layer r (set_popup (Some (prop p "popup")))
         else on_layer r (set_popup None));;
        on_layer r (set_opt "_meta" (meta_from p))
    end.

(** [function removeFeatureById(id){ const l=findLayerById(id); if(l)
    drawn.removeLayer(l); }] *)
Definition removeFeatureById (i : value) : M unit :=
  found ← findLayerById i;
  match found with
  | Some r => modify (λ c, set_drawn (delete r (drawn c)) c)
  | None => ret tt
  end.

Definition is_type (type : value) (s : string) : bool := strict_eq type (VStr s).

(** The body of the three feature branches of [handle]. *)
Definition applying_remote (apply : M unit) : M unit :=
  modify (set_isRemoteApplying true);;
  try_finally apply (modify (set_isRemoteApplying false)).

(** Handle incoming collaboration message.  The cursor of a participant
    is a marker on the map; [p_cursor] is where it stands, whether
    [L.marker(..).addTo(map)] has just made it or [setLatLng] moved it. *)
Definition handle (msg : value) : M unit :=
  type ← getp msg "type";
  let user := prop msg "user" in
  if negb (truthy user) || negb (truthy (prop user "id")) then ret tt
  else
    known ← participants_get (prop user "id");
    let p := default {| p_name := prop user "name"; p_color := prop user "color";
                        p_self := false; p_cursor := None; p_lastView := None |}
                     known in
    let p := set_p_identity (prop user "name") (prop user "color") p in
    at_ ← participants_set (prop user "id") p;
    if is_type type "presence" || is_type type "hello" then renderPresence
    else if is_type type "cursor" && truthy (prop msg "latlng") then
      if placesMarker (prop msg "latlng")
      then on_participant at_ (set_p_cursor (Some (prop msg "latlng")))
      else throw (Error "latlng")
    else if is_type type "view" && truthy (prop msg "center")
            && is_number (prop msg "zoom") then
      on_participant at_ (set_p_lastView (Some (prop msg "center", prop msg "zoom")))
    else if is_type type "feature:add" && truthy (prop msg "feature") then
      applying_remote (addFeatureFromRemote (prop msg "feature"))
    else if is_type type "feature:edit" && truthy (prop msg "feature") then
      applying_remote (editFeatureFromRemote (prop msg "feature"))
    else if is_type type "feature:remove" && truthy (prop msg "id") then
      applying_remote (removeFeatureById (prop msg "id"))
    else ret tt.

(** [ws.onmessage] *)
Definition onmessage (data : text) : M unit :=
  match JSON_parse data with
  | None => ret tt
  | Some msg =>
      rm ← gets room;
      me ← gets my;
      msg_room ← getp msg "room";
      if truthy msg_room && negb (strict_eq msg_room (VStr rm)) then ret tt
      else if truthy (prop msg "user")
              && strict_eq (prop (prop msg "user") "id") (VStr (id me)) then ret tt
      else handle msg
  end.

(** ** What the claims speak of *)

(** Nothing was sent and the history was not touched. *)
Definition quiet (c c' : State) : Prop :=
  sent c' = sent c ∧ undoStack c' = undoStack c ∧ redoStack c' = redoStack c.

(** A piece of script that sends nothing and leaves the history alone. *)
Definition silent {A} (m : M A) : Prop := ∀ c, quiet c (m c).2.

(** The room field of the message is not the room the client is in. *)
Definition other_room (msg : value) (c : State) : bool :=
  negb (strict_eq (prop msg "room") (VStr (room c))).

(** The message carries the client's own identifier. *)
Definition own_echo (msg : value) (c : State) : bool :=
  strict_eq (prop (prop msg "user") "id") (VStr (id (my c))).

(** What claim C3 says of one message. *)
Definition filtered_as_claimed (msg : value) (c : State) : Prop :=
  other_room msg c = true ∨ own_echo msg c = true →
  onmessage (Json msg) c = (Ok tt, c).

(** The messages for which [handle] applies a feature operation. *)
Definition remote_feature_message (msg : value) : bool :=
  negb (nullish msg)
  && truthy (prop msg "user") && truthy (prop (prop msg "user") "id")
  && ((is_type (prop msg "type") "feature:add" && truthy (prop msg "feature"))
      || (is_type (prop msg "type") "feature:edit" && truthy (prop msg "feature"))
      || (is_type (prop msg "type") "feature:remove" && truthy (prop msg "id"))).

(** The operation [handle] applies for such a message. *)
Definition remote_operation (msg : value) : M unit :=
  if is_type (prop msg "type") "feature:add"
  then addFeatureFromRemote (prop msg "feature")
  else if is_type (prop msg "type") "feature:edit"
  then editFeatureFromRemote (prop msg "feature")
  else removeFeatureById (prop msg "id").

(** What Leaflet made of a feature: the class and the positions of the
    layer. *)
Definition shape (l : Layer) : LClass * value := (lclass l, latlngs l).

(** What claim C8 says of one restore: when rebuilding the store from
    the snapshot fails, [loadState] leaves the store as it was and does
    not throw. *)
Definition failure_contained (geojson : value) (c : State) : Prop :=
  (restoreFromGeoJSON geojson (set_drawn [] (set_isRestoring true c))).1 ≠ Ok tt →
  drawn (loadState geojson c).2 = drawn c ∧ (loadState geojson c).1 = Ok tt.

(** The label of the feature, when it has one, can be opened. *)
Definition label_opens (feature : value) : Prop :=
  let p := or_else (prop feature "properties") (VObj []) in
  truthy (prop p "label") = true → opensTooltip (prop p "label") = true.


(** The snapshot [snapshot] takes of a store: what [collectGeoJSON]
    collects, as [JSON.stringify] writes it. *)
Definition captured (store : list Layer) : value :=
  jsonable (VObj [("type", VStr "FeatureCollection");
                  ("features", VArr (map fst (map collect_layer store)))]).

(** [undoStack.push(state); if(undoStack.length > HISTORY_LIMIT)
    undoStack.shift()] *)
Definition pushed (stack : list text) (state : text) : list text :=
  if decide (HISTORY_LIMIT < length (stack ++ [state]))
  then tail (stack ++ [state])
  else stack ++ [state].

End Script.

End Client.

(* ===================================================================== *)
(** * A small Leaflet and browser, to run the client on examples          *)
(* ===================================================================== *)

Module Simple.
Import JS Client.

(** Path options every new layer starts from. *)
Definition default_options (cls : LClass) : fields_t :=
  match cls with
  | Polyline | Polygon =>
      [("color", VStr "#3388ff"); ("weight", VNum 3); ("opacity", VNum 1)]
  | _ => []
  end.

Definition class_of (geometry : value) : option LClass :=
  match prop geometry "type" with
  | VStr "Point" => Some Marker
  | VStr "LineString" => Some Polyline
  | VStr "Polygon" => Some Polygon
  | VStr "MultiPoint" | VStr "GeometryCollection" => Some Group
  | _ => None
  end.

(** [geometryToLayer] for one feature: the layer, or nothing when the
    geometry type is not one of GeoJSON's ("Invalid GeoJSON object."). *)
Definition geometryToLayer (feature : value) : option Layer :=
  cls ← class_of (prop feature "geometry");
  Some {| lclass := cls;
          latlngs := prop (prop feature "geometry") "coordinates";
          feature := feature;
          options := default_options cls;
          tooltip := None; popup := None |}.

(** [addData] over the features of a collection: a feature without a
    geometry is passed over, one with an unknown geometry stops the
    conversion with an error. *)
Fixpoint addData (features : list value) : list (value * Layer) * option exn :=
  match features with
  | [] => ([], None)
  | f :: rest =>
      if negb (truthy (prop f "geometry")) then addData rest
      else match geometryToLayer f with
           | None => ([], Some (Error "Invalid GeoJSON object."))
           | Some l => let '(built, failure) := addData rest in
                       ((f, l) :: built, failure)
           end
  end.

Definition geoJSON (geojson : value) : list (value * Layer) * option exn :=
  match prop geojson "features" with
  | VArr features => addData features
  | _ => addData [geojson]
  end.

Definition geometry_type (cls : LClass) : string :=
  match cls with
  | Marker => "Point"
  | Polyline => "LineString"
  | Polygon => "Polygon"
  | Group => "MultiPoint"
  end.

Definition is_array (v : value) : bool :=
  match v with VArr _ => true | _ => false end.

#[local] Instance leaflet : Leaflet := {|
  geoJSON_layers := geoJSON;
  coordsToLatLngs := λ coords _, if is_array coords then Some coords else None;
  toGeometry := λ l, VObj [("type", VStr (geometry_type (lclass l)));
                           ("coordinates", latlngs l)];
  opensTooltip := is_string;
  placesMarker := is_array
|}.

#[local] Instance browser : Browser := {|
  uuid_at := λ n, "uuid-" +:+ pretty n;
  iso_at := λ n, "2025-01-01T00:00:0" +:+ pretty n +:+ "Z";
  number_toString := λ _, "0"
|}.

(** A client that is connected to room "demo". *)
Definition client : State :=
  {| drawn := []; undoStack := []; redoStack := [];
     isRestoring := false; isRemoteApplying := false;
     my := {| id := "me"; name := "Me"; color := "hsl(0 70% 55%)" |};
     participants := []; connected := true; room := "demo";
     wsOpen := true; sent := []; uuids := 0; clock := 0 |}.

Definition polyline_feature (i : string) : value :=
  VObj [("type", VStr "Feature");
        ("properties", VObj [("_id", VStr i); ("stroke", VStr "#123456")]);
        ("geometry", VObj [("type", VStr "LineString");
                           ("coordinates",
                            VArr [VArr [VNum 1; VNum 2]; VArr [VNum 3; VNum 4]])])].

Definition broken_feature (i : string) : value :=
  VObj [("type", VStr "Feature");
        ("properties", VObj [("_id", VStr i)]);
        ("geometry", VObj [("type", VStr "Blob"); ("coordinates", VArr [])])].

Definition peer : value :=
  VObj [("id", VStr "peer"); ("name", VStr "Ann"); ("color", VStr "red")].

Definition message (type room : string) (more : fields_t) : value :=
  VObj ([("type", VStr type); ("room", VStr room); ("user", peer)] ++ more).

(** The client after a peer has added the line "a". *)
Definition one_feature : State :=
  (handle (message "feature:add" "demo" [("feature", polyline_feature "a")])
     client).2.


(** A snapshot whose second feature is not GeoJSON. *)
Definition corrupt_snapshot : value :=
  VObj [("type", VStr "FeatureCollection");
        ("features", VArr [polyline_feature "b"; broken_feature "c"])].

(** A line drawn locally: it has an identifier and no [feature]. *)
Definition local_line : Layer :=
  {| lclass := Polyline;
     latlngs := VArr [VArr [VNum 5; VNum 6]; VArr [VNum 7; VNum 8]];
     feature := VUndefined;
     options := default_options Polyline ++ [("_id", VStr "f_local")];
     tooltip := None; popup := None |}.

End Simple.

(* ===================================================================== *)
(** * Part III, continued.  More of the client, and what the further theorems speak of *)
(* ===================================================================== *)

Module Frames.
Import JS Client.

(** A piece of script that leaves one part [f] of the state as it is. *)
Definition keeps {A X} (f : State → X) (m : M A) : Prop :=
  ∀ c, f (m c).2 = f c.

End Frames.


Module Transport.
Import JS Client.
Local Open Scope script_scope.

Definition set_connected (x : bool) (c : State) : State :=
  {| drawn := drawn c; undoStack := undoStack c; redoStack := redoStack c;
     isRestoring := isRestoring c; isRemoteApplying := isRemoteApplying c;
     my := my c; participants := participants c; connected := x;
     room := room c; wsOpen := wsOpen c; sent := sent c; uuids := uuids c;
     clock := clock c |}.

Section Script.
Context {Lf : Leaflet} {Br : Browser}.


(** [ws.onclose=()=>{ connected=false; for(const [id,p] of
    [...participants]){ if(!p.self){ if(p.cursor)
    map.removeLayer(p.cursor); participants.delete(id);} }
    renderPresence(); }]: taking a cursor marker off the map is
    rendering. *)
Definition onclose : M unit :=
  modify (set_connected false);;
  modify (λ c, set_participants
                 (List.filter (λ e, p_self e.2) (participants c)) c);;
  renderPresence.

(** [function isConnected(){ return connected; }] *)
Definition isConnected : M bool := gets connected.

(** [function sendCursor(latlng){ send('cursor',{latlng}); }] *)
Definition sendCursor (latlng : value) : M unit :=
  send "cursor" [("latlng", latlng)].

End Script.
End Transport.

Module Wire.
Import JS Client.

(** The message [send] builds and hands to [ws.send]:
    [JSON.stringify(Object.assign({type,room,user:{id,name,color}},
    payload||{}))], as the receiver parses it. *)
Definition outgoing (type : string) (payload : fields_t) (c : State) : value :=
  jsonable
    (VObj (object_assign
             [("type", VStr type); ("room", VStr (room c));
              ("user", VObj [("id", VStr (id (my c))); ("name", VStr (name (my c)));
                             ("color", VStr (color (my c)))])]
             payload)).

End Wire.

Module Store.
Import JS Client.

(** The state without the store and the two counters that building
    layers advances. *)
Definition beside_store (c : State) : State :=
  set_clock 0 (set_uuids 0 (set_drawn [] c)).

(** The value [v] is an object that has [x] under the key [k]. *)
Definition holds (k : string) (x : value) (v : value) : Prop :=
  ∃ fs, v = VObj fs ∧ own fs k = x.

(** The key [k] is a property of the object, with the value [x]. *)
Fixpoint bound_to (fs : fields_t) (k : string) (x : value) : Prop :=
  match fs with
  | [] => False
  | (k', v) :: rest => if String.eqb k' k then v = x else bound_to rest k x
  end.

End Store.

Module Remote.
Import JS Client Store.

Section Script.
Context {Lf : Leaflet} {Br : Browser}.

(** The layer shows what the feature says: the positions Leaflet makes
    of its coordinates (for a line or a polygon), its style, its label,
    its popup and its metadata. *)
Definition settled (feat : value) (l : Layer) : Prop :=
  let p := or_else (prop feat "properties") (VObj []) in
  let g := prop feat "geometry" in
  (instanceof_Polyline (lclass l) && truthy g = true →
   (strict_eq (prop g "type") (VStr "LineString") = true →
    coordsToLatLngs (prop g "coordinates") 0 = Some (latlngs l))
   ∧ (strict_eq (prop g "type") (VStr "LineString") = false →
      strict_eq (prop g "type") (VStr "Polygon") = true →
      coordsToLatLngs (prop g "coordinates") 1 = Some (latlngs l)))
  ∧ (instanceof_Polyline (lclass l) = true →
     Forall (λ kv, bound_to (options l) kv.1 kv.2) (style_from p (lclass l)))
  ∧ tooltip l = (if truthy (prop p "label") then Some (prop p "label") else None)
  ∧ (truthy (prop p "label") = true → opensTooltip (prop p "label") = true)
  ∧ popup l = (if truthy (prop p "popup") then Some (prop p "popup") else None)
  ∧ bound_to (options l) "_meta" (meta_from p).

End Script.

(** Whether the text has a comma in it. *)
Fixpoint has_comma (s : string) : bool :=
  match s with
  | EmptyString => false
  | String c rest => Ascii.eqb c ","%char || has_comma rest
  end.

End Remote.

Module Ids.

(** [x.toString(16)] of an element [x] of a [Uint8Array]. *)
Definition hex_digit (d : Z) : ascii :=
  match d with
  | 0 => "0" | 1 => "1" | 2 => "2" | 3 => "3" | 4 => "4" | 5 => "5"
  | 6 => "6" | 7 => "7" | 8 => "8" | 9 => "9" | 10 => "a" | 11 => "b"
  | 12 => "c" | 13 => "d" | 14 => "e" | _ => "f"
  end%Z%char.

Definition toString16 (x : Z) : string :=
  if (x <? 16)%Z then String (hex_digit x) ""
  else String (hex_digit (x / 16)) (String (hex_digit (x mod 16)) "").

(** [s.slice(-n)] *)
Definition slice_last (n : nat) (s : string) : string :=
  String.substring (String.length s - n) n s.

(** [('0'+x.toString(16)).slice(-2)] *)
Definition hex2 (x : Z) : string := slice_last 2 ("0" +:+ toString16 x).

(** [function uuidv4()], where [crypto.getRandomValues] is there; [a] is
    the array of 16 bytes it has filled. *)
Definition uuidv4 (a : list Z) : string :=
  let a := <[6 := Z.lor (Z.land (a !!! 6) 15) 64]> a in
  let a := <[8 := Z.lor (Z.land (a !!! 8) 63) 128]> a in
  String.concat ""
    (imap (λ i x, if (i =? 4) || (i =? 6) || (i =? 8) || (i =? 10)
                  then "-" +:+ hex2 x else hex2 x) a).

(** [function colorFromName(name)]; [name] is given by its UTF-16 code
    units, which is what [charCodeAt] reads.  [>>>0] keeps the low 32
    bits. *)
Definition name_hash (name : list Z) : Z :=
  foldl (λ h code, ((h * 31 + code) mod 2 ^ 32)%Z) 0%Z name.

Definition colorFromName (name : list Z) : string :=
  let h := name_hash name in
  let h := Z.rem h 360 in
  "hsl(" +:+ pretty h +:+ " 70% 55%)".

(** The characters of an identifier. *)
Definition is_hex (c : ascii) : bool :=
  existsb (Ascii.eqb c) (list_ascii_of_string "0123456789abcdef").

End Ids.

Module Shadow.

(** [function zeroPad(n)] and [function minutesToHHMM(m)] of the shadow
    viewer; the numbers they are given are whole and not negative (a
    field of a [Date], the minutes of a range input). *)
Definition zeroPad (n : nat) : string :=
  if n <? 10 then "0" +:+ pretty n else pretty n.

Definition minutesToHHMM (m : nat) : string :=
  let hh := m / 60 in
  let mm := m mod 60 in
  zeroPad hh +:+ ":" +:+ zeroPad mm.

End Shadow.


Module Freehand.
Import JS Client.
Local Open Scope script_scope.

(** What the script reads from the page when it styles a layer and
    while a stroke is drawn: the values of the inputs, a number where the
    script reads one with [parseFloat] (NaN when the text is no number),
    the label and the popup text after [trim()]. *)
Record Inputs := {
  strokeColor : string;
  fillColor : string;
  opacity : float;
  lineType : string;
  labelText : string;
  popupText : string;
  fhPenOnly : string;
  fhMinDist : float
}.

(** What the map gives: the options a new path starts with, and
    [map.distance]. *)
Class Ground := {
  path_options : fields_t;
  distance : value → value → float
}.

(** A pointer event, with the position [map.mouseEventToLatLng(e)]. *)
Record PointerEvent := {
  pointerId : Z;
  pointerType : string;
  position : value
}.

(** [fhEnabled], [fhDrawing], [fhPointerId] and [fhPts]; [fhTemp], the
    line shown while the stroke is drawn, is rendering. *)
Record Pen := {
  fhEnabled : bool;
  fhDrawing : bool;
  fhPointerId : option Z;
  fhPts : list value
}.

Definition idle : Pen :=
  {| fhEnabled := false; fhDrawing := false; fhPointerId := None; fhPts := [] |}.

Section Script.
Context {Lf : Leaflet} {Gr : Ground}.
Variable inputs : Inputs.

(** [function applyStyle(layer)] *)
Definition applyStyle (r : nat) : M unit :=
  let stroke := strokeColor inputs in
  let fill := fillColor inputs in
  let op := opacity inputs in
  let lt := lineType inputs in
  let dash := if String.eqb lt "dash" then VStr "6, 8"
              else if String.eqb lt "dot" then VStr "1, 6" else VNull in
  l ← the_layer r;
  if instanceof_Polyline (lclass l) then
    let opts := [("color", VStr stroke); ("opacity", VNum op);
                 ("weight", VNum 3); ("dashArray", dash)] in
    let opts := if instanceof_Polygon (lclass l)
                then opts ++ [("fillColor", VStr fill); ("fillOpacity", VNum op);
                              ("fill", VBool true)]
                else opts in
    on_layer r (setStyle opts)
  else ret tt.

(** [function applyText(layer)] *)
Definition applyText (r : nat) : M unit :=
  let label := labelText inputs in
  let popup := popupText inputs in
  (if truthy (VStr label) then bindTooltip_open r (VStr label)
   else on_layer r (set_tooltip None));;
  (if truthy (VStr popup) then on_layer r (set_popup (Some (VStr popup)))
   else on_layer r (set_popup None)).

(** [L.polyline(latlngs)] *)
Definition L_polyline (pts : list value) : Layer :=
  {| lclass := Polyline; latlngs := VArr pts; feature := VUndefined;
     options := path_options; tooltip := None; popup := None |}.

(** [Math.max(0, parseFloat(..) || 0)] *)
Definition minDist : float :=
  let parsed := fhMinDist inputs in
  let y := if truthy (VNum parsed) then parsed else 0%float in
  if PrimFloat.ltb y 0 then 0%float else y.

(** [function startFreehand(e)] *)
Definition startFreehand (e : PointerEvent) (p : Pen) : Pen :=
  if negb (fhEnabled p) then p
  else
    let penOnly := String.eqb (fhPenOnly inputs) "yes" in
    if penOnly && truthy (VStr (pointerType e))
       && negb (String.eqb (pointerType e) "pen")
    then p
    else {| fhEnabled := fhEnabled p; fhDrawing := true;
            fhPointerId := Some (pointerId e); fhPts := [position e] |}.

(** [function moveFreehand(e)] *)
Definition moveFreehand (e : PointerEvent) (p : Pen) : Pen :=
  if negb (fhDrawing p) || negb (bool_decide (fhPointerId p = Some (pointerId e)))
  then p
  else
    let ll := position e in
    let pushed := {| fhEnabled := fhEnabled p; fhDrawing := fhDrawing p;
                     fhPointerId := fhPointerId p; fhPts := fhPts p ++ [ll] |} in
    match last (fhPts p) with
    | None => pushed
    | Some l =>
        if negb (truthy l) || PrimFloat.leb minDist (distance l ll)
        then pushed else p
    end.

(** The line that [endFreehand] makes of the points: [attachCommon(line);
    applyStyle(line); applyText(line); snapshot()].  That the line is
    then the selected one is not represented. *)
Definition commit_line (pts : list value) : M unit :=
  r ← attachCommon (L_polyline pts);
  applyStyle r;;
  applyText r;;
  snapshot.

(** [function endFreehand(cancel)]; when the line cannot be made, the
    exception leaves before [fhPts] and [fhPointerId] are reset. *)
Definition endFreehand (cancel : bool) (p : Pen) (c : State)
    : outcome unit * Pen * State :=
  if negb (fhDrawing p) then (Ok tt, p, c)
  else
    let stopped := {| fhEnabled := fhEnabled p; fhDrawing := false;
                      fhPointerId := fhPointerId p; fhPts := fhPts p |} in
    let reset := {| fhEnabled := fhEnabled p; fhDrawing := false;
                    fhPointerId := None; fhPts := [] |} in
    if negb cancel && bool_decide (1 < length (fhPts p)) then
      match commit_line (fhPts p) c with
      | (Ok _, c') => (Ok tt, reset, c')
      | (Throw e, c') => (Throw e, stopped, c')
      end
    else (Ok tt, reset, c).

(** [function setFreehandEnabled(on)] *)
Definition setFreehandEnabled (on : bool) (p : Pen) (c : State)
    : outcome unit * Pen * State :=
  let p := {| fhEnabled := on; fhDrawing := fhDrawing p;
              fhPointerId := fhPointerId p; fhPts := fhPts p |} in
  if negb on && fhDrawing p then endFreehand true p c else (Ok tt, p, c).

(** What the page does to the pen: the four pointer listeners of the map
    container and the two buttons. *)
Inductive PenEvent :=
| Down (e : PointerEvent)
| Move (e : PointerEvent)
| Up (e : PointerEvent)
| Cancel (e : PointerEvent)
| Switch (on : bool).

Definition pen_step (ev : PenEvent) (p : Pen) (c : State)
    : outcome unit * Pen * State :=
  match ev with
  | Down e => (Ok tt, startFreehand e p, c)
  | Move e => (Ok tt, moveFreehand e p, c)
  | Up e =>
      if bool_decide (fhPointerId p = Some (pointerId e))
      then endFreehand false p c else (Ok tt, p, c)
  | Cancel e =>
      if bool_decide (fhPointerId p = Some (pointerId e))
      then endFreehand true p c else (Ok tt, p, c)
  | Switch on => setFreehandEnabled on p c
  end.

(** One event after the other; an exception ends a listener, not the
    page. *)
Fixpoint pen_run (evs : list PenEvent) (p : Pen) (c : State) : Pen * State :=
  match evs with
  | [] => (p, c)
  | ev :: rest =>
      let '(_, p', c') := pen_step ev p c in
      pen_run rest p' c'
  end.

End Script.
End Freehand.

Module Samples.
Import JS Client Simple.

(** A client whose store holds one line drawn locally. *)
Definition drawing : State := set_drawn [local_line] client.

(** A marker put on the map locally. *)
Definition pin : Layer :=
  {| lclass := Marker; latlngs := VArr [VNum 1; VNum 2]; feature := VUndefined;
     options := []; tooltip := None; popup := None |}.

(** A cursor message of the peer. *)
Definition cursor_message : value :=
  message "cursor" "demo" [("latlng", VArr [VNum 1; VNum 2])].

(** The line "a" with another colour. *)
Definition recoloured : value :=
  VObj [("type", VStr "Feature");
        ("properties", VObj [("_id", VStr "a"); ("stroke", VStr "#abcdef");
                             ("label", VStr "road")]);
        ("geometry", VObj [("type", VStr "LineString");
                           ("coordinates",
                            VArr [VArr [VNum 1; VNum 2]; VArr [VNum 5; VNum 6]])])].

(** The ground the pen draws on, and the inputs of the page: a red
    solid line without a label. *)
#[local] Instance ground : Freehand.Ground := {|
  Freehand.path_options := default_options Polyline;
  Freehand.distance := λ _ _, 1%float
|}.

Definition page_inputs : Freehand.Inputs :=
  {| Freehand.strokeColor := "#ff0000"; Freehand.fillColor := "#00ff00";
     Freehand.opacity := 0.7%float; Freehand.lineType := "solid";
     Freehand.labelText := ""; Freehand.popupText := "";
     Freehand.fhPenOnly := "no"; Freehand.fhMinDist := 0%float |}.

Definition pen_event : Freehand.PointerEvent :=
  {| Freehand.pointerId := 1; Freehand.pointerType := "pen";
     Freehand.position := VArr [VNum 3; VNum 4] |}.

(** A stroke of two points in progress. *)
Definition two_points : Freehand.Pen :=
  {| Freehand.fhEnabled := true; Freehand.fhDrawing := true;
     Freehand.fhPointerId := Some 1%Z;
     Freehand.fhPts := [VArr [VNum 1; VNum 2]; VArr [VNum 3; VNum 4]] |}.

End Samples.

(* ===================================================================== *)
(** * Part IV.  Theorems about the relay                                  *)
(* ===================================================================== *)

Module RelayFacts.
Import Relay.

(** *** Registration *)

Lemma register_bound h s room r0 :
  sessionRoom h !! s = Some r0 → register h s room = h.
Proof. intros Hb. unfold register. by rewrite Hb. Qed.

Lemma register_binding h s room :
  sessionRoom (register h s room) !! s
  = Some (default room (sessionRoom h !! s)).
Proof.
  unfold register. destruct (sessionRoom h !! s) eqn:Hb; simpl; [done|].
  by rewrite lookup_insert_eq.
Qed.

Lemma register_member h s room :
  sessionRoom h !! s = None → s ∈ members (register h s room) room.
Proof.
  intros Hb. unfold register, members. rewrite Hb. simpl.
  rewrite lookup_insert_eq. simpl. set_solver.
Qed.

(** *** The two maps agree *)

Lemma consistent_empty : consistent empty_handler.
Proof.
  split; simpl.
  - intros s r. rewrite lookup_empty. split; [done|].
    intros (set & Hset & _). by rewrite lookup_empty in Hset.
  - intros r set Hset. by rewrite lookup_empty in Hset.
Qed.

Lemma consistent_register h s room :
  consistent h → consistent (register h s room).
Proof.
  intros [Hagree Hne]. unfold register.
  destruct (sessionRoom h !! s) eqn:Hb; [done|]. split; simpl.
  - intros s' r.
    destruct (decide (s' = s)) as [->|Hs].
    + rewrite lookup_insert_eq. split.
      * intros [= <-]. rewrite lookup_insert_eq. eexists; split; [done|set_solver].
      * intros (set & Hset & Hin).
        destruct (decide (r = room)) as [->|Hr]; [done|].
        rewrite lookup_insert_ne in Hset by done.
        assert (sessionRoom h !! s = Some r) as Hbound
          by (apply Hagree; eauto).
        congruence.
    + rewrite lookup_insert_ne by done. rewrite Hagree.
      destruct (decide (r = room)) as [->|Hr].
      * rewrite lookup_insert_eq. split.
        -- intros (set & Hset & Hin). rewrite Hset. simpl.
           eexists; split; [done|set_solver].
        -- intros (set & [= <-] & Hin).
           destruct (rooms h !! room) as [set0|] eqn:Hroom; simpl in Hin.
           ++ exists set0. split; [done|set_solver].
           ++ set_solver.
      * by rewrite lookup_insert_ne by done.
  - intros r set.
    destruct (decide (r = room)) as [->|Hr].
    + rewrite lookup_insert_eq. intros [= <-]. set_solver.
    + rewrite lookup_insert_ne by done. apply Hne.
Qed.

Lemma consistent_closed h s :
  consistent h → consistent (afterConnectionClosed h s).
Proof.
  intros [Hagree Hne]. unfold afterConnectionClosed.
  destruct (sessionRoom h !! s) as [room|] eqn:Hb; [|done].
  pose proof (proj1 (Hagree s room) Hb) as (set & Hset & Hin).
  rewrite Hset. case_bool_decide as Hempty; split; simpl.
  - intros s' r. destruct (decide (s' = s)) as [->|Hs].
    + rewrite lookup_delete_eq. split; [done|].
      intros (set' & Hset' & Hin').
      destruct (decide (r = room)) as [->|Hr].
      * by rewrite lookup_delete_eq in Hset'.
      * rewrite lookup_delete_ne in Hset' by done.
        assert (sessionRoom h !! s = Some r) by (apply Hagree; eauto).
        congruence.
    + rewrite lookup_delete_ne by done. rewrite Hagree.
      destruct (decide (r = room)) as [->|Hr].
      * rewrite lookup_delete_eq. split; [|by intros (? & ? & _)].
        intros (set' & Hset' & Hin'). set_solver.
      * by rewrite lookup_delete_ne by done.
  - intros r set'. destruct (decide (r = room)) as [->|Hr].
    + by rewrite lookup_delete_eq.
    + rewrite lookup_delete_ne by done. apply Hne.
  - intros s' r. destruct (decide (s' = s)) as [->|Hs].
    + rewrite lookup_delete_eq. split; [done|].
      intros (set' & Hset' & Hin').
      destruct (decide (r = room)) as [->|Hr].
      * rewrite lookup_insert_eq in Hset'. set_solver.
      * rewrite lookup_insert_ne in Hset' by done.
        assert (sessionRoom h !! s = Some r) by (apply Hagree; eauto).
        congruence.
    + rewrite lookup_delete_ne by done. rewrite Hagree.
      destruct (decide (r = room)) as [->|Hr].
      * rewrite lookup_insert_eq. split.
        -- intros (set' & Hset' & Hin'). eexists; split; [done|set_solver].
        -- intros (set' & [= <-] & Hin'). exists set. set_solver.
      * by rewrite lookup_insert_ne by done.
  - intros r set'. destruct (decide (r = room)) as [->|Hr].
    + rewrite lookup_insert_eq. by intros [= <-].
    + rewrite lookup_insert_ne by done. apply Hne.
Qed.

(** *** Closing *)

Lemma sessionRoom_closed h s :
  sessionRoom (afterConnectionClosed h s) = delete s (sessionRoom h).
Proof.
  unfold afterConnectionClosed.
  destruct (sessionRoom h !! s) as [room|] eqn:Hb.
  - destruct (rooms h !! room); [case_bool_decide|]; done.
  - symmetry. by apply delete_id.
Qed.

Lemma sessionRoom_closed_all h (closing : list Session) s :
  sessionRoom (foldl afterConnectionClosed h closing) !! s
  = if decide (s ∈ closing) then None else sessionRoom h !! s.
Proof.
  revert h. induction closing as [|x rest IH]; intros h; cbn [foldl].
  - by rewrite decide_False by set_solver.
  - rewrite IH, sessionRoom_closed.
    destruct (decide (s ∈ rest)) as [Hin|Hnotin].
    + by rewrite decide_True by set_solver.
    + destruct (decide (s = x)) as [->|Hne].
      * rewrite lookup_delete_eq. by rewrite decide_True by set_solver.
      * rewrite lookup_delete_ne by done. by rewrite decide_False by set_solver.
Qed.

Lemma consistent_closed_all h (closing : list Session) :
  consistent h → consistent (foldl afterConnectionClosed h closing).
Proof.
  revert h. induction closing as [|x rest IH]; intros h Hc; simpl; [done|].
  by apply IH, consistent_closed.
Qed.

Lemma consistent_member h s r :
  consistent h → (s ∈ members h r ↔ sessionRoom h !! s = Some r).
Proof.
  intros [Hagree _]. rewrite Hagree. unfold members. split.
  - destruct (rooms h !! r) as [set|]; simpl; [eauto | set_solver].
  - intros (set & -> & Hin). done.
Qed.

Lemma consistent_unbound_room h r :
  consistent h → (∀ s, sessionRoom h !! s ≠ Some r) → rooms h !! r = None.
Proof.
  intros [Hagree Hne] Hnone.
  destruct (rooms h !! r) as [set|] eqn:Hset; [|done].
  destruct (set_choose_L set) as [s Hin]; [by eapply Hne|].
  exfalso. apply (Hnone s), Hagree. eauto.
Qed.

Section WithSessions.
Variable isOpen : Session → bool.
Variable sendThrows : Session → bool.

Local Abbreviation fan_out := (Relay.fan_out isOpen sendThrows).
Local Abbreviation broadcast := (Relay.broadcast isOpen sendThrows).
Local Abbreviation handleTextMessage := (Relay.handleTextMessage isOpen sendThrows).
Local Abbreviation run := (Relay.run isOpen sendThrows).
Local Abbreviation step := (Relay.step isOpen sendThrows).

(** *** The fan-out loop *)

Lemma elem_of_fan_out targets payload s p :
  (s, p) ∈ fan_out targets payload ↔
  p = payload ∧ s ∈ targets ∧ isOpen s = true ∧ sendThrows s = false.
Proof.
  induction targets as [|t rest IH]; simpl.
  - split; [intros Hin; inversion Hin | intros (_ & Hin & _); inversion Hin].
  - destruct (isOpen t) eqn:Ho; [destruct (sendThrows t) eqn:Ht|]; simpl;
      rewrite ?elem_of_cons, IH.
    + split.
      * intros (-> & Hin & ? & ?); eauto.
      * intros (-> & [-> | Hin] & ? & ?); [congruence | eauto].
    + split.
      * intros [[= -> ->] | (-> & Hin & ? & ?)]; eauto 6.
      * intros (-> & [-> | Hin] & ? & ?); eauto 6.
    + split.
      * intros (-> & Hin & ? & ?); eauto.
      * intros (-> & [-> | Hin] & ? & ?); [congruence | eauto].
Qed.

Lemma NoDup_fan_out targets payload :
  NoDup targets → NoDup (fan_out targets payload).
Proof.
  induction 1 as [|t rest Hnotin Hnd IH]; simpl; [constructor|].
  destruct (isOpen t); [destruct (sendThrows t); simpl|]; try done.
  constructor; [|done].
  intros (_ & Hin & _)%elem_of_fan_out. done.
Qed.

Lemma elem_of_broadcast h room payload s p :
  (s, p) ∈ broadcast h room payload ↔
  p = payload ∧ s ∈ members h room ∧ isOpen s = true ∧ sendThrows s = false.
Proof.
  unfold broadcast, members. rewrite elem_of_fan_out, elem_of_elements. done.
Qed.

Lemma NoDup_broadcast h room payload : NoDup (broadcast h room payload).
Proof. apply NoDup_fan_out, NoDup_elements. Qed.

Lemma handleTextMessage_parsed h s m root :
  readTree m = Some root →
  handleTextMessage h s m
  = {| after := register h s (roomOf root);
       delivered := broadcast (register h s (roomOf root)) (roomOf root)
                      (getPayload m);
       threw := false |}.
Proof. intros Hr. unfold handleTextMessage. by rewrite Hr. Qed.

Lemma consistent_step h e : consistent h → consistent (step h e).
Proof.
  intros Hc. destruct e as [s m|s]; simpl.
  - unfold Relay.handleTextMessage. destruct (readTree m); simpl; [|done].
    by apply consistent_register.
  - by apply consistent_closed.
Qed.

Lemma consistent_run events : consistent (run events).
Proof.
  unfold run, Relay.run.
  assert (∀ h, consistent h → consistent (foldl step h events)) as Hfold.
  { induction events as [|e rest IH]; simpl; [done|].
    intros h Hc. by apply IH, consistent_step. }
  apply Hfold, consistent_empty.
Qed.


End WithSessions.

(** ** The claims *)

(** C1, as stated, fails: the first message of a session comes back to
    the session itself, which the handler has just put in the room. *)
Lemma sender_receives_own_message :
  ¬ excludes_sender (λ _, true) (λ _, false) empty_handler 1
      (in_room "demo" "hello").
Proof.
  intros Hclaim. apply (Hclaim 1 "hello"); [|done].
  vm_compute. apply list_elem_of_here.
Qed.

(** C1, amended: [handleTextMessage] sends the payload, unchanged and
    exactly once, to every open session registered in the room the
    message names whose send does not fail, the sender included when it is
    registered there (as it is on its first message); no other session
    receives anything. *)
Theorem broadcast_reaches_room (isOpen sendThrows : Session → bool)
    (h : Handler) (s : Session) (m : TextMessage) (root : JsonNode) :
  readTree m = Some root →
  let o := handleTextMessage isOpen sendThrows h s m in
  NoDup (delivered o)
  ∧ (∀ s' p, (s', p) ∈ delivered o ↔
             p = getPayload m ∧ s' ∈ members (after o) (roomOf root)
             ∧ isOpen s' = true ∧ sendThrows s' = false)
  ∧ (sessionRoom h !! s = None → s ∈ members (after o) (roomOf root)).
Proof.
  intros Hr o. unfold o. rewrite (handleTextMessage_parsed _ _ _ _ _ _ Hr). simpl.
  split; [apply NoDup_broadcast|].
  split; [intros s' p; apply elem_of_broadcast|].
  apply register_member.
Qed.

(** C1, amended, at work on the first message of session 1. *)
Lemma broadcast_reaches_room_witness :
  let o := handleTextMessage (λ _, true) (λ _, false) empty_handler 1
             (in_room "demo" "hello") in
  (1, "hello") ∈ delivered o ∧ NoDup (delivered o).
Proof.
  pose proof (broadcast_reaches_room (λ _, true) (λ _, false) empty_handler 1
                (in_room "demo" "hello") _ eq_refl) as (Hnd & Hin & Hself).
  split; [|exact Hnd].
  apply Hin. split; [reflexivity|]. split; [|done].
  apply Hself. reflexivity.
Defined.

(** C2, as stated, fails: a later message of session 1 that names room
    "b" goes to session 2 and not to session 3. *)
Lemma later_room_field_is_followed :
  ¬ routed_to_bound_room (λ _, true) (λ _, false) two_rooms 1
      (in_room "b" "moved").
Proof.
  intros Hclaim.
  assert (3 ∈ members two_rooms "a") as Hin by (vm_compute; set_solver).
  apply (Hclaim "a" eq_refl 3 ltac:(done)) in Hin.
  apply elem_of_broadcast in Hin as (_ & Hin & _).
  vm_compute in Hin. set_solver.
Qed.

(** C2, amended: the room of a session is bound once, by its first
    message; a later message of the session changes neither the binding
    nor any room's set, whatever room it names, and it is broadcast to the
    sessions registered in the room that the message itself names. *)
Theorem room_bound_once (isOpen sendThrows : Session → bool)
    (h : Handler) (s : Session) (m : TextMessage) (root : JsonNode) :
  readTree m = Some root →
  let o := handleTextMessage isOpen sendThrows h s m in
  sessionRoom (after o) !! s = Some (default (roomOf root) (sessionRoom h !! s))
  ∧ (∀ r0, sessionRoom h !! s = Some r0 → after o = h)
  ∧ (∀ s' p, (s', p) ∈ delivered o ↔
             p = getPayload m ∧ s' ∈ members (after o) (roomOf root)
             ∧ isOpen s' = true ∧ sendThrows s' = false).
Proof.
  intros Hr o. unfold o. rewrite (handleTextMessage_parsed _ _ _ _ _ _ Hr). simpl.
  split; [apply register_binding|].
  split; [intros r0; apply register_bound|].
  intros s' p. apply elem_of_broadcast.
Qed.

(** C2, amended, at work: session 1, bound to "a", names room "b". *)
Lemma room_bound_once_witness :
  let o := handleTextMessage (λ _, true) (λ _, false) two_rooms 1
             (in_room "b" "moved") in
  sessionRoom (after o) !! 1 = Some "a"
  ∧ after o = two_rooms
  ∧ ((2, "moved") ∈ delivered o ↔ 2 ∈ members two_rooms "b").
Proof.
  pose proof (room_bound_once (λ _, true) (λ _, false) two_rooms 1
                (in_room "b" "moved") _ eq_refl) as (Hbind & Hsame & Hin).
  split; [exact Hbind|]. split; [exact (Hsame "a" eq_refl)|].
  rewrite Hin, (Hsame "a" eq_refl). change (roomOf _) with "b". tauto.
Defined.

(** C9: from any run of the handler, closing a session takes it out of
    the session-to-room map and out of every room's set, no room is left
    with an empty set, and once every session of a room has been closed
    there is no entry for the room and no session bound to it. *)
Theorem closed_sessions_leave_no_room (isOpen sendThrows : Session → bool)
    (events : list Event) (s : Session) (r : string) :
  let h := run isOpen sendThrows events in
  let h' := afterConnectionClosed h s in
  let emptied := foldl afterConnectionClosed h (elements (members h r)) in
  (sessionRoom h' !! s = None
   ∧ (∀ r', s ∉ members h' r')
   ∧ (∀ r' set, rooms h' !! r' = Some set → set ≠ ∅))
  ∧ (rooms emptied !! r = None
     ∧ (∀ s', sessionRoom emptied !! s' ≠ Some r)).
Proof.
  intros h h' emptied.
  pose proof (consistent_run isOpen sendThrows events) as Hc. fold h in Hc.
  assert (sessionRoom h' !! s = None) as Hgone.
  { unfold h'. rewrite sessionRoom_closed. apply lookup_delete_eq. }
  pose proof (consistent_closed h s Hc) as Hc'. fold h' in Hc'.
  assert (∀ s', sessionRoom emptied !! s' ≠ Some r) as Hunbound.
  { intros s'. unfold emptied. rewrite sessionRoom_closed_all.
    case_decide as Hin; [done|].
    intros Hb. apply Hin, elem_of_elements. by apply consistent_member. }
  repeat split.
  - exact Hgone.
  - intros r' Hin. apply (consistent_member _ _ _ Hc') in Hin. congruence.
  - apply Hc'.
  - apply consistent_unbound_room; [|done].
    by apply consistent_closed_all.
  - exact Hunbound.
Qed.

End RelayFacts.

(* ===================================================================== *)
(** * Part V.  Theorems about the client                                  *)
(* ===================================================================== *)

Module ClientFacts.
Import JS Client.
Local Open Scope script_scope.

(** ** Values *)

Lemma strict_eq_string_object v s :
  strict_eq v (VStr s) = true → v = VStr s.
Proof.
  destruct v; simpl; try discriminate.
  intros Heq. apply String.eqb_eq in Heq. by subst.
Qed.

Lemma truthy_not_nullish v : truthy v = true → nullish v = false.
Proof. by destruct v. Qed.

Lemma prop_truthy_not_nullish v k : truthy (prop v k) = true → nullish v = false.
Proof. by destruct v. Qed.

Lemma own_set_field fs k x k' :
  own (set_field fs k x) k' = if String.eqb k k' then x else own fs k'.
Proof.
  induction fs as [|[k0 v0] rest IH]; simpl.
  - by destruct (String.eqb k k').
  - destruct (String.eqb k0 k) eqn:Hk0; simpl.
    + apply String.eqb_eq in Hk0 as ->. by destruct (String.eqb k k').
    + rewrite IH. destruct (String.eqb k0 k') eqn:Hk0'; [|done].
      apply String.eqb_eq in Hk0' as ->. by rewrite String.eqb_sym, Hk0.
Qed.

(** ** What a piece of script leaves alone *)

Lemma quiet_refl c : quiet c c.
Proof. by repeat split. Qed.

Lemma quiet_trans c1 c2 c3 : quiet c1 c2 → quiet c2 c3 → quiet c1 c3.
Proof. intros (? & ? & ?) (? & ? & ?). repeat split; congruence. Qed.

Lemma silent_ret {A} (a : A) : silent (ret a).
Proof. intros c. apply quiet_refl. Qed.

Lemma silent_throw {A} e : silent (@throw A e).
Proof. intros c. apply quiet_refl. Qed.

Lemma silent_gets {A} (f : State → A) : silent (gets f).
Proof. intros c. apply quiet_refl. Qed.

Lemma silent_bind {A B} (m : M A) (k : A → M B) :
  silent m → (∀ a, silent (k a)) → silent (bind m k).
Proof.
  intros Hm Hk c. unfold bind. specialize (Hm c).
  destruct (m c) as [[a|e] c1]; simpl in *; [|done].
  eapply quiet_trans; [done|]. apply Hk.
Qed.

Lemma silent_try_finally {A} (body : M A) (fin : M unit) :
  silent body → silent fin → silent (try_finally body fin).
Proof.
  intros Hb Hf c. unfold try_finally. specialize (Hb c).
  destruct (body c) as [r c1]; simpl in *. specialize (Hf c1).
  destruct (fin c1) as [[[]|e] c2]; simpl in *; by eapply quiet_trans.
Qed.

Lemma silent_for_each {A} (xs : list A) (body : A → M unit) :
  (∀ x, silent (body x)) → silent (for_each xs body).
Proof.
  intros Hbody. induction xs as [|x rest IH]; simpl.
  - apply silent_ret.
  - apply silent_bind; [apply Hbody | intros _; apply IH].
Qed.

Lemma silent_modify (f : State → State) :
  (∀ c, quiet c (f c)) → silent (modify f).
Proof. intros Hf c. apply Hf. Qed.

Section Script.
Context {Lf : Leaflet} {Br : Browser}.

(** Splits a script into its statements; what is left are the
    statements that change the state. *)
Ltac silence :=
  repeat match goal with
    | |- silent (ret _) => apply silent_ret
    | |- silent (throw _) => apply silent_throw
    | |- silent (gets _) => apply silent_gets
    | |- silent (bind _ _) => apply silent_bind; [|intros ?]
    | |- silent (try_finally _ _) => apply silent_try_finally
    | |- silent (for_each _ _) => apply silent_for_each; intros ?
    | |- silent (modify _) => apply silent_modify; intros ?; by repeat split
    | |- silent ((λ _, _) _) => cbv beta
    | |- silent (if ?b then _ else _) => destruct b
    | |- silent (match ?x with _ => _ end) => destruct x
    end.

Lemma silent_the_layer r : silent (the_layer r).
Proof. intros c. unfold the_layer. destruct (drawn c !! r); apply quiet_refl. Qed.

Lemma silent_on_layer r f : silent (on_layer r f).
Proof. unfold on_layer. silence. Qed.

Lemma silent_uuidv4 : silent uuidv4.
Proof. intros c. by repeat split. Qed.

Lemma silent_attachCommon l : silent (attachCommon l).
Proof. intros c. by repeat split. Qed.

Lemma silent_ensureLayerId r : silent (ensureLayerId r).
Proof.
  unfold ensureLayerId.
  silence; auto using silent_the_layer, silent_uuidv4, silent_on_layer.
Qed.

Lemma silent_bindTooltip_open r content : silent (bindTooltip_open r content).
Proof. unfold bindTooltip_open. silence; apply silent_on_layer. Qed.

Lemma silent_onEachFeature feature layer : silent (onEachFeature feature layer).
Proof.
  unfold onEachFeature.
  silence; auto using silent_the_layer, silent_on_layer, silent_attachCommon,
    silent_ensureLayerId, silent_bindTooltip_open.
Qed.

Lemma silent_L_geoJSON geojson : silent (L_geoJSON geojson).
Proof. unfold L_geoJSON. silence; apply silent_onEachFeature. Qed.

Lemma silent_findLayerById i : silent (findLayerById i).
Proof. unfold findLayerById. silence. Qed.

Lemma silent_editFeatureFromRemote feat : silent (editFeatureFromRemote feat).
Proof.
  unfold editFeatureFromRemote, addFeatureFromRemote, getp.
  silence; auto using silent_L_geoJSON, silent_findLayerById, silent_the_layer,
    silent_on_layer, silent_bindTooltip_open.
Qed.

Lemma silent_removeFeatureById i : silent (removeFeatureById i).
Proof. unfold removeFeatureById. silence. apply silent_findLayerById. Qed.

Lemma silent_applying_remote apply : silent apply → silent (applying_remote apply).
Proof. intros Ha. unfold applying_remote. silence. done. Qed.

Lemma silent_participants_set k p : silent (participants_set k p).
Proof.
  intros c. unfold participants_set.
  destruct (key_index (participants c) k); by repeat split.
Qed.

Lemma silent_renderPresence : silent renderPresence.
Proof. unfold renderPresence. silence. apply silent_participants_set. Qed.

Lemma silent_handle msg : silent (handle msg).
Proof.
  unfold handle, getp, participants_get, on_participant, addFeatureFromRemote.
  silence;
    auto using silent_participants_set, silent_renderPresence,
      silent_applying_remote, silent_L_geoJSON, silent_editFeatureFromRemote,
      silent_removeFeatureById.
Qed.


(** ** The transport filter and the handler's guard *)

(** C3, amended: a message whose room field is truthy and is not the
    room of the client, or whose [user.id] is the client's own
    identifier, is dropped by [ws.onmessage]: [handle] is not called and
    the state stays as it is.  Every other message that is not [null] is
    handed to [handle]. *)
Theorem transport_filter (msg : value) (c : State) :
  (truthy (prop msg "room") && other_room msg c = true
   ∨ own_echo msg c = true →
   onmessage (Json msg) c = (Ok tt, c))
  ∧ (nullish msg = false →
     truthy (prop msg "room") && other_room msg c = false →
     own_echo msg c = false →
     onmessage (Json msg) c = handle msg c).
Proof.
  unfold onmessage, other_room, own_echo, getp. simpl. split.
  - intros [Hroom | Hecho].
    + apply andb_true_iff in Hroom as [Htruthy Hother].
      rewrite (prop_truthy_not_nullish _ _ Htruthy).
      unfold bind, gets, ret; simpl. by rewrite Htruthy, Hother.
    + pose proof (strict_eq_string_object _ _ Hecho) as Hid.
      assert (truthy (prop msg "user") = true) as Huser
        by (by destruct (prop msg "user")).
      rewrite (prop_truthy_not_nullish _ _ Huser).
      unfold bind, gets, ret; simpl. rewrite Huser, Hecho. simpl.
      by destruct (truthy (prop msg "room") && _).
  - intros Hmsg Hroom Hecho. rewrite Hmsg.
    unfold bind, gets, ret; simpl.
    rewrite Hroom, Hecho. by rewrite andb_false_r.
Qed.

(** C10: a message without a [user], or whose [user] has no [id], leaves
    the whole state of the client as it is, whatever else the message
    carries; unless the message is [null], [handle] returns normally. *)
Theorem handle_needs_user_id (msg : value) (c : State) :
  truthy (prop msg "user") = false
  ∨ truthy (prop (prop msg "user") "id") = false →
  (handle msg c).2 = c
  ∧ (nullish msg = false → handle msg c = (Ok tt, c)).
Proof.
  intros Hlacks.
  assert (negb (truthy (prop msg "user"))
          || negb (truthy (prop (prop msg "user") "id")) = true) as Hguard.
  { destruct Hlacks as [-> | ->]; [done | apply orb_true_r]. }
  unfold handle, getp, bind.
  destruct (nullish msg); simpl; [by split|].
  rewrite Hguard. by split.
Qed.

(** ** The two flags *)

Lemma is_type_exclusive type s s' :
  is_type type s = true → s ≠ s' → is_type type s' = false.
Proof.
  unfold is_type. intros Hs%strict_eq_string_object Hne. subst. simpl.
  by apply String.eqb_neq.
Qed.

(** For a feature message, [handle] records the sender and then runs
    the operation between setting and clearing the flag. *)
Lemma handle_feature_message msg c :
  remote_feature_message msg = true →
  ∃ c1, quiet c c1 ∧ drawn c1 = drawn c ∧ uuids c1 = uuids c
        ∧ handle msg c = applying_remote (remote_operation msg) c1.
Proof.
  unfold remote_feature_message. intros Hmsg.
  apply andb_true_iff in Hmsg as [Hmsg Hop].
  apply andb_true_iff in Hmsg as [Hmsg Hid].
  apply andb_true_iff in Hmsg as [Hnull Huser].
  apply negb_true_iff in Hnull.
  unfold handle, getp. rewrite Hnull. unfold bind at 1. simpl.
  rewrite Huser, Hid. simpl.
  unfold participants_get. unfold bind at 1. simpl.
  unfold bind at 1.
  match goal with |- context [participants_set ?k ?p c] =>
    pose proof (silent_participants_set k p c) as Hq;
    assert (drawn (participants_set k p c).2 = drawn c
            ∧ uuids (participants_set k p c).2 = uuids c) as [Hd Hu]
      by (unfold participants_set; by destruct (key_index _ _));
    destruct (participants_set k p c) as [[at_|e] c1] eqn:Hset
  end; simpl in *.
  2:{ unfold participants_set in Hset. by destruct (key_index _ _). }
  exists c1. split; [done|]. split; [done|]. split; [done|].
  unfold remote_operation.
  apply orb_true_iff in Hop as [Hop | Hop];
    [apply orb_true_iff in Hop as [Hop | Hop]|];
    apply andb_true_iff in Hop as [Htype Hpayload].
  - rewrite (is_type_exclusive _ _ "presence" Htype),
      (is_type_exclusive _ _ "hello" Htype),
      (is_type_exclusive _ _ "cursor" Htype),
      (is_type_exclusive _ _ "view" Htype) by done.
    by rewrite Htype, Hpayload.
  - rewrite (is_type_exclusive _ _ "presence" Htype),
      (is_type_exclusive _ _ "hello" Htype),
      (is_type_exclusive _ _ "cursor" Htype),
      (is_type_exclusive _ _ "view" Htype),
      (is_type_exclusive _ _ "feature:add" Htype) by done.
    by rewrite Htype, Hpayload.
  - rewrite (is_type_exclusive _ _ "presence" Htype),
      (is_type_exclusive _ _ "hello" Htype),
      (is_type_exclusive _ _ "cursor" Htype),
      (is_type_exclusive _ _ "view" Htype),
      (is_type_exclusive _ _ "feature:add" Htype),
      (is_type_exclusive _ _ "feature:edit" Htype) by done.
    by rewrite Htype, Hpayload.
Qed.

Lemma applying_remote_releases apply c :
  isRemoteApplying (applying_remote apply c).2 = false.
Proof.
  unfold applying_remote, bind, modify, try_finally. simpl.
  by destruct (apply _) as [r c'].
Qed.

Lemma loadState_releases geojson c :
  isRestoring (loadState geojson c).2 = false.
Proof.
  unfold loadState, try_finally. unfold bind at 1. simpl.
  by destruct (bind _ _ _) as [r c'].
Qed.

(** C5: when [handle] has applied a remote feature operation the
    "applying remote" flag is off, and when [loadState] is over the "is
    restoring" flag is off, however the operation or the restore ended
    (normally or by an exception). *)
Theorem flags_are_released :
  (∀ msg c, remote_feature_message msg = true →
            isRemoteApplying (handle msg c).2 = false)
  ∧ (∀ geojson c, isRestoring (loadState geojson c).2 = false).
Proof.
  split.
  - intros msg c Hmsg.
    destruct (handle_feature_message msg c Hmsg) as (c1 & _ & _ & _ & ->).
    apply applying_remote_releases.
  - apply loadState_releases.
Qed.

(** ** Echo suppression *)

(** C4: handling a message, and so applying a remote [feature:add],
    [feature:edit] or [feature:remove], sends nothing and leaves the undo
    and redo stacks as they are; and while the "applying remote" flag is
    set, [sendAdd], [sendEdit] and [sendRemove] return at once. *)
Theorem remote_application_is_silent (msg : value) (c : State) :
  quiet c (handle msg c).2
  ∧ (silent (addFeatureFromRemote (prop msg "feature"))
     ∧ silent (editFeatureFromRemote (prop msg "feature"))
     ∧ silent (removeFeatureById (prop msg "id")))
  ∧ (∀ layer, sendAdd layer (set_isRemoteApplying true c)
              = (Ok tt, set_isRemoteApplying true c))
  ∧ (∀ layer, sendEdit layer (set_isRemoteApplying true c)
              = (Ok tt, set_isRemoteApplying true c))
  ∧ (∀ layer, sendRemove layer (set_isRemoteApplying true c)
              = (Ok tt, set_isRemoteApplying true c)).
Proof.
  split; [apply silent_handle|].
  split.
  { split; [apply silent_L_geoJSON|].
    split; [apply silent_editFeatureFromRemote | apply silent_removeFeatureById]. }
  by repeat split.
Qed.


(** ** The layer that was attached last *)

Lemma alter_last {A} (f : A → A) (base : list A) (x : A) :
  alter f (length base) (base ++ [x]) = base ++ [f x].
Proof. induction base as [|y base IH]; simpl; [done|]. f_equal. exact IH. Qed.

Lemma the_layer_last base l c :
  drawn c = base ++ [l] → the_layer (length base) c = (Ok l, c).
Proof.
  intros Hd. unfold the_layer. rewrite Hd.
  by rewrite list_lookup_middle.
Qed.

Lemma on_layer_last base l f c :
  drawn c = base ++ [l] →
  on_layer (length base) f c = (Ok tt, set_drawn (base ++ [f l]) c).
Proof.
  intros Hd. unfold on_layer, modify. cbv beta. by rewrite Hd, alter_last.
Qed.

Lemma bind_Ok {A B} (m : M A) (k : A → M B) c a c' :
  m c = (Ok a, c') → bind m k c = k a c'.
Proof. intros Hm. unfold bind. by rewrite Hm. Qed.

Lemma bind_assoc {A B C} (m : M A) (k0 : A → M B) (k : B → M C) c :
  bind (bind m k0) k c = bind m (λ a, bind (k0 a) k) c.
Proof. unfold bind. by destruct (m c) as [[a|e] c']. Qed.

Lemma opt_set_tooltip x l k : opt (set_tooltip x l) k = opt l k.
Proof. done. Qed.

Lemma ensureLayerId_last base l c :
  drawn c = base ++ [l] →
  ∃ l' u, ensureLayerId (length base) c
          = (Ok tt, set_uuids u (set_drawn (base ++ [l']) c))
          ∧ shape l' = shape l ∧ truthy (opt l' "_id") = true.
Proof.
  intros Hd. unfold ensureLayerId.
  rewrite (bind_Ok _ _ _ _ _ (the_layer_last _ _ _ Hd)).
  destruct (truthy (opt l "_id")) eqn:Hid.
  - exists l, (uuids c). split; [|done].
    unfold ret. f_equal. destruct c; simpl in *. by subst.
  - unfold bind, uuidv4.
    erewrite on_layer_last by (simpl; exact Hd).
    eexists _, _. split; [reflexivity|]. split; [done|].
    unfold opt, set_opt. simpl. by rewrite own_set_field.
Qed.


Lemma opt_set_opt k x l k' :
  opt (set_opt k x l) k' = if String.eqb k k' then x else opt l k'.
Proof. unfold opt, set_opt. simpl. apply own_set_field. Qed.

Lemma opt_setStyle_id p cls l : opt (setStyle (style_from p cls) l) "_id" = opt l "_id".
Proof.
  unfold opt, setStyle, style_from, object_assign.
  destruct (instanceof_Polygon cls); simpl; by rewrite !own_set_field.
Qed.

(** What [onEachFeature] does: one more layer at the end of [drawn],
    of the class Leaflet chose, with an identifier, the one of the
    feature when it has one; nothing is thrown unless the label cannot
    be opened. *)
Lemma onEachFeature_attaches feature layer c :
  let p := or_else (prop feature "properties") (VObj []) in
  ∃ l' u r,
    onEachFeature feature layer c
    = (r, set_uuids u (set_drawn (drawn c ++ [l']) c))
    ∧ shape l' = shape layer
    ∧ truthy (opt l' "_id") = true
    ∧ (truthy (prop p "_id") = true → opt l' "_id" = prop p "_id")
    ∧ ((truthy (prop p "label") = true → opensTooltip (prop p "label") = true)
       → r = Ok tt).
Proof.
  intros p. unfold onEachFeature. fold p.
  unfold bind at 1. unfold attachCommon at 1.
  set (c0 := set_drawn (drawn c ++ [layer]) c).
  destruct (ensureLayerId_last (drawn c) layer c0 eq_refl)
    as (l1 & u1 & He1 & Hc1 & Hid1).
  rewrite (bind_Ok _ _ _ _ _ He1).
  set (c1 := set_uuids u1 _).
  destruct (ensureLayerId_last (drawn c) l1 c1 eq_refl)
    as (l2 & u2 & He2 & Hc2 & Hid2).
  rewrite (bind_Ok _ _ _ _ _ He2).
  set (c2 := set_uuids u2 _).
  rewrite (bind_Ok _ _ _ _ _ (the_layer_last (drawn c) l2 c2 eq_refl)).
  erewrite (bind_Ok _ _ _ _ _ (on_layer_last (drawn c) _ _ c2 eq_refl)).
  set (l3 := set_opt "_id" _ l2). set (c3 := set_drawn _ c2).
  erewrite (bind_Ok _ _ _ _ _ (on_layer_last (drawn c) _ _ c3 eq_refl)).
  set (l4 := set_opt "_meta" _ l3). set (c4 := set_drawn _ c3).
  assert (truthy (opt l4 "_id") = true
          ∧ (truthy (prop p "_id") = true → opt l4 "_id" = prop p "_id"))
    as [Htr4 Hid4].
  { unfold l4, l3. rewrite !opt_set_opt. simpl. unfold or_else.
    destruct (truthy (prop p "_id")) eqn:Hp; [done|]. by split. }
  assert (∃ l5 c5, (if instanceof_Polyline (lclass layer)
                    then on_layer (length (drawn c))
                           (setStyle (style_from p (lclass layer)))
                    else ret tt) c4 = (Ok tt, c5)
                   ∧ c5 = set_drawn (drawn c ++ [l5]) c4
                   ∧ shape l5 = shape layer
                   ∧ opt l5 "_id" = opt l4 "_id")
    as (l5 & c5 & Hs5 & Hc5 & Hcl5 & Hid5).
  { destruct (instanceof_Polyline (lclass layer)).
    - eexists _, _. split; [apply (on_layer_last (drawn c) l4); reflexivity|].
      split; [reflexivity|]. split; [unfold shape in *; simpl; congruence|].
      apply opt_setStyle_id.
    - exists l4, c4. split; [|split; [|split]]; try done.
      unfold shape in *; simpl; congruence. }
  rewrite (bind_Ok _ _ _ _ _ Hs5). subst c5.
  set (c5 := set_drawn _ c4).
  assert (∀ l6 c6 r0,
            c6 = set_drawn (drawn c ++ [l6]) c5 →
            shape l6 = shape layer → opt l6 "_id" = opt l4 "_id" →
            ∃ l' c' ,
              bind (ret r0) (λ _ : unit,
                if truthy (prop p "popup")
                then on_layer (length (drawn c)) (set_popup (Some (prop p "popup")))
                else ret tt) c6 = (Ok tt, c')
              ∧ c' = set_drawn (drawn c ++ [l']) c5
              ∧ shape l' = shape layer ∧ opt l' "_id" = opt l4 "_id")
    as Hpopup.
  { intros l6 c6 r0 -> Hcl6 Hid6. unfold bind at 1, ret at 1.
    destruct (truthy (prop p "popup")).
    - eexists _, _. split; [apply (on_layer_last (drawn c) l6); reflexivity|].
      by repeat split.
    - exists l6, (set_drawn (drawn c ++ [l6]) c5). by repeat split. }
  destruct (truthy (prop p "label")) eqn:Hlabel.
  - unfold bindTooltip_open. rewrite bind_assoc.
    erewrite (bind_Ok _ _ _ _ _ (on_layer_last (drawn c) _ _ c5 eq_refl)).
    destruct (opensTooltip (prop p "label")) eqn:Hopens.
    + edestruct (Hpopup (set_tooltip (Some (prop p "label")) l5) _ tt eq_refl)
        as (l' & c' & Hrun & -> & Hcl' & Hid');
        [| |exists l', u2, (Ok tt); split; [exact Hrun|]].
      * unfold shape in *; simpl; congruence.
      * by rewrite opt_set_tooltip.
      * split; [done|]. rewrite Hid'. by repeat split.
    + eexists _, u2, _. split; [reflexivity|].
      split; [unfold shape in *; simpl; congruence|]. rewrite opt_set_tooltip, Hid5.
      split; [done|]. split; [done|]. intros Hopen.
      specialize (Hopen eq_refl). congruence.
  - edestruct (Hpopup l5 c5 tt eq_refl) as (l' & c' & Hrun & -> & Hcl' & Hid');
      [done|done|exists l', u2, (Ok tt); split; [exact Hrun|]].
    split; [done|]. rewrite Hid'. by repeat split.
Qed.


Lemma shape_pointToLayer feature m : shape (pointToLayer feature m) = shape m.
Proof. unfold pointToLayer. by destruct (_ && _). Qed.




(** ** Remote edits and removals of an unknown identifier *)

Lemma find_last_app ls l i at_ found :
  find_last (ls ++ [l]) i at_ found
  = if strict_eq (opt l "_id") i then Some (at_ + length ls)
    else find_last ls i at_ found.
Proof.
  revert at_ found. induction ls as [|l0 ls IH]; intros at_ found; simpl.
  - by rewrite Nat.add_0_r.
  - rewrite IH. by rewrite Nat.add_succ_r.
Qed.

Lemma L_geoJSON_one geojson feature layer c :
  geoJSON_layers geojson = ([(feature, layer)], None) →
  L_geoJSON geojson c
  = bind (onEachFeature feature
            (if instanceof_Marker (lclass layer) then pointToLayer feature layer
             else layer))
         (λ _, ret tt) c.
Proof.
  intros Hbuilt. unfold L_geoJSON. rewrite Hbuilt. simpl.
  unfold bind. by destruct (onEachFeature _ _ c) as [[[]|e] c'].
Qed.



(** ** History *)

Lemma snapshot_commits c :
  isRestoring c = false →
  snapshot c
  = (Ok tt,
     set_redoStack []
       (set_undoStack (pushed (undoStack c) (Json (captured (drawn c))))
          (set_drawn (map snd (map collect_layer (drawn c))) c))).
Proof.
  intros Hr. unfold snapshot, pushed, captured, JSON_stringify.
  unfold bind at 1, gets at 1. rewrite Hr.
  unfold try_catch, bind, collectGeoJSON, modify, gets, updateUndoRedoUI, ret.
  cbn [undoStack set_undoStack set_drawn].
  by case_decide.
Qed.


Lemma silent_loadState geojson : silent (loadState geojson).
Proof.
  unfold loadState, restoreFromGeoJSON, updateUndoRedoUI.
  silence. apply silent_L_geoJSON.
Qed.




(** C8, amended: when restoring a snapshot fails, the exception leaves
    [loadState] (its caller is [undo] or [redo]) once the "is restoring"
    flag is cleared; the store is not put back: it holds the layers that
    were rebuilt before the failure, exactly as if the restore had
    started from an empty store; nothing is sent and the history stacks
    stay as they are. *)
Theorem failed_restore_is_not_rolled_back (geojson : value) (c : State) (e : exn) :
  (restoreFromGeoJSON geojson (set_drawn [] (set_isRestoring true c))).1 = Throw e →
  let after := (loadState geojson c).2 in
  (loadState geojson c).1 = Throw e
  ∧ isRestoring after = false
  ∧ drawn after
    = drawn (restoreFromGeoJSON geojson (set_drawn [] (set_isRestoring true c))).2
  ∧ loadState geojson c = loadState geojson (set_drawn [] c)
  ∧ quiet c after.
Proof.
  intros Hfails after.
  split; [|split; [apply loadState_releases|]].
  - unfold loadState, try_finally, updateUndoRedoUI.
    unfold bind at 1, modify at 1. unfold bind at 1, modify at 1.
    destruct (restoreFromGeoJSON _ _) as [r c']. simpl in *. by subst.
  - split; [|split; [done | apply silent_loadState]].
    unfold after, loadState, try_finally, updateUndoRedoUI.
    unfold bind at 1, modify at 1. unfold bind at 1, modify at 1.
    by destruct (restoreFromGeoJSON _ _) as [r c'].
Qed.

End Script.

(** ** The claims on examples, with the small Leaflet *)

Section Examples.
Import Simple.
#[local] Existing Instance leaflet.
#[local] Existing Instance browser.

(** C3, as stated, fails: a message from a peer whose room field is
    the empty string is not the room "demo" of the client, and yet it is
    handled: the peer enters the participants. *)
Lemma empty_room_field_is_handled :
  ¬ filtered_as_claimed (message "hello" "" []) client.
Proof.
  unfold filtered_as_claimed. intros Hclaim.
  specialize (Hclaim (or_introl eq_refl)). vm_compute in Hclaim. discriminate.
Qed.

(** C10 at work: a [feature:add] with a feature and no [user]. *)
Lemma handle_needs_user_id_witness :
  let msg := VObj [("type", VStr "feature:add"); ("room", VStr "demo");
                   ("feature", polyline_feature "a")] in
  handle msg client = (Ok tt, client).
Proof.
  intros msg.
  exact (proj2 (handle_needs_user_id msg client (or_introl eq_refl)) eq_refl).
Defined.



(** The snapshot holds what [collectGeoJSON] collects.  The identifier of
    a layer that was drawn locally is in the layer's options only, not in
    the collected properties: rebuilt by [undo], the layer has a new
    one. *)
Example undo_of_local_layer :
  let c := set_drawn [local_line] client in
  let c3 := (snapshot (set_drawn [] (snapshot c).2)).2 in
  (λ l, (lclass l, latlngs l, opt l "_id")) <$> drawn (undo c3).2
  = [(lclass local_line, latlngs local_line, VStr "f_uuid-0")].
Proof. vm_compute. reflexivity. Qed.

(** An operation that throws: the feature of the message has no valid
    geometry, [handle] ends with Leaflet's exception and the flag is off. *)
Example flag_released_after_throw :
  let msg := message "feature:edit" "demo" [("feature", broken_feature "z")] in
  (handle msg (set_isRemoteApplying true client)).1
  = Throw (Error "Invalid GeoJSON object.")
  ∧ isRemoteApplying (handle msg (set_isRemoteApplying true client)).2 = false.
Proof. vm_compute. by split. Qed.

(** A message for another room, and the client's own message coming
    back, are dropped. *)
Example other_room_and_echo_are_dropped :
  onmessage (Json (message "feature:add" "elsewhere"
                     [("feature", polyline_feature "a")])) client
  = (Ok tt, client)
  ∧ onmessage (Json (VObj [("type", VStr "hello"); ("room", VStr "demo");
                           ("user", VObj [("id", VStr "me")])])) client
    = (Ok tt, client).
Proof. by vm_compute. Qed.

(** C8, as stated, fails: restoring the corrupt snapshot throws out of
    [loadState], and the store, which held the line "a", then holds the
    line "b" of the snapshot. *)
Lemma failed_restore_loses_store :
  ¬ failure_contained corrupt_snapshot one_feature.
Proof.
  intros Hclaim. destruct Hclaim as [Hstore Hreturns].
  - vm_compute. discriminate.
  - vm_compute in Hreturns. discriminate.
Qed.

(** The same run, in full: what is thrown, and the identifiers in the
    store before and after. *)
Example failed_restore_run :
  let before := one_feature in
  let result := loadState corrupt_snapshot before in
  result.1 = Throw (Error "Invalid GeoJSON object.")
  ∧ drawn result.2 ≠ drawn before
  ∧ ((λ l, opt l "_id") <$> drawn before) = [VStr "a"]
  ∧ ((λ l, opt l "_id") <$> drawn result.2) = [VStr "b"].
Proof.
  vm_compute. repeat split; try reflexivity. discriminate.
Qed.

(** C8, amended, at work on the same run. *)
Lemma failed_restore_is_not_rolled_back_witness :
  let result := loadState corrupt_snapshot one_feature in
  result.1 = Throw (Error "Invalid GeoJSON object.")
  ∧ isRestoring result.2 = false
  ∧ result = loadState corrupt_snapshot (set_drawn [] one_feature).
Proof.
  intros result.
  destruct (failed_restore_is_not_rolled_back (Lf := leaflet) (Br := browser)
              corrupt_snapshot one_feature
              (Error "Invalid GeoJSON object.") ltac:(vm_compute; reflexivity))
    as (Hthrows & Hflag & _ & Hempty & _).
  by repeat split.
Defined.

End Examples.
End ClientFacts.

(* ===================================================================== *)
(** * Part VI.  Further theorems: the relay, the client, the pen, identifiers, the clock label *)
(* ===================================================================== *)

Module RelayMore.
Import Relay RelayFacts.

Lemma members_register h s room r s' :
  s' ∈ members (register h s room) r ↔
  s' ∈ members h r ∨ (s' = s ∧ r = room ∧ sessionRoom h !! s = None).
Proof.
  unfold register, members.
  destruct (sessionRoom h !! s) eqn:Hb; simpl.
  - split; [tauto | intros [?|(_ & _ & ?)]; done].
  - destruct (decide (r = room)) as [->|Hr].
    + rewrite lookup_insert_eq. simpl. set_solver.
    + rewrite lookup_insert_ne by done. set_solver.
Qed.

Lemma members_closed h s r s' :
  s' ≠ s →
  (s' ∈ members (afterConnectionClosed h s) r ↔ s' ∈ members h r).
Proof.
  intros Hne. unfold afterConnectionClosed, members.
  destruct (sessionRoom h !! s) as [room|] eqn:Hb; [|done].
  destruct (rooms h !! room) as [set|] eqn:Hset; [|done].
  case_bool_decide as Hempty; simpl.
  - destruct (decide (r = room)) as [->|Hr].
    + rewrite lookup_delete_eq, Hset. simpl. set_solver.
    + by rewrite lookup_delete_ne by done.
  - destruct (decide (r = room)) as [->|Hr].
    + rewrite lookup_insert_eq, Hset. simpl. set_solver.
    + by rewrite lookup_insert_ne by done.
Qed.

Lemma closed_unbound h s :
  sessionRoom h !! s = None → afterConnectionClosed h s = h.
Proof. intros Hb. unfold afterConnectionClosed. by rewrite Hb. Qed.

Lemma Handler_eq h1 h2 :
  rooms h1 = rooms h2 → sessionRoom h1 = sessionRoom h2 → h1 = h2.
Proof. destruct h1, h2; simpl; congruence. Qed.

(** X1 (room isolation): in any state the handler can reach, whatever
    [handleTextMessage] delivers is the payload of the message, and every
    session it is delivered to is bound to the room the message names; a
    session other than the sender was bound to that room before the
    message came. *)
Theorem rooms_are_isolated (isOpen sendThrows : Session → bool)
    (events : list Event) (s : Session) (m : TextMessage) (root : JsonNode)
    (s' : Session) (p : string) :
  readTree m = Some root →
  let o := handleTextMessage isOpen sendThrows (run isOpen sendThrows events) s m in
  (s', p) ∈ delivered o →
  p = getPayload m
  ∧ sessionRoom (after o) !! s' = Some (roomOf root)
  ∧ (s' ≠ s → sessionRoom (run isOpen sendThrows events) !! s' = Some (roomOf root)).
Proof.
  intros Hr o Hin.
  pose proof (consistent_run isOpen sendThrows events) as Hc.
  unfold o in *. rewrite (handleTextMessage_parsed _ _ _ _ _ _ Hr) in *.
  simpl in *. apply elem_of_broadcast in Hin as (-> & Hmem & _).
  split; [done|]. split.
  - apply consistent_member; [by apply consistent_register|done].
  - intros Hne. apply members_register in Hmem as [Hmem|(-> & _)]; [|done].
    by apply consistent_member.
Qed.

Lemma rooms_are_isolated_witness :
  let o := handleTextMessage (λ _, true) (λ _, false)
             (run (λ _, true) (λ _, false)
                [Text 1 (in_room "a" "one"); Text 2 (in_room "b" "two")])
             3 (in_room "a" "three") in
  (1, "three") ∈ delivered o ∧ sessionRoom (after o) !! 1 = Some "a".
Proof.
  assert ((1, "three") ∈ delivered
            (handleTextMessage (λ _, true) (λ _, false)
               (run (λ _, true) (λ _, false)
                  [Text 1 (in_room "a" "one"); Text 2 (in_room "b" "two")])
               3 (in_room "a" "three"))) as Hin.
  { apply elem_of_broadcast.
    split; [done|]. split; [vm_compute; set_solver|done]. }
  split; [exact Hin|].
  exact (proj1 (proj2 (rooms_are_isolated (λ _, true) (λ _, false)
     [Text 1 (in_room "a" "one"); Text 2 (in_room "b" "two")]
     3 (in_room "a" "three") _ 1 "three" eq_refl Hin))).
Defined.


(** X3 (join, then leave): when a session that is not bound sends its
    first message and is then closed, the two maps of the handler are what
    they were before the message. *)
Theorem join_then_close (isOpen sendThrows : Session → bool)
    (events : list Event) (s : Session) (m : TextMessage) (root : JsonNode) :
  readTree m = Some root →
  let h := run isOpen sendThrows events in
  sessionRoom h !! s = None →
  afterConnectionClosed (after (handleTextMessage isOpen sendThrows h s m)) s = h.
Proof.
  intros Hr h Hb.
  pose proof (consistent_run isOpen sendThrows events) as Hc. fold h in Hc.
  rewrite (handleTextMessage_parsed _ _ _ _ _ _ Hr). simpl.
  unfold register. rewrite Hb. unfold afterConnectionClosed. simpl.
  rewrite !lookup_insert_eq.
  assert (delete s (<[s:=roomOf root]> (sessionRoom h)) = sessionRoom h) as Hsr.
  { rewrite delete_insert_eq. by apply delete_id. }
  destruct (rooms h !! roomOf root) as [set|] eqn:Hset; simpl.
  - assert (s ∉ set) as Hnotin.
    { intros Hin. destruct Hc as [Hagree _].
      assert (sessionRoom h !! s = Some (roomOf root)) by (apply Hagree; eauto).
      congruence. }
    assert ((set ∪ {[s]}) ∖ {[s]} = set) as -> by set_solver.
    rewrite bool_decide_eq_false_2 by (by eapply Hc).
    apply Handler_eq; simpl; [|done].
    rewrite insert_insert_eq. by apply insert_id.
  - rewrite bool_decide_eq_true_2 by set_solver.
    apply Handler_eq; simpl; [|done].
    rewrite delete_insert_eq. by apply delete_id.
Qed.

Lemma join_then_close_witness :
  afterConnectionClosed
    (after (handleTextMessage (λ _, true) (λ _, false)
              (run (λ _, true) (λ _, false) [Text 1 (in_room "a" "one")])
              2 (in_room "a" "two"))) 2
  = run (λ _, true) (λ _, false) [Text 1 (in_room "a" "one")].
Proof.
  exact (join_then_close (λ _, true) (λ _, false) [Text 1 (in_room "a" "one")]
           2 (in_room "a" "two") _ eq_refl eq_refl).
Defined.

(** X4: a message of one session and the closing of one session leave
    the binding and the memberships of every other session as they are;
    closing a session a second time changes nothing. *)
Theorem others_are_undisturbed (isOpen sendThrows : Session → bool)
    (h : Handler) (s s' : Session) (m : TextMessage) (r : string) :
  s' ≠ s →
  let joined := after (handleTextMessage isOpen sendThrows h s m) in
  let left := afterConnectionClosed h s in
  (sessionRoom joined !! s' = sessionRoom h !! s'
   ∧ (s' ∈ members joined r ↔ s' ∈ members h r))
  ∧ (sessionRoom left !! s' = sessionRoom h !! s'
     ∧ (s' ∈ members left r ↔ s' ∈ members h r))
  ∧ afterConnectionClosed left s = left.
Proof.
  intros Hne joined left. split; [|split].
  - unfold joined, handleTextMessage. destruct (readTree m) as [root|]; simpl; [|done].
    split.
    + unfold register. destruct (sessionRoom h !! s); simpl; [done|].
      by rewrite lookup_insert_ne by done.
    + rewrite members_register. intuition congruence.
  - unfold left. rewrite sessionRoom_closed, lookup_delete_ne by done.
    split; [done|]. by apply members_closed.
  - apply closed_unbound. unfold left.
    rewrite sessionRoom_closed. apply lookup_delete_eq.
Qed.

Lemma others_are_undisturbed_witness :
  sessionRoom (afterConnectionClosed two_rooms 1) !! 3 = sessionRoom two_rooms !! 3.
Proof.
  exact (proj1 (proj1 (proj2 (others_are_undisturbed (λ _, true) (λ _, false)
     two_rooms 1 3 (in_room "a" "x") "a" ltac:(lia))))).
Defined.

(** X5 (best effort): whether a send to one session throws has no
    effect on what the others get: two runs of [handleTextMessage] that
    differ only in which sends throw deliver the same to every session on
    whose send they agree, leave the same maps and end the same way. *)
Theorem delivery_is_best_effort (isOpen throws1 throws2 : Session → bool)
    (h : Handler) (s : Session) (m : TextMessage) (s' : Session) (p : string) :
  throws1 s' = throws2 s' →
  let o1 := handleTextMessage isOpen throws1 h s m in
  let o2 := handleTextMessage isOpen throws2 h s m in
  after o1 = after o2 ∧ threw o1 = threw o2
  ∧ ((s', p) ∈ delivered o1 ↔ (s', p) ∈ delivered o2).
Proof.
  intros Hsame o1 o2. unfold o1, o2, handleTextMessage.
  destruct (readTree m) as [root|]; simpl; [|done].
  split; [done|]. split; [done|].
  rewrite !elem_of_broadcast, Hsame. done.
Qed.

Lemma delivery_is_best_effort_witness :
  (3, "x") ∈ delivered (handleTextMessage (λ _, true) (λ s, Nat.eqb s 1)
                          two_rooms 1 (in_room "a" "x")).
Proof.
  apply (delivery_is_best_effort (λ _, true) (λ _, false) (λ s, Nat.eqb s 1)
           two_rooms 1 (in_room "a" "x") 3 "x" eq_refl).
  apply elem_of_broadcast.
    split; [done|]. split; [vm_compute; set_solver|done].
Defined.

End RelayMore.

Module ClientMore.
Import JS Client Frames Transport Wire Store Remote ClientFacts.
Local Open Scope script_scope.

Lemma keeps_ret {A X} (f : State → X) (a : A) : keeps f (ret a).
Proof. by intros c. Qed.

Lemma keeps_throw {A X} (f : State → X) e : keeps f (@throw A e).
Proof. by intros c. Qed.

Lemma keeps_gets {A X} (f : State → X) (g : State → A) : keeps f (gets g).
Proof. by intros c. Qed.

Lemma keeps_bind {A B X} (f : State → X) (m : M A) (k : A → M B) :
  keeps f m → (∀ a, keeps f (k a)) → keeps f (bind m k).
Proof.
  intros Hm Hk c. unfold bind. specialize (Hm c).
  destruct (m c) as [[a|e] c1]; simpl in *; [|done].
  rewrite <- Hm. apply Hk.
Qed.

Lemma keeps_bind_ret {A B X} (f : State → X) (a : A) (k : A → M B) :
  keeps f (k a) → keeps f (bind (ret a) k).
Proof. intros Hk c. apply Hk. Qed.

Lemma keeps_try_finally {A X} (f : State → X) (body : M A) (fin : M unit) :
  keeps f body → keeps f fin → keeps f (try_finally body fin).
Proof.
  intros Hb Hf c. unfold try_finally. specialize (Hb c).
  destruct (body c) as [r c1]; simpl in *. specialize (Hf c1).
  destruct (fin c1) as [[[]|e] c2]; simpl in *; congruence.
Qed.

Lemma keeps_try_catch {A X} (f : State → X) (body : M A) (handler : exn → M A) :
  keeps f body → (∀ e, keeps f (handler e)) → keeps f (try_catch body handler).
Proof.
  intros Hb Hh c. unfold try_catch. specialize (Hb c).
  destruct (body c) as [[a|e] c1]; simpl in *; [done|].
  rewrite <- Hb. apply Hh.
Qed.

Lemma keeps_for_each {A X} (f : State → X) (xs : list A) (body : A → M unit) :
  (∀ x, keeps f (body x)) → keeps f (for_each xs body).
Proof.
  intros Hbody. induction xs as [|x rest IH]; simpl.
  - apply keeps_ret.
  - apply keeps_bind; [apply Hbody | intros _; apply IH].
Qed.

Lemma keeps_modify {X} (f : State → X) (g : State → State) :
  (∀ c, f (g c) = f c) → keeps f (modify g).
Proof. intros Hg c. apply Hg. Qed.

(** Splits a script into its statements. *)
Ltac keep :=
  repeat match goal with
    | |- keeps _ (ret _) => apply keeps_ret
    | |- keeps _ (throw _) => apply keeps_throw
    | |- keeps _ (gets _) => apply keeps_gets
    | |- keeps _ (bind _ _) => apply keeps_bind; [|intros ?]
    | |- keeps _ (try_finally _ _) => apply keeps_try_finally
    | |- keeps _ (try_catch _ _) => apply keeps_try_catch; [|intros ?]
    | |- keeps _ (for_each _ _) => apply keeps_for_each; intros ?
    | |- keeps _ (modify _) => apply keeps_modify; intros ?; reflexivity
    | |- keeps _ ((λ _, _) _) => cbv beta
    | |- keeps _ (if ?b then _ else _) => destruct b
    | |- keeps _ (match ?x with _ => _ end) => destruct x
    end.

Section Finding.
Context {Lf : Leaflet} {Br : Browser}.


(** *** What the feature operations leave alone: the participants *)

Lemma keeps_participants_the_layer r : keeps participants (the_layer r).
Proof. intros c. unfold the_layer. by destruct (drawn c !! r). Qed.

Lemma keeps_participants_on_layer r f : keeps participants (on_layer r f).
Proof. unfold on_layer. keep. Qed.

Lemma keeps_participants_ensureLayerId r : keeps participants (ensureLayerId r).
Proof.
  unfold ensureLayerId. keep; auto using keeps_participants_the_layer,
    keeps_participants_on_layer. by intros c.
Qed.

Lemma keeps_participants_bindTooltip_open r content :
  keeps participants (bindTooltip_open r content).
Proof. unfold bindTooltip_open. keep; apply keeps_participants_on_layer. Qed.

Lemma keeps_participants_onEachFeature feature layer :
  keeps participants (onEachFeature feature layer).
Proof.
  unfold onEachFeature.
  keep; auto using keeps_participants_the_layer, keeps_participants_on_layer,
    keeps_participants_ensureLayerId, keeps_participants_bindTooltip_open.
  by intros c.
Qed.

Lemma keeps_participants_L_geoJSON geojson : keeps participants (L_geoJSON geojson).
Proof. unfold L_geoJSON. keep; apply keeps_participants_onEachFeature. Qed.

Lemma keeps_participants_findLayerById i : keeps participants (findLayerById i).
Proof. unfold findLayerById. keep. Qed.

Lemma keeps_participants_editFeatureFromRemote feat :
  keeps participants (editFeatureFromRemote feat).
Proof.
  unfold editFeatureFromRemote, addFeatureFromRemote, getp.
  keep; auto using keeps_participants_L_geoJSON, keeps_participants_findLayerById,
    keeps_participants_the_layer, keeps_participants_on_layer,
    keeps_participants_bindTooltip_open.
Qed.

Lemma keeps_participants_removeFeatureById i :
  keeps participants (removeFeatureById i).
Proof. unfold removeFeatureById. keep. apply keeps_participants_findLayerById. Qed.

Lemma keeps_participants_remote_operation msg :
  keeps participants (applying_remote (remote_operation msg)).
Proof.
  unfold applying_remote, remote_operation, addFeatureFromRemote.
  keep; auto using keeps_participants_L_geoJSON,
    keeps_participants_editFeatureFromRemote, keeps_participants_removeFeatureById.
Qed.

(** *** [findLayerById] *)

Lemma find_last_found ls i :
  match find_last ls i 0 None with
  | Some r =>
      ∃ l, ls !! r = Some l ∧ strict_eq (opt l "_id") i = true
           ∧ ∀ r' l', r < r' → ls !! r' = Some l' →
                      strict_eq (opt l' "_id") i = false
  | None => Forall (λ l, strict_eq (opt l "_id") i = false) ls
  end.
Proof.
  induction ls as [|l ls IH] using rev_ind; [by constructor|].
  rewrite find_last_app. destruct (strict_eq (opt l "_id") i) eqn:Hl.
  - exists l. split; [by rewrite list_lookup_middle|]. split; [done|].
    intros r' l' Hlt Hr'. apply lookup_lt_Some in Hr'.
    rewrite length_app in Hr'. simpl in *. lia.
  - destruct (find_last ls i 0 None) as [r|].
    + destruct IH as (l0 & Hr & Hid & Hlater).
      exists l0. split; [by apply lookup_app_l_Some|]. split; [done|].
      intros r' l' Hlt Hr'.
      apply lookup_app_Some in Hr' as [Hr'|[Hlen Hr']]; [by eapply Hlater|].
      apply list_lookup_singleton_Some in Hr' as [_ <-]. done.
    + apply Forall_app. split; [done|]. by repeat constructor.
Qed.


(** X6: [findLayerById] changes nothing; the layer it returns is in the
    store, has the identifier asked for, and no layer after it has; it
    returns none exactly when no layer of the store has the identifier. *)
Theorem findLayerById_finds_last (i : value) (c : State) :
  ∃ found, findLayerById i c = (Ok found, c) ∧
    match found with
    | Some r =>
        ∃ l, drawn c !! r = Some l ∧ strict_eq (opt l "_id") i = true
             ∧ ∀ r' l', r < r' → drawn c !! r' = Some l' →
                        strict_eq (opt l' "_id") i = false
    | None => ∀ l, l ∈ drawn c → strict_eq (opt l "_id") i = false
    end.
Proof.
  exists (find_last (drawn c) i 0 None). split; [done|].
  pose proof (find_last_found (drawn c) i) as Hfound.
  destruct (find_last (drawn c) i 0 None); [done|].
  intros l Hin. by eapply Forall_forall in Hfound.
Qed.

End Finding.

(** *** The participants map *)

Lemma same_value_zero_string k s : same_value_zero k (VStr s) = true ↔ k = VStr s.
Proof.
  destruct k; simpl; try (split; [discriminate | intros [=]]).
  rewrite String.eqb_eq. split; [by intros -> | by intros [=]].
Qed.

Lemma string_same_value_zero k s : same_value_zero (VStr s) k = true ↔ k = VStr s.
Proof.
  destruct k; simpl; try (split; [discriminate | intros [=]]).
  rewrite String.eqb_eq. split; [by intros -> | by intros [=]].
Qed.

Lemma key_index_Some ps k i :
  key_index ps k = Some i →
  ∃ e, ps !! i = Some e ∧ same_value_zero e.1 k = true.
Proof.
  revert i. induction ps as [|[k' p] ps IH]; intros i; simpl; [done|].
  destruct (same_value_zero k' k) eqn:Hk.
  - intros [= <-]. by exists (k', p).
  - destruct (key_index ps k) as [j|]; simpl; [|done].
    intros [= <-]. by apply IH.
Qed.

Lemma key_index_alter (g : value * Participant → Participant) i ps k :
  key_index (alter (λ e, (e.1, g e)) i ps) k = key_index ps k.
Proof.
  revert i. induction ps as [|[k' p] ps IH]; intros i; [done|].
  destruct i as [|i]; simpl; [done|].
  specialize (IH i). unfold alter in IH. by rewrite IH.
Qed.

Lemma key_index_app ps k0 p k :
  key_index (ps ++ [(k0, p)]) k
  = match key_index ps k with
    | Some i => Some i
    | None => if same_value_zero k0 k then Some (length ps) else None
    end.
Proof.
  induction ps as [|[k' p'] ps IH]; simpl.
  - by destruct (same_value_zero k0 k).
  - destruct (same_value_zero k' k); [done|]. rewrite IH.
    destruct (key_index ps k); [done|]. by destruct (same_value_zero k0 k).
Qed.

(** Where [participants.set] leaves the entry of a string key. *)
Lemma participants_set_string s p c :
  ∃ at_ c1,
    participants_set (VStr s) p c = (Ok at_, c1)
    ∧ set_participants [] c1 = set_participants [] c
    ∧ key_index (participants c1) (VStr s) = Some at_
    ∧ participants c1 !! at_ = Some (VStr s, p).
Proof.
  unfold participants_set.
  destruct (key_index (participants c) (VStr s)) as [i|] eqn:Hi; simpl.
  - eexists i, _. split; [done|]. split; [done|]. simpl.
    rewrite (key_index_alter (λ _, p)). split; [done|].
    destruct (key_index_Some _ _ _ Hi) as ([k' p'] & Hl & Hk).
    apply same_value_zero_string in Hk. simpl in Hk. subst k'.
    rewrite list_lookup_alter_eq, Hl. done.
  - eexists (length (participants c)), _. split; [done|]. split; [done|]. simpl.
    rewrite key_index_app, Hi. simpl. rewrite String.eqb_refl.
    split; [done|]. by rewrite list_lookup_middle.
Qed.

(** X7 (set, then get): after [participants.set(id, p)] for a string
    [id], [participants.get(id)] is [p], the entries of all other keys are
    what they were, and the map has one entry more only if [id] was not a
    key already. *)
Theorem participants_set_then_get (s : string) (p : Participant) (k : value)
    (c : State) :
  let c' := (participants_set (VStr s) p c).2 in
  (participants_get (VStr s) c').1 = Ok (Some p)
  ∧ (k ≠ VStr s → (participants_get k c').1 = (participants_get k c).1)
  ∧ length (participants c')
    = match (participants_get (VStr s) c).1 with
      | Ok (Some _) => length (participants c)
      | _ => S (length (participants c))
      end.
Proof.
  intros c'. split; [|split].
  - destruct (participants_set_string s p c) as (at_ & c1 & Hset & _ & Hkey & Hl).
    unfold c'. rewrite Hset. unfold participants_get, gets. simpl.
    by rewrite Hkey; simpl; rewrite Hl.
  - intros Hk. unfold c', participants_get, participants_set, gets. simpl.
    destruct (key_index (participants c) (VStr s)) as [i|] eqn:Hi; simpl.
    + rewrite (key_index_alter (λ _, p)).
      destruct (key_index (participants c) k) as [j|] eqn:Hj; simpl; [|done].
      destruct (decide (j = i)) as [->|Hne].
      * destruct (key_index_Some _ _ _ Hi) as (e & He & Hs).
        destruct (key_index_Some _ _ _ Hj) as (e' & He' & Hk').
        apply same_value_zero_string in Hs.
        assert (e' = e) as -> by congruence. rewrite Hs in Hk'.
        by apply string_same_value_zero in Hk'.
      * by rewrite list_lookup_alter_ne.
    + rewrite key_index_app.
      destruct (key_index (participants c) k) as [j|] eqn:Hj.
      * destruct (key_index_Some _ _ _ Hj) as (e & He & _). simpl.
        by rewrite lookup_app_l by (by eapply lookup_lt_Some).
      * destruct (same_value_zero (VStr s) k) eqn:Hs; [|done].
        by apply string_same_value_zero in Hs.
  - unfold c', participants_get, participants_set, gets. simpl.
    destruct (key_index (participants c) (VStr s)) as [i|] eqn:Hi; simpl.
    + destruct (key_index_Some _ _ _ Hi) as (e & -> & _). simpl.
      by rewrite length_alter.
    + rewrite length_app. simpl. lia.
Qed.

Lemma participants_set_string_other s p c k :
  k ≠ VStr s →
  key_index (participants (participants_set (VStr s) p c).2) k
  = key_index (participants c) k
  ∧ ∀ j, key_index (participants c) k = Some j →
         participants (participants_set (VStr s) p c).2 !! j = participants c !! j.
Proof.
  intros Hk. unfold participants_set.
  destruct (key_index (participants c) (VStr s)) as [i|] eqn:Hi; simpl.
  - rewrite (key_index_alter (λ _, p)). split; [done|].
    intros j Hj. destruct (decide (i = j)) as [->|Hne]; [|by rewrite list_lookup_alter_ne].
    destruct (key_index_Some _ _ _ Hi) as (e & He & Hs).
    destruct (key_index_Some _ _ _ Hj) as (e' & He' & Hk').
    apply same_value_zero_string in Hs.
    assert (e' = e) as -> by congruence. rewrite Hs in Hk'.
    by apply string_same_value_zero in Hk'.
  - rewrite key_index_app. split.
    + destruct (key_index (participants c) k) as [j|] eqn:Hj; [done|].
      destruct (same_value_zero (VStr s) k) eqn:Hs; [|done].
      by apply string_same_value_zero in Hs.
    + intros j Hj. destruct (key_index_Some _ _ _ Hj) as (e & He & _).
      by rewrite lookup_app_l by (by eapply lookup_lt_Some).
Qed.

Section Handling.
Context {Lf : Leaflet} {Br : Browser}.


(** The entry of [s] sits at [at_] and carries this name and colour. *)
Local Abbreviation entered s at_ n col c :=
  (key_index (participants c) (VStr s) = Some at_
   ∧ ∃ p, participants c !! at_ = Some (VStr s, p)
          ∧ p_name p = n ∧ p_color p = col).

Lemma renderPresence_state c :
  (renderPresence c).2
  = (participants_set (VStr (id (my c)))
       {| p_name := VStr (name (my c)); p_color := VStr (color (my c));
          p_self := true; p_cursor := None; p_lastView := None |} c).2.
Proof.
  unfold renderPresence, bind, gets. cbv beta iota.
  destruct (participants_set _ _ c) as [[i|e] c1]; [|done]. simpl.
  by destruct (forallb _ _).
Qed.

Lemma entered_renderPresence s at_ n col c :
  s ≠ id (my c) → entered s at_ n col c →
  entered s at_ n col (renderPresence c).2.
Proof.
  intros Hne (Hkey & p & Hl & Hn & Hc).
  assert (VStr s ≠ VStr (id (my c))) as Hk by congruence.
  rewrite renderPresence_state.
  match goal with |- context [participants_set _ ?q] =>
    destruct (participants_set_string_other (id (my c)) q c (VStr s) Hk)
      as [Hkey' Hl']
  end.
  split; [congruence|]. exists p. by rewrite (Hl' _ Hkey).
Qed.

Lemma entered_on_participant s at_ n col f c :
  (∀ p, p_name (f p) = p_name p ∧ p_color (f p) = p_color p) →
  entered s at_ n col c →
  entered s at_ n col (on_participant at_ f c).2.
Proof.
  intros Hf (Hkey & p & Hl & Hn & Hc). unfold on_participant, modify. simpl.
  rewrite (key_index_alter (λ e, f e.2)). split; [done|].
  exists (f p). rewrite list_lookup_alter_eq, Hl. simpl.
  destruct (Hf p) as [-> ->]. done.
Qed.

Lemma handle_enters (msg : value) (s : string) (c : State) :
  prop (prop msg "user") "id" = VStr s → s ≠ "" → s ≠ id (my c) →
  ∃ p, (participants_get (VStr s) (handle msg c).2).1 = Ok (Some p)
       ∧ p_name p = prop (prop msg "user") "name"
       ∧ p_color p = prop (prop msg "user") "color".
Proof.
  intros Hid Hs Hme.
  assert (truthy (VStr s) = true) as Htruthy.
  { simpl. apply negb_true_iff. by apply String.eqb_neq. }
  assert (nullish msg = false ∧ truthy (prop msg "user") = true) as [Hmsg Huser].
  { destruct msg; try discriminate.
    split; [done|]. by destruct (prop (VObj fields) "user"). }
  set (n := prop (prop msg "user") "name"). set (col := prop (prop msg "user") "color").
  assert (∃ at_, entered s at_ n col (handle msg c).2) as (at_ & Hkey & p & Hl & Hn & Hc).
  { remember (handle msg c) as result eqn:Hrun.
    unfold handle, getp in Hrun. rewrite Hmsg in Hrun.
    unfold bind at 1, ret at 1 in Hrun.
    rewrite Huser, Hid, Htruthy in Hrun. cbn [negb orb] in Hrun.
    unfold participants_get in Hrun. unfold bind at 1, gets at 1 in Hrun.
    match type of Hrun with context [participants_set _ ?q] =>
      destruct (participants_set_string s q c) as (at_ & c1 & Hset & Hrest & Hkey & Hl);
      assert (p_name q = n ∧ p_color q = col) as [Hn Hc] by done;
      rewrite (bind_Ok _ _ _ _ _ Hset) in Hrun; clear Hset
    end.
    assert (my c1 = my c) as Hmy by (by apply (f_equal my) in Hrest).
    exists at_.
    assert (entered s at_ n col c1) as Hent by (split; [done|eauto]).
    assert (∀ m : M unit, keeps participants m → entered s at_ n col (m c1).2) as Hkeeps.
    { intros m Hm. by rewrite (Hm c1). }
    destruct (is_type _ "presence" || is_type _ "hello").
    { subst result. apply entered_renderPresence; [by rewrite Hmy|exact Hent]. }
    destruct (is_type _ "cursor" && _).
    { subst result. destruct (placesMarker _); [|exact Hent].
      by apply entered_on_participant. }
    destruct (is_type _ "view" && _ && _).
    { subst result. by apply entered_on_participant. }
    destruct (is_type _ "feature:add" && _).
    { subst result. apply Hkeeps. unfold applying_remote, addFeatureFromRemote.
      keep. apply keeps_participants_L_geoJSON. }
    destruct (is_type _ "feature:edit" && _).
    { subst result. apply Hkeeps. unfold applying_remote.
      keep. apply keeps_participants_editFeatureFromRemote. }
    destruct (is_type _ "feature:remove" && _); subst result; [|exact Hent].
    apply Hkeeps. unfold applying_remote.
    keep. apply keeps_participants_removeFeatureById. }
  exists p. split; [|done].
  unfold participants_get, gets. simpl. rewrite Hkey. simpl. by rewrite Hl.
Qed.

(** X8: after [handle] has seen a message whose [user.id] is a
    non-empty string other than the client's own, the participants map has
    an entry for that identifier with the name and the colour of the
    message, whatever the type of the message and however [handle]
    ends. *)
Theorem handle_records_sender (msg : value) (s : string) (c : State) :
  prop (prop msg "user") "id" = VStr s → s ≠ "" → s ≠ id (my c) →
  ∃ p, (participants_get (VStr s) (handle msg c).2).1 = Ok (Some p)
       ∧ p_name p = prop (prop msg "user") "name"
       ∧ p_color p = prop (prop msg "user") "color".
Proof. apply handle_enters. Qed.

Lemma only_participants c c' :
  set_participants [] c' = set_participants [] c →
  c' = set_participants (participants c') c.
Proof. destruct c, c'. unfold set_participants. simpl. congruence. Qed.

Lemma keeps_rest_participants_set k p : keeps (set_participants []) (participants_set k p).
Proof. intros c. unfold participants_set. by destruct (key_index _ _). Qed.

Lemma keeps_rest_renderPresence : keeps (set_participants []) renderPresence.
Proof. unfold renderPresence. keep. apply keeps_rest_participants_set. Qed.

(** X9: a message that is not a feature message ([hello], [presence],
    [cursor], [view], an unknown type, or a feature message without its
    payload) changes nothing of the state of the client but the
    participants map. *)
Theorem other_messages_leave_the_store (msg : value) (c : State) :
  remote_feature_message msg = false →
  (handle msg c).2 = set_participants (participants (handle msg c).2) c.
Proof.
  intros Hmsg. apply only_participants. revert c.
  change (keeps (set_participants []) (handle msg)).
  unfold remote_feature_message in Hmsg.
  unfold handle, getp.
  destruct (nullish msg); [apply keeps_throw|].
  apply keeps_bind_ret.
  destruct (truthy (prop msg "user")); [|apply keeps_ret].
  destruct (truthy (prop (prop msg "user") "id")); [|apply keeps_ret].
  cbn [negb orb andb] in *.
  apply orb_false_iff in Hmsg as [Hmsg Hremove].
  apply orb_false_iff in Hmsg as [Hadd Hedit].
  unfold participants_get, on_participant.
  keep; auto using keeps_rest_participants_set, keeps_rest_renderPresence.
  all: congruence.
Qed.

End Handling.

Section History.
Context {Lf : Leaflet} {Br : Browser}.


(** *** The history stacks *)

Lemma last_is_Some {A} (l : list A) : 0 < length l → is_Some (last l).
Proof.
  destruct l as [|x l] using rev_ind; simpl; [lia|].
  rewrite last_snoc. eauto.
Qed.

Lemma length_removelast {A} (l : list A) : length (removelast l) = pred (length l).
Proof.
  destruct l as [|x l] using rev_ind; [done|].
  rewrite removelast_last, length_app. simpl. lia.
Qed.

Lemma undo_stacks c :
  canUndo c = true →
  ∃ curr, last (undoStack c) = Some curr
          ∧ undoStack (undo c).2 = removelast (undoStack c)
          ∧ redoStack (undo c).2 = redoStack c ++ [curr].
Proof.
  intros Hcan. pose proof Hcan as Hlen. unfold canUndo in Hlen.
  apply bool_decide_eq_true in Hlen.
  destruct (last_is_Some (undoStack c)) as [curr Hcurr]; [lia|].
  exists curr. split; [done|].
  remember (undo c) as result eqn:Hrun.
  unfold undo in Hrun. unfold bind at 1, gets at 1 in Hrun.
  rewrite Hcan in Hrun. cbn [negb] in Hrun.
  unfold bind at 1, gets at 1 in Hrun. rewrite Hcurr in Hrun.
  unfold bind at 1, modify at 1 in Hrun. unfold bind at 1, modify at 1 in Hrun.
  destruct (last (removelast (undoStack c))) as [top|]; [|by subst result].
  unfold parse in Hrun. destruct (JSON_parse top) as [prev|]; [|by subst result].
  unfold bind at 1, ret at 1 in Hrun. subst result.
  match goal with |- context [loadState prev ?c0] =>
    destruct (silent_loadState prev c0) as (_ & -> & ->)
  end. done.
Qed.

Lemma redo_stacks c :
  canRedo c = true →
  ∃ state, last (redoStack c) = Some state
           ∧ redoStack (redo c).2 = removelast (redoStack c)
           ∧ undoStack (redo c).2 = undoStack c ++ [state].
Proof.
  intros Hcan. pose proof Hcan as Hlen. unfold canRedo in Hlen.
  apply bool_decide_eq_true in Hlen.
  destruct (last_is_Some (redoStack c)) as [state Hstate]; [lia|].
  exists state. split; [done|].
  remember (redo c) as result eqn:Hrun.
  unfold redo in Hrun. unfold bind at 1, gets at 1 in Hrun.
  rewrite Hcan in Hrun. cbn [negb] in Hrun.
  unfold bind at 1, gets at 1 in Hrun. rewrite Hstate in Hrun.
  unfold bind at 1, modify at 1 in Hrun. unfold bind at 1, modify at 1 in Hrun.
  unfold parse in Hrun. destruct (JSON_parse state) as [prev|]; [|by subst result].
  unfold bind at 1, ret at 1 in Hrun. subst result.
  match goal with |- context [loadState prev ?c0] =>
    destruct (silent_loadState prev c0) as (_ & -> & ->)
  end. done.
Qed.

Lemma undo_idle c : canUndo c = false → undo c = (Ok tt, c).
Proof. intros Hcan. unfold undo, bind, gets. by rewrite Hcan. Qed.

Lemma redo_idle c : canRedo c = false → redo c = (Ok tt, c).
Proof. intros Hcan. unfold redo, bind, gets. by rewrite Hcan. Qed.

Lemma snapshot_restoring c : isRestoring c = true → snapshot c = (Ok tt, c).
Proof. intros Hr. unfold snapshot, bind, gets. by rewrite Hr. Qed.

Lemma length_pushed stack state :
  length (pushed stack state)
  = if decide (HISTORY_LIMIT < S (length stack)) then length stack
    else S (length stack).
Proof.
  unfold pushed. rewrite length_app. simpl. rewrite Nat.add_1_r.
  case_decide; [|by rewrite length_app; simpl; lia].
  destruct stack; simpl; [done|]. rewrite length_app. simpl. lia.
Qed.

(** X11: the history never holds more than [HISTORY_LIMIT] states and
    never loses its last one: if the two stacks together hold at most
    [HISTORY_LIMIT] entries and the undo stack at least one, the same is
    true after [snapshot], after [undo] and after [redo]; [undo] and
    [redo] only move an entry from one stack to the other. *)
Theorem history_stays_within_limit (c : State) :
  let held c := length (undoStack c) + length (redoStack c) in
  held c ≤ HISTORY_LIMIT → 1 ≤ length (undoStack c) →
  (held (snapshot c).2 ≤ HISTORY_LIMIT ∧ 1 ≤ length (undoStack (snapshot c).2))
  ∧ (held (undo c).2 = held c ∧ 1 ≤ length (undoStack (undo c).2))
  ∧ (held (redo c).2 = held c ∧ 1 ≤ length (undoStack (redo c).2)).
Proof.
  intros held Hlimit Hfloor. unfold held in *. split; [|split].
  - destruct (isRestoring c) eqn:Hr.
    + by rewrite snapshot_restoring.
    + rewrite snapshot_commits by done. simpl. rewrite length_pushed.
      unfold HISTORY_LIMIT in *. case_decide; lia.
  - destruct (canUndo c) eqn:Hcan.
    + destruct (undo_stacks c Hcan) as (curr & _ & -> & ->).
      rewrite length_removelast, length_app. simpl.
      unfold canUndo in Hcan. apply bool_decide_eq_true in Hcan. lia.
    + by rewrite undo_idle.
  - destruct (canRedo c) eqn:Hcan.
    + destruct (redo_stacks c Hcan) as (state & _ & -> & ->).
      rewrite length_removelast, length_app. simpl.
      unfold canRedo in Hcan. apply bool_decide_eq_true in Hcan. lia.
    + by rewrite redo_idle.
Qed.

(** X12: when [undo] can be done, [redo] can be done after it, and
    [undo] followed by [redo] leaves both stacks as they were, however the
    two restores end. *)
Theorem undo_then_redo_restores_stacks (c : State) :
  canUndo c = true →
  let c' := (redo (undo c).2).2 in
  undoStack c' = undoStack c ∧ redoStack c' = redoStack c
  ∧ canRedo (undo c).2 = true.
Proof.
  intros Hcan c'.
  destruct (undo_stacks c Hcan) as (curr & Hcurr & Hu & Hr).
  assert (canRedo (undo c).2 = true) as Hcan'.
  { unfold canRedo. apply bool_decide_eq_true. rewrite Hr, length_app. simpl. lia. }
  destruct (redo_stacks _ Hcan') as (state & Hstate & Hr' & Hu').
  rewrite Hr, last_snoc in Hstate. injection Hstate as <-.
  unfold c'. rewrite Hr', Hu', Hr, Hu, removelast_last.
  split; [|done].
  destruct (undoStack c) as [|x l] using rev_ind; [done|].
  rewrite last_snoc in Hcurr. injection Hcurr as ->.
  by rewrite removelast_last.
Qed.

(** X13: a commit empties the redo stack, so that [redo] right after
    it does nothing, and puts what [collectGeoJSON] collects from the
    store on top of the undo stack. *)
Theorem commit_discards_redo (c : State) :
  isRestoring c = false →
  let c' := (snapshot c).2 in
  redoStack c' = [] ∧ redo c' = (Ok tt, c')
  ∧ last (undoStack c') = Some (Json (captured (drawn c))).
Proof.
  intros Hr c'. unfold c'. rewrite snapshot_commits by done. cbn [snd].
  split; [done|]. split; [by apply redo_idle|].
  cbn [undoStack set_redoStack set_undoStack]. unfold pushed.
  case_decide.
  - destruct (undoStack c) as [|x l]; simpl in *; [unfold HISTORY_LIMIT in *; lia|].
    by rewrite last_snoc.
  - by rewrite last_snoc.
Qed.

End History.

(** *** Objects on the wire *)

Lemma own_object_assign_absent target source k :
  k ∉ source.*1 → own (object_assign target source) k = own target k.
Proof.
  unfold object_assign. revert target.
  induction source as [|[k0 x] rest IH]; intros target Hk; simpl; [done|].
  rewrite fmap_cons, not_elem_of_cons in Hk. destruct Hk as [Hne Hk].
  rewrite IH by done. rewrite own_set_field.
  destruct (String.eqb k0 k) eqn:Heq; [|done].
  apply String.eqb_eq in Heq. by subst.
Qed.

Lemma prop_jsonable fs k :
  jsonable (own fs k) ≠ VUndefined →
  prop (jsonable (VObj fs)) k = jsonable (own fs k).
Proof.
  induction fs as [|[k0 x] rest IH]; intros Hkept; simpl in *; [done|].
  destruct (String.eqb k0 k) eqn:Heq.
  - destruct (jsonable x); simpl; rewrite ?Heq; done.
  - specialize (IH Hkept). simpl in IH.
    destruct (jsonable x); simpl; rewrite ?Heq; done.
Qed.

Section Sending.
Context {Lf : Leaflet} {Br : Browser}.

Lemma send_connected type payload c :
  connected c = true → wsOpen c = true →
  send type payload c
  = (Ok tt, set_sent (sent c ++ [Json (outgoing type payload c)]) c).
Proof.
  intros Hon Hopen. unfold send, outgoing, JSON_stringify.
  unfold bind at 1, gets at 1. rewrite Hon. cbn [negb].
  unfold bind, gets, try_catch, modify. by rewrite Hopen.
Qed.

Lemma send_disconnected type payload c :
  connected c = false → send type payload c = (Ok tt, c).
Proof. intros Hoff. unfold send, bind, gets. by rewrite Hoff. Qed.

Lemma send_closed_socket type payload c :
  wsOpen c = false → send type payload c = (Ok tt, c).
Proof.
  intros Hclosed. unfold send. unfold bind at 1, gets at 1.
  destruct (connected c); [|done]. cbn [negb].
  unfold bind, gets, try_catch, throw, ret. by rewrite Hclosed.
Qed.

(** What an outgoing message carries when the payload does not override
    it. *)
Lemma outgoing_envelope type payload c :
  "room" ∉ payload.*1 → "user" ∉ payload.*1 →
  nullish (outgoing type payload c) = false
  ∧ prop (outgoing type payload c) "room" = VStr (room c)
  ∧ prop (outgoing type payload c) "user"
    = VObj [("id", VStr (id (my c))); ("name", VStr (name (my c)));
            ("color", VStr (color (my c)))].
Proof.
  intros Hroom Huser. unfold outgoing. split; [done|]. split.
  - rewrite prop_jsonable; rewrite own_object_assign_absent by done; done.
  - rewrite prop_jsonable; rewrite own_object_assign_absent by done; done.
Qed.

Lemma outgoing_type type payload c :
  "type" ∉ payload.*1 →
  prop (outgoing type payload c) "type" = VStr type.
Proof.
  intros Htype. unfold outgoing.
  rewrite prop_jsonable; rewrite own_object_assign_absent by done; done.
Qed.

Lemma onmessage_own_echo msg c :
  nullish msg = false →
  prop (prop msg "user") "id" = VStr (id (my c)) →
  onmessage (Json msg) c = (Ok tt, c).
Proof.
  intros Hmsg Hid. unfold onmessage, getp. simpl. rewrite Hmsg.
  unfold bind, gets, ret. simpl.
  destruct (truthy (prop msg "room") && _); [done|].
  assert (truthy (prop msg "user") = true) as -> by (by destruct (prop msg "user")).
  rewrite Hid. simpl. by rewrite String.eqb_refl.
Qed.

Lemma onmessage_peer msg c s :
  nullish msg = false →
  prop msg "room" = VStr (room c) →
  prop (prop msg "user") "id" = VStr s → s ≠ id (my c) →
  onmessage (Json msg) c = handle msg c.
Proof.
  intros Hmsg Hroom Hid Hne. unfold onmessage, getp. simpl. rewrite Hmsg.
  unfold bind, gets, ret. simpl. rewrite Hroom, Hid. simpl.
  rewrite String.eqb_refl, andb_false_r.
  apply String.eqb_neq in Hne. by rewrite Hne, andb_false_r.
Qed.

Lemma onmessage_other_room msg c rm :
  nullish msg = false →
  prop msg "room" = VStr rm → rm ≠ "" → rm ≠ room c →
  onmessage (Json msg) c = (Ok tt, c).
Proof.
  intros Hmsg Hroom Hrm Hne. unfold onmessage, getp. simpl. rewrite Hmsg.
  unfold bind, gets, ret. simpl. rewrite Hroom. simpl.
  apply String.eqb_neq in Hrm, Hne. by rewrite Hrm, Hne.
Qed.

(** X14: while the client is connected and the socket is open, [send]
    puts exactly one message on the wire; unless the payload overrides
    [room] or [user], that message is dropped by [ws.onmessage] of the
    sender itself, is handed to [handle] by every other client in the same
    room, and is dropped by every client in another room unless the
    sender's room is the empty string. *)
Theorem sent_message_is_scoped (type : string) (payload : fields_t) (c : State) :
  connected c = true → wsOpen c = true →
  "room" ∉ payload.*1 → "user" ∉ payload.*1 →
  ∃ msg,
    send type payload c = (Ok tt, set_sent (sent c ++ [Json msg]) c)
    ∧ (∀ c', id (my c') = id (my c) → onmessage (Json msg) c' = (Ok tt, c'))
    ∧ (∀ b, id (my b) ≠ id (my c) → room b = room c →
            onmessage (Json msg) b = handle msg b)
    ∧ (∀ b, room c ≠ "" → room b ≠ room c →
            onmessage (Json msg) b = (Ok tt, b)).
Proof.
  intros Hon Hopen Hroom Huser.
  destruct (outgoing_envelope type payload c Hroom Huser) as (Hmsg & Hrm & Hus).
  exists (outgoing type payload c). split; [by apply send_connected|].
  split; [|split].
  - intros c' Hsame. apply onmessage_own_echo; [done|].
    rewrite Hus. simpl. by rewrite Hsame.
  - intros b Hother Hsame. eapply onmessage_peer; [done| |by rewrite Hus|done].
    by rewrite Hrm, Hsame.
  - intros b Hnamed Hother. eapply onmessage_other_room; [done|exact Hrm|done|done].
Qed.

Lemma is_type_other s s' : s ≠ s' → is_type (VStr s) s' = false.
Proof. intros Hne. unfold is_type. simpl. by apply String.eqb_neq. Qed.

Lemma truthy_string s : s ≠ "" → truthy (VStr s) = true.
Proof. intros Hs. simpl. apply negb_true_iff. by apply String.eqb_neq. Qed.

(** X15 (a removal reaches the peer): for a layer whose identifier is
    a non-empty string, [sendRemove] sends one message; at every other
    client in the same room [ws.onmessage] of that message ends normally
    and takes the last layer with this identifier out of the store, or
    leaves the store as it is when there is none. *)
Theorem removal_reaches_the_peer (r : nat) (l : Layer) (i : string) (a : State) :
  isRemoteApplying a = false → connected a = true → wsOpen a = true →
  id (my a) ≠ "" →
  drawn a !! r = Some l → opt l "_id" = VStr i → i ≠ "" →
  ∃ msg,
    sendRemove (Some r) a = (Ok tt, set_sent (sent a ++ [Json msg]) a)
    ∧ ∀ b, room b = room a → id (my b) ≠ id (my a) →
        (onmessage (Json msg) b).1 = Ok tt
        ∧ drawn (onmessage (Json msg) b).2
          = match find_last (drawn b) (VStr i) 0 None with
            | Some r' => delete r' (drawn b)
            | None => drawn b
            end.
Proof.
  intros Hflag Hon Hopen Hme Hl Hid Hi.
  set (payload := [("id", VStr i)]).
  assert (("room" ∉ payload.*1) ∧ ("user" ∉ payload.*1) ∧ ("type" ∉ payload.*1))
    as (Hroom & Huser & Htype) by (unfold payload; simpl; set_solver).
  destruct (outgoing_envelope "feature:remove" payload a Hroom Huser)
    as (Hmsg & Hrm & Hus).
  pose proof (outgoing_type "feature:remove" payload a Htype) as Hty.
  assert (prop (outgoing "feature:remove" payload a) "id" = VStr i) as Hpid.
  { unfold outgoing. rewrite prop_jsonable; unfold object_assign; simpl; done. }
  exists (outgoing "feature:remove" payload a). split.
  - unfold sendRemove. unfold bind at 1, gets at 1. rewrite Hflag.
    unfold bind at 1, the_layer at 1. rewrite Hl, Hid, (truthy_string i Hi).
    by apply send_connected.
  - intros b Hsame Hother.
    rewrite (onmessage_peer _ b (id (my a)));
      [|done|by rewrite Hrm, Hsame|by rewrite Hus|done].
    set (msg := outgoing "feature:remove" payload a) in *.
    assert (remote_feature_message msg = true) as Hfeature.
    { assert (prop (prop msg "user") "id" = VStr (id (my a))) as Huid
        by (by rewrite Hus).
      assert (truthy (prop msg "user") = true) as Htu by (by rewrite Hus).
      unfold remote_feature_message.
      rewrite Hmsg, Htu, Huid, Hty, Hpid.
      rewrite (truthy_string _ Hme), (truthy_string _ Hi). done. }
    destruct (handle_feature_message msg b Hfeature) as (b1 & _ & Hd & _ & ->).
    unfold remote_operation. rewrite Hty, Hpid.
    rewrite !is_type_other by done.
    unfold applying_remote, removeFeatureById, findLayerById, try_finally.
    unfold bind, gets, modify. simpl. rewrite Hd.
    destruct (find_last (drawn b) (VStr i) 0 None); simpl; by rewrite ?Hd.
Qed.

Lemma keeps_connected_participants_set k p : keeps connected (participants_set k p).
Proof. intros c. unfold participants_set. by destruct (key_index _ _). Qed.

(** Whatever [renderPresence] ends with, the own entry is in the map
    and nothing else of the state has changed. *)
Lemma renderPresence_self c :
  ∃ at_ c',
    (renderPresence c).2 = c'
    ∧ set_participants [] c' = set_participants [] c
    ∧ key_index (participants c') (VStr (id (my c))) = Some at_
    ∧ participants c' !! at_
      = Some (VStr (id (my c)),
              {| p_name := VStr (name (my c)); p_color := VStr (color (my c));
                 p_self := true; p_cursor := None; p_lastView := None |}).
Proof.
  unfold renderPresence. unfold bind at 1, gets at 1. cbv beta iota.
  match goal with |- context [participants_set (VStr ?s) ?q] =>
    pose proof (participants_set_string s q c) as (at_ & c1 & Hset & Hrest & Hkey & Hl)
  end.
  exists at_, c1. rewrite (bind_Ok _ _ _ _ _ Hset).
  unfold bind, gets. simpl. split; [by destruct (forallb _ _)|done].
Qed.


(** X17 (close): after [ws.onclose] the client is not connected, every
    participant left in the map is marked as the client itself and the
    client's own entry is there; the store, the history and the rest of
    the state are untouched, and [send] does nothing. *)
Theorem closing_forgets_the_peers (c : State) :
  let c' := (onclose c).2 in
  connected c' = false
  ∧ Forall (λ e, p_self e.2 = true) (participants c')
  ∧ (∃ p, (participants_get (VStr (id (my c))) c').1 = Ok (Some p)
          ∧ p_self p = true ∧ p_name p = VStr (name (my c)))
  ∧ set_participants [] c' = set_connected false (set_participants [] c)
  ∧ ∀ type payload, send type payload c' = (Ok tt, c').
Proof.
  intros c'.
  set (c1 := set_participants (List.filter (λ e, p_self e.2) (participants c))
               (set_connected false c)).
  assert (c' = (renderPresence c1).2) as Hrun by done.
  assert (Forall (λ e, p_self e.2 = true) (participants c1)) as Hself.
  { apply Forall_forall. intros e He. simpl in He.
    apply list_elem_of_In, filter_In in He. by destruct He. }
  assert (Forall (λ e, p_self e.2 = true) (participants c')) as Hself'.
  { rewrite Hrun, renderPresence_state. unfold participants_set.
    destruct (key_index (participants c1) _) as [i|]; simpl.
    - by apply Forall_alter.
    - apply Forall_app. split; [done|]. by repeat constructor. }
  destruct (renderPresence_self c1) as (at_ & c2 & Hc2 & Hrest & Hkey & Hl).
  rewrite <- Hrun in Hc2. subst c2.
  assert (connected c' = false) as Hoff by (by apply (f_equal connected) in Hrest).
  split; [done|]. split; [done|]. split; [|split].
  - eexists. unfold participants_get, gets. simpl.
    change (my c1) with (my c) in Hkey, Hl. rewrite Hkey. simpl. rewrite Hl.
    by split.
  - by rewrite Hrest.
  - intros type payload. by apply send_disconnected.
Qed.

End Sending.

Lemma alter_at {A} (f : A → A) (ls : list A) r l :
  ls !! r = Some l → alter f r ls = <[r := f l]> ls.
Proof.
  revert r. induction ls as [|x ls IH]; intros [|r] Hl; simpl in *; try done.
  - by injection Hl as ->.
  - f_equal. by apply IH.
Qed.

Lemma insert_same {A} (ls : list A) r l : ls !! r = Some l → <[r := l]> ls = ls.
Proof. apply list_insert_id. Qed.

Lemma set_drawn_same c : set_drawn (drawn c) c = c.
Proof. by destruct c. Qed.

(** *** What the properties of a feature hold *)

Lemma holds_set_prop k0 x0 v k x :
  String.eqb k k0 = false → holds k0 x0 v → holds k0 x0 (set_prop v k x).
Proof.
  intros Hk (fs & -> & Hid). eexists. split; [done|].
  by rewrite own_set_field, Hk.
Qed.

Lemma holds_set_same k x v k0 x0 : holds k0 x0 v → holds k x (set_prop v k x).
Proof.
  intros (fs & -> & _). eexists. split; [done|].
  by rewrite own_set_field, String.eqb_refl.
Qed.

Lemma holds_set_if_truthy k0 x0 v k x :
  String.eqb k k0 = false → holds k0 x0 v → holds k0 x0 (set_if_truthy k x v).
Proof.
  intros Hk Hv. unfold set_if_truthy. destruct (truthy x); [|done].
  by apply holds_set_prop.
Qed.

Section Adding.
Context {Lf : Leaflet} {Br : Browser}.

Lemma holds_id_style_props i l v :
  holds "_id" i v → holds "_id" i (style_props l v).
Proof.
  intros Hv. unfold style_props. cbv zeta.
  repeat match goal with
    | |- holds _ _ (if ?b then _ else _) => destruct b
    | |- holds _ _ (match ?x with _ => _ end) => destruct x
    | |- holds _ _ (set_prop _ _ _) => apply holds_set_prop; [done|]
    end; done.
Qed.

Lemma holds_stroke_style_props l v k0 x0 :
  instanceof_Polyline (lclass l) = true → holds k0 x0 v →
  holds "stroke" (or_else (opt l "color") (VStr "#ff4757")) (style_props l v).
Proof.
  intros Hline Hv. unfold style_props. rewrite Hline. cbv zeta.
  repeat match goal with
    | |- holds _ _ (if ?b then _ else _) => destruct b
    | |- holds _ _ (match ?x with _ => _ end) => destruct x
    | |- holds _ _ (set_prop _ ?k _) =>
        first [ apply holds_set_prop; [done|] | by eapply holds_set_same ]
    end.
Qed.

Lemma on_layer_at r f l c :
  drawn c !! r = Some l →
  on_layer r f c = (Ok tt, set_drawn (<[r := f l]> (drawn c)) c).
Proof. intros Hl. unfold on_layer, modify. by rewrite (alter_at _ _ _ _ Hl). Qed.

Lemma the_layer_at r l c : drawn c !! r = Some l → the_layer r c = (Ok l, c).
Proof. intros Hl. unfold the_layer. by rewrite Hl. Qed.

Lemma lookup_insert_at {A} (ls : list A) r l x :
  ls !! r = Some l → <[r := x]> ls !! r = Some x.
Proof. intros Hl. apply list_lookup_insert_eq. by eapply lookup_lt_Some. Qed.

(** [ensureLayerId] on a layer of the store. *)
Lemma ensureLayerId_at r l c :
  drawn c !! r = Some l →
  ∃ l' c',
    ensureLayerId r c = (Ok tt, c')
    ∧ beside_store c' = beside_store c
    ∧ drawn c' !! r = Some l'
    ∧ feature l' = feature l
    ∧ opt l' "_id" = (if truthy (opt l "_id") then opt l "_id"
                      else VStr ("f_" +:+ uuid_at (uuids c))).
Proof.
  intros Hl. unfold ensureLayerId. rewrite (bind_Ok _ _ _ _ _ (the_layer_at _ _ _ Hl)).
  destruct (truthy (opt l "_id")) eqn:Hid.
  - by exists l, c.
  - unfold bind at 1, uuidv4 at 1.
    erewrite on_layer_at by (simpl; exact Hl).
    eexists _, _. split; [reflexivity|]. split; [done|]. simpl.
    split; [by eapply lookup_insert_at|]. split; [done|].
    by rewrite opt_set_opt.
Qed.

Lemma setMetaOnCreate_at r l c :
  drawn c !! r = Some l → truthy (opt l "_id") = true →
  ∃ l' c',
    setMetaOnCreate r c = (Ok tt, c')
    ∧ beside_store c' = beside_store c
    ∧ drawn c' !! r = Some l'
    ∧ feature l' = feature l
    ∧ opt l' "_id" = opt l "_id".
Proof.
  intros Hl Hid. unfold setMetaOnCreate.
  destruct (ensureLayerId_at r l c Hl) as (l0 & c0 & Hrun & Hrest & Hl0 & Hf & Hid0).
  assert (c0 = c ∧ l0 = l) as [-> ->].
  { unfold ensureLayerId in Hrun.
    rewrite (bind_Ok _ _ _ _ _ (the_layer_at _ _ _ Hl)), Hid in Hrun.
    injection Hrun as <-. split; [done|]. congruence. }
  rewrite (bind_Ok _ _ _ _ _ Hrun).
  unfold bind at 1, now at 1. unfold bind at 1, gets at 1.
  erewrite on_layer_at by (simpl; exact Hl).
  eexists _, _. split; [reflexivity|]. split; [done|]. simpl.
  split; [by eapply lookup_insert_at|]. split; [done|].
  by rewrite opt_set_opt.
Qed.

(** [toSingleGeoJSON] of a layer that was drawn locally: the feature has
    the identifier of the layer in its properties, and the layer stays as
    it is. *)
Lemma toSingleGeoJSON_local r l c :
  drawn c !! r = Some l → truthy (opt l "_id") = true →
  feature l = VUndefined →
  ∃ gj c',
    toSingleGeoJSON r c = (Ok gj, c')
    ∧ beside_store c' = beside_store c
    ∧ drawn c' = drawn c
    ∧ ∃ fs, gj = VObj fs
            ∧ holds "_id" (opt l "_id") (own fs "properties")
            ∧ (instanceof_Polyline (lclass l) = true →
               holds "stroke" (or_else (opt l "color") (VStr "#ff4757"))
                 (own fs "properties")).
Proof.
  intros Hl Hid Hfeature. unfold toSingleGeoJSON.
  rewrite (bind_Ok _ _ _ _ _ (the_layer_at _ _ _ Hl)).
  unfold id_or_fresh. rewrite Hid.
  unfold bind at 1, ret at 1. unfold bind at 1, gets at 1.
  assert (toGeoJSON l = VObj [("type", VStr "Feature"); ("properties", VObj []);
                               ("geometry", toGeometry l)]) as Hgj.
  { unfold toGeoJSON. by rewrite Hfeature. }
  rewrite Hgj. unfold props_of. cbn [prop own String.eqb Ascii.eqb Bool.eqb].
  assert (share_props_local : ∀ props, share_props props l = l).
  { intros props. unfold share_props. by rewrite Hfeature. }
  match goal with
  | |- context [bind (if ?b then ret ?x else _) _ c] =>
      assert (∃ createdAt c0,
                (if b then ret x else bind now (λ t, ret (VStr t))) c = (Ok createdAt, c0)
                ∧ beside_store c0 = beside_store c ∧ drawn c0 = drawn c)
        as (createdAt & c0 & Hcreated & Hrest0 & Hdrawn0)
        by (destruct b; eexists _, _; (split; [reflexivity|]); by split)
  end.
  rewrite (bind_Ok _ _ _ _ _ Hcreated).
  unfold bind at 1, ret at 1. unfold bind at 1, ret at 1.
  erewrite on_layer_at by (rewrite Hdrawn0; exact Hl).
  rewrite share_props_local, Hdrawn0, (insert_same _ _ _ Hl), <- Hdrawn0, set_drawn_same.
  eexists _, c0. split; [reflexivity|]. split; [done|]. split; [done|].
  unfold put_props, set_prop. eexists. split; [reflexivity|].
  cbn [set_field own String.eqb Ascii.eqb Bool.eqb].
  assert (holds "_id" (opt l "_id") (set_prop (VObj []) "_id" (opt l "_id")))
    as Hstart by (apply (holds_set_same _ _ _ "_id" VUndefined); by exists []).
  split.
  - repeat apply holds_set_if_truthy; try done.
    eapply holds_set_same.
    apply holds_id_style_props.
    repeat (apply holds_set_prop; [done|]). exact Hstart.
  - intros Hline.
    repeat apply holds_set_if_truthy; try done.
    apply holds_set_prop; [done|].
    apply (holds_stroke_style_props _ _ "_id" (opt l "_id")); [done|].
    repeat (apply holds_set_prop; [done|]). exact Hstart.
Qed.

Lemma beside_store_link c c' :
  beside_store c' = beside_store c →
  connected c' = connected c ∧ wsOpen c' = wsOpen c ∧ room c' = room c
  ∧ my c' = my c ∧ sent c' = sent c ∧ isRemoteApplying c' = isRemoteApplying c.
Proof.
  intros Hrest.
  pose proof (f_equal connected Hrest). pose proof (f_equal wsOpen Hrest).
  pose proof (f_equal room Hrest). pose proof (f_equal my Hrest).
  pose proof (f_equal sent Hrest). pose proof (f_equal isRemoteApplying Hrest).
  done.
Qed.

Lemma outgoing_same type payload c c' :
  room c' = room c → my c' = my c →
  outgoing type payload c' = outgoing type payload c.
Proof. intros Hr Hm. unfold outgoing. by rewrite Hr, Hm. Qed.

(** What a message with a feature carries to the receiver. *)
Lemma outgoing_feature type fs c :
  let msg := outgoing type [("feature", VObj fs)] c in
  prop msg "type" = VStr type
  ∧ truthy (prop msg "feature") = true
  ∧ ∀ k s, holds k (VStr s) (own fs "properties") →
           prop (prop (prop msg "feature") "properties") k = VStr s.
Proof.
  intros msg. split; [by apply outgoing_type; set_solver|].
  assert (prop msg "feature" = jsonable (VObj fs)) as ->.
  { unfold msg, outgoing. rewrite prop_jsonable; unfold object_assign; simpl; done. }
  split; [done|]. intros k s (ps & Hps & Hk).
  rewrite prop_jsonable; rewrite Hps; [|done].
  rewrite prop_jsonable; rewrite Hk; done.
Qed.

(** X18 (an added layer reaches the peer): [sendAdd] of a layer drawn
    locally gives the layer an identifier if it has none, keeps the one it
    has, and sends one message; at every other client in the same room
    for which Leaflet builds the layer of the feature in the message,
    [ws.onmessage] ends normally with one layer more in the store, and
    that layer has the identifier of the sender's layer. *)
Theorem added_layer_reaches_the_peer (r : nat) (l : Layer) (a : State) :
  isRemoteApplying a = false → connected a = true → wsOpen a = true →
  id (my a) ≠ "" →
  drawn a !! r = Some l → feature l = VUndefined →
  (truthy (opt l "_id") = true → is_string (opt l "_id") = true) →
  ∃ msg a' l1 i,
    sendAdd r a = (Ok tt, a')
    ∧ sent a' = sent a ++ [Json msg]
    ∧ drawn a' !! r = Some l1 ∧ opt l1 "_id" = VStr i ∧ i ≠ ""
    ∧ (truthy (opt l "_id") = true → opt l "_id" = VStr i)
    ∧ ∀ b layer,
        room b = room a → id (my b) ≠ id (my a) →
        geoJSON_layers (prop msg "feature") = ([(prop msg "feature", layer)], None) →
        label_opens (prop msg "feature") →
        ∃ l', (onmessage (Json msg) b).1 = Ok tt
              ∧ drawn (onmessage (Json msg) b).2 = drawn b ++ [l']
              ∧ opt l' "_id" = VStr i
              ∧ shape l' = shape layer.
Proof.
  intros Hflag Hon Hopen Hme Hl Hlocal Hstring.
  destruct (ensureLayerId_at r l a Hl) as (l1 & a1 & Hrun1 & Hrest1 & Hl1 & Hf1 & Hid1).
  assert (∃ i, opt l1 "_id" = VStr i ∧ i ≠ ""
               ∧ (truthy (opt l "_id") = true → opt l "_id" = VStr i))
    as (i & Hi & Hne & Hkept).
  { rewrite Hid1. destruct (truthy (opt l "_id")) eqn:Hid.
    - specialize (Hstring eq_refl). destruct (opt l "_id") as [| | | |i| |]; try done.
      exists i. split; [done|]. split; [|done]. intros ->. done.
    - eexists. split; [done|]. split; [|done]. done. }
  assert (truthy (opt l1 "_id") = true) as Htruthy1
    by (rewrite Hi; by apply truthy_string).
  destruct (setMetaOnCreate_at r l1 a1 Hl1 Htruthy1)
    as (l2 & a2 & Hrun2 & Hrest2 & Hl2 & Hf2 & Hid2).
  assert (truthy (opt l2 "_id") = true) as Htruthy2 by congruence.
  destruct (toSingleGeoJSON_local r l2 a2 Hl2 Htruthy2 ltac:(congruence))
    as (gj & a3 & Hrun3 & Hrest3 & Hd3 & fs & -> & Hcarries & _).
  rewrite Hid2, Hi in Hcarries.
  assert (beside_store a3 = beside_store a) as Hrest by congruence.
  destruct (beside_store_link _ _ Hrest) as (Hon3 & Hopen3 & Hroom3 & Hmy3 & Hsent3 & _).
  set (msg := outgoing "feature:add" [("feature", VObj fs)] a3).
  exists msg, (set_sent (sent a3 ++ [Json msg]) a3), l2, i.
  split; [|split; [|split; [|split; [|split; [|split]]]]].
  - unfold sendAdd. unfold bind at 1, gets at 1. rewrite Hflag.
    rewrite (bind_Ok _ _ _ _ _ Hrun1), (bind_Ok _ _ _ _ _ Hrun2),
      (bind_Ok _ _ _ _ _ Hrun3).
    apply send_connected; congruence.
  - simpl. by rewrite Hsent3.
  - simpl. by rewrite Hd3.
  - congruence.
  - done.
  - done.
  - intros b layer Hsame Hother Hbuilt Hopens.
    destruct (outgoing_envelope "feature:add" [("feature", VObj fs)] a3)
      as (Hmsg & Hrm & Hus); [set_solver..|]. fold msg in Hmsg, Hrm, Hus.
    destruct (outgoing_feature "feature:add" fs a3) as (Hty & Hfeat & Hpid).
    fold msg in Hty, Hfeat, Hpid. specialize (Hpid _ _ Hcarries).
    rewrite (onmessage_peer msg b (id (my a)));
      [|done|by rewrite Hrm, Hroom3, Hsame|by rewrite Hus, Hmy3|done].
    assert (remote_feature_message msg = true) as Hfeature.
    { assert (prop (prop msg "user") "id" = VStr (id (my a))) as Huid
        by (by rewrite Hus, Hmy3).
      assert (truthy (prop msg "user") = true) as Htu by (by rewrite Hus).
      unfold remote_feature_message.
      rewrite Hmsg, Htu, Huid, Hty, Hfeat.
      rewrite (truthy_string _ Hme). done. }
    destruct (handle_feature_message msg b Hfeature) as (b1 & _ & Hd & _ & ->).
    assert (truthy (prop (prop msg "feature") "properties") = true) as Hprops.
    { by destruct (prop (prop msg "feature") "properties"). }
    assert (∃ l' c', applying_remote (remote_operation msg) b1 = (Ok tt, c')
                     ∧ drawn c' = drawn b1 ++ [l']
                     ∧ opt l' "_id" = VStr i ∧ shape l' = shape layer)
      as (l' & c' & -> & Hd' & Hid' & Hshape').
    { unfold remote_operation. rewrite Hty.
      change (is_type (VStr "feature:add") "feature:add") with true. cbv iota.
      unfold applying_remote, addFeatureFromRemote, try_finally.
      unfold bind at 1, modify at 1.
      rewrite (L_geoJSON_one _ _ _ _ Hbuilt).
      match goal with |- context [bind (onEachFeature ?f ?x) _ ?c0] =>
        destruct (onEachFeature_attaches f x c0)
          as (l' & u & res & Hrun & Hshape & _ & Hl' & Hok);
        assert (shape x = shape layer) as Hx
          by (destruct (instanceof_Marker _); [apply shape_pointToLayer | done])
      end.
      rewrite (Hok Hopens) in Hrun. rewrite (bind_Ok _ _ _ _ _ Hrun).
      unfold or_else in Hl'. rewrite Hprops, Hpid in Hl'.
      specialize (Hl' (truthy_string _ Hne)).
      eexists l', _. split; [reflexivity|]. split; [done|]. split; [done|].
      congruence. }
    exists l'. simpl. rewrite Hd', Hd. done.
Qed.

(** [L.geoJSON] with the client's callbacks only puts layers at the end
    of the store, however it ends. *)
Lemma for_each_appends built c :
  ∃ added,
    drawn (for_each built (λ '(feature, layer),
             onEachFeature feature
               (if instanceof_Marker (lclass layer) then pointToLayer feature layer
                else layer)) c).2
    = drawn c ++ added
    ∧ Forall (λ l, truthy (opt l "_id") = true) added
    ∧ length added ≤ length built.
Proof.
  revert c. induction built as [|[feature layer] built IH]; intros c.
  - exists []. simpl. rewrite app_nil_r. by repeat split.
  - cbn [for_each].
    match goal with |- context [onEachFeature feature ?l] =>
      destruct (onEachFeature_attaches feature l c)
        as (l' & u & r & Hrun & _ & Hid & _)
    end.
    unfold bind at 1. rewrite Hrun. destruct r as [[]|e].
    + destruct (IH (set_uuids u (set_drawn (drawn c ++ [l']) c)))
        as (added & -> & Hids & Hlen).
      exists (l' :: added). simpl. rewrite <- (assoc_L (++)).
      split; [done|]. split; [by constructor|lia].
    + exists [l']. simpl. split; [done|]. split; [by repeat constructor|lia].
Qed.

(** X25 (adding never takes away): however [addFeatureFromRemote] or
    [restoreFromGeoJSON] ends, the layers that were in the store are still
    there, unchanged and in the same places; what is new comes after them,
    at most one layer for each feature Leaflet has built a layer for, each
    with an identifier. *)
Theorem adding_only_appends (geojson : value) (c : State) :
  Forall (λ add : value → M unit,
    ∃ added,
      drawn (add geojson c).2 = drawn c ++ added
      ∧ Forall (λ l, truthy (opt l "_id") = true) added
      ∧ length added ≤ length (geoJSON_layers geojson).1)
    [addFeatureFromRemote; restoreFromGeoJSON].
Proof.
  assert (∃ added,
            drawn (L_geoJSON geojson c).2 = drawn c ++ added
            ∧ Forall (λ l, truthy (opt l "_id") = true) added
            ∧ length added ≤ length (geoJSON_layers geojson).1) as Happends.
  { unfold L_geoJSON. destruct (geoJSON_layers geojson) as [built failure].
    destruct (for_each_appends built c) as (added & Hadded & Hids & Hlen).
    exists added. split; [|by split].
    unfold bind.
    destruct (for_each built _ c) as [[[]|e] c'] eqn:Hrun; simpl in *; [|done].
    by destruct failure. }
  by repeat constructor.
Qed.

End Adding.

(** *** Properties that are already there *)

Lemma set_field_bound fs k x : bound_to (set_field fs k x) k x.
Proof.
  induction fs as [|[k0 v] rest IH]; simpl.
  - by rewrite String.eqb_refl.
  - destruct (String.eqb k0 k) eqn:Hk; simpl; by rewrite Hk.
Qed.

Lemma set_field_bound_other fs k x k' y :
  String.eqb k k' = false → bound_to fs k' y → bound_to (set_field fs k x) k' y.
Proof.
  intros Hne. induction fs as [|[k0 v] rest IH]; simpl; [done|].
  destruct (String.eqb k0 k') eqn:Hk'.
  - intros ->. destruct (String.eqb k0 k) eqn:Hk; simpl.
    + apply String.eqb_eq in Hk, Hk'. subst. by rewrite String.eqb_refl in Hne.
    + by rewrite Hk'.
  - intros Hb. destruct (String.eqb k0 k) eqn:Hk; simpl; rewrite Hk'; auto.
Qed.

Lemma set_field_noop fs k x : bound_to fs k x → set_field fs k x = fs.
Proof.
  induction fs as [|[k0 v] rest IH]; simpl; [done|].
  destruct (String.eqb k0 k) eqn:Hk.
  - by intros ->.
  - intros Hb. by rewrite IH.
Qed.

Lemma object_assign_noop fs source :
  Forall (λ kv, bound_to fs kv.1 kv.2) source → object_assign fs source = fs.
Proof.
  unfold object_assign. induction 1 as [|[k x] rest Hb _ IH]; simpl; [done|].
  by rewrite set_field_noop.
Qed.

Lemma object_assign_snoc fs source k x :
  object_assign fs (source ++ [(k, x)]) = set_field (object_assign fs source) k x.
Proof. unfold object_assign. by rewrite foldl_snoc. Qed.

Lemma object_assign_bound fs source :
  NoDup source.*1 →
  Forall (λ kv, bound_to (object_assign fs source) kv.1 kv.2) source.
Proof.
  induction source as [|[k x] source IH] using rev_ind; [constructor|].
  rewrite fmap_app, NoDup_app. intros (Hnd & Hnotin & _).
  rewrite object_assign_snoc. apply Forall_app. split.
  - specialize (IH Hnd). rewrite Forall_forall in IH. apply Forall_forall.
    intros [k' y] Hin. apply set_field_bound_other; [|by apply IH].
    apply String.eqb_neq. simpl. intros <-.
    apply (Hnotin k); [|simpl; set_solver].
    apply list_elem_of_fmap. by exists (k, y).
  - repeat constructor. apply set_field_bound.
Qed.

Lemma bind_Ok_inv {A B} (m : M A) (k : A → M B) c b c' :
  bind m k c = (Ok b, c') → ∃ a c0, m c = (Ok a, c0) ∧ k a c0 = (Ok b, c').
Proof. unfold bind. destruct (m c) as [[a|e] c0]; [eauto|done]. Qed.

Lemma find_last_insert ls r l l1 i at_ found :
  ls !! r = Some l → opt l1 "_id" = opt l "_id" →
  find_last (<[r := l1]> ls) i at_ found = find_last ls i at_ found.
Proof.
  intros Hl Hid. revert r at_ found Hl.
  induction ls as [|x ls IH]; intros [|r] at_ found Hl; simpl in *; try done.
  - injection Hl as ->. by rewrite Hid.
  - by apply IH.
Qed.

Section Editing.
Context {Lf : Leaflet} {Br : Browser}.

Lemma style_from_keys p cls :
  NoDup (style_from p cls).*1
  ∧ Forall (λ kv, String.eqb "_meta" kv.1 = false) (style_from p cls).
Proof.
  unfold style_from. destruct (instanceof_Polygon cls); simpl.
  - split; [|by repeat constructor].
    repeat (constructor; [set_solver|]). constructor.
  - split; [|by repeat constructor].
    repeat (constructor; [set_solver|]). constructor.
Qed.

Lemma on_layer_tracked r f l l0 c :
  drawn c !! r = Some l →
  on_layer r f (set_drawn (<[r := l0]> (drawn c)) c)
  = (Ok tt, set_drawn (<[r := f l0]> (drawn c)) c).
Proof.
  intros Hl. erewrite on_layer_at by (simpl; by eapply lookup_insert_at).
  simpl. by rewrite list_insert_insert_eq.
Qed.

(** A feature with an identifier is an object with properties. *)
Lemma identified_feature feat :
  truthy (prop (prop feat "properties") "_id") = true →
  nullish feat = false ∧ truthy (prop feat "properties") = true.
Proof.
  intros Hi. destruct feat; try done. split; [done|].
  by destruct (prop (VObj fields) "properties").
Qed.

Lemma edit_settles feat r l c c1 :
  let i := prop (prop feat "properties") "_id" in
  truthy i = true →
  find_last (drawn c) i 0 None = Some r → drawn c !! r = Some l →
  editFeatureFromRemote feat c = (Ok tt, c1) →
  ∃ l1, c1 = set_drawn (<[r := l1]> (drawn c)) c
        ∧ settled feat l1 ∧ lclass l1 = lclass l ∧ opt l1 "_id" = opt l "_id".
Proof.
  intros i Hi Hfound Hl Hrun.
  destruct (identified_feature feat Hi) as [Hfeat Hprops].
  unfold editFeatureFromRemote, getp in Hrun. rewrite Hfeat in Hrun.
  unfold bind at 1, ret at 1 in Hrun. rewrite Hprops in Hrun.
  fold i in Hrun. rewrite Hi in Hrun. cbn [negb] in Hrun.
  unfold findLayerById in Hrun. unfold bind at 1, gets at 1 in Hrun.
  rewrite Hfound in Hrun.
  rewrite (bind_Ok _ _ _ _ _ (the_layer_at _ _ _ Hl)) in Hrun.
  set (p := or_else (prop feat "properties") (VObj [])) in *.
  set (g := prop feat "geometry") in *.
  (* geometry *)
  apply bind_Ok_inv in Hrun as ([] & c2 & Hgeo & Hrun).
  assert (∃ l2, c2 = set_drawn (<[r := l2]> (drawn c)) c
                ∧ lclass l2 = lclass l ∧ options l2 = options l
                ∧ (instanceof_Polyline (lclass l) && truthy g = true →
                   (strict_eq (prop g "type") (VStr "LineString") = true →
                    coordsToLatLngs (prop g "coordinates") 0 = Some (latlngs l2))
                   ∧ (strict_eq (prop g "type") (VStr "LineString") = false →
                      strict_eq (prop g "type") (VStr "Polygon") = true →
                      coordsToLatLngs (prop g "coordinates") 1 = Some (latlngs l2))))
    as (l2 & -> & Hc2 & Ho2 & Hq1).
  { assert (c = set_drawn (<[r := l]> (drawn c)) c) as Hstart
      by (by rewrite (insert_same _ _ _ Hl), set_drawn_same).
    destruct (instanceof_Polyline (lclass l) && truthy g).
    2:{ injection Hgeo as <-. exists l. by repeat split. }
    destruct (strict_eq (prop g "type") (VStr "LineString")) eqn:Hline.
    { destruct (coordsToLatLngs (prop g "coordinates") 0) as [lls|] eqn:Hlls; [|done].
      rewrite (on_layer_at _ _ _ _ Hl) in Hgeo. injection Hgeo as <-.
      eexists. split; [reflexivity|]. by repeat split. }
    destruct (strict_eq (prop g "type") (VStr "Polygon")) eqn:Hpoly.
    { destruct (coordsToLatLngs (prop g "coordinates") 1) as [lls|] eqn:Hlls; [|done].
      rewrite (on_layer_at _ _ _ _ Hl) in Hgeo. injection Hgeo as <-.
      eexists. split; [reflexivity|]. by repeat split. }
    injection Hgeo as <-. exists l. by repeat split. }
  (* style *)
  apply bind_Ok_inv in Hrun as ([] & c3 & Hstyle & Hrun).
  assert (∃ l3, c3 = set_drawn (<[r := l3]> (drawn c)) c
                ∧ lclass l3 = lclass l ∧ latlngs l3 = latlngs l2
                ∧ opt l3 "_id" = opt l "_id"
                ∧ (instanceof_Polyline (lclass l) = true →
                   Forall (λ kv, bound_to (options l3) kv.1 kv.2)
                     (style_from p (lclass l))))
    as (l3 & -> & Hc3 & Hll3 & Hid3 & Hq2).
  { destruct (instanceof_Polyline (lclass l)).
    - rewrite (on_layer_tracked _ _ _ _ _ Hl) in Hstyle. injection Hstyle as <-.
      eexists. split; [reflexivity|]. split; [done|]. split; [done|].
      split; [by rewrite opt_setStyle_id; unfold opt; rewrite Ho2|].
      intros _. simpl. apply object_assign_bound, style_from_keys.
    - injection Hstyle as <-. exists l2. split; [done|]. split; [done|].
      split; [done|]. split; [by unfold opt; rewrite Ho2|done]. }
  (* label *)
  apply bind_Ok_inv in Hrun as ([] & c4 & Hlabel & Hrun).
  assert (∃ l4, c4 = set_drawn (<[r := l4]> (drawn c)) c
                ∧ lclass l4 = lclass l ∧ latlngs l4 = latlngs l2
                ∧ options l4 = options l3
                ∧ tooltip l4
                  = (if truthy (prop p "label") then Some (prop p "label") else None)
                ∧ (truthy (prop p "label") = true →
                   opensTooltip (prop p "label") = true))
    as (l4 & -> & Hc4 & Hll4 & Ho4 & Hq3 & Hopens).
  { destruct (truthy (prop p "label")).
    - unfold bindTooltip_open in Hlabel.
      rewrite (bind_Ok _ _ _ _ _ (on_layer_tracked _ _ _ _ _ Hl)) in Hlabel.
      destruct (opensTooltip (prop p "label")); [|done].
      injection Hlabel as <-. eexists. split; [reflexivity|]. by repeat split.
    - rewrite (on_layer_tracked _ _ _ _ _ Hl) in Hlabel. injection Hlabel as <-.
      eexists. split; [reflexivity|]. by repeat split. }
  (* popup *)
  apply bind_Ok_inv in Hrun as ([] & c5 & Hpopup & Hrun).
  assert (∃ l5, c5 = set_drawn (<[r := l5]> (drawn c)) c
                ∧ lclass l5 = lclass l ∧ latlngs l5 = latlngs l2
                ∧ options l5 = options l3 ∧ tooltip l5 = tooltip l4
                ∧ popup l5
                  = (if truthy (prop p "popup") then Some (prop p "popup") else None))
    as (l5 & -> & Hc5 & Hll5 & Ho5 & Ht5 & Hq4).
  { destruct (truthy (prop p "popup"));
      rewrite (on_layer_tracked _ _ _ _ _ Hl) in Hpopup; injection Hpopup as <-;
      (eexists; split; [reflexivity|]; by repeat split). }
  (* metadata *)
  rewrite (on_layer_tracked _ _ _ _ _ Hl) in Hrun. injection Hrun as <-.
  eexists. split; [reflexivity|].
  split; [|split; [done|]].
  - unfold settled. fold p g. cbn [lclass latlngs tooltip popup options set_opt set_options].
    rewrite Hc5, Hll5, Ht5, Hq3, Hq4, Ho5.
    split; [done|]. split; [|split; [done|split; [done|split; [done|]]]].
    + intros Hpoly. specialize (Hq2 Hpoly).
      destruct (style_from_keys p (lclass l)) as [_ Hkeys].
      rewrite Forall_forall in Hq2, Hkeys. apply Forall_forall.
      intros kv Hin. apply set_field_bound_other; auto.
    + apply set_field_bound.
  - rewrite opt_set_opt. simpl. unfold opt. by rewrite Ho5.
Qed.

Lemma on_layer_fixed r f l c :
  drawn c !! r = Some l → f l = l → on_layer r f c = (Ok tt, c).
Proof.
  intros Hl Hf. rewrite (on_layer_at _ _ _ _ Hl), Hf.
  by rewrite (insert_same _ _ _ Hl), set_drawn_same.
Qed.

Lemma edit_settled_noop feat r l c :
  let i := prop (prop feat "properties") "_id" in
  truthy i = true →
  find_last (drawn c) i 0 None = Some r → drawn c !! r = Some l →
  settled feat l →
  editFeatureFromRemote feat c = (Ok tt, c).
Proof.
  intros i Hi Hfound Hl (Hq1 & Hq2 & Hq3 & Hopens & Hq4 & Hq5).
  destruct (identified_feature feat Hi) as [Hfeat Hprops].
  unfold editFeatureFromRemote, getp. rewrite Hfeat.
  unfold bind at 1, ret at 1. rewrite Hprops.
  fold i. rewrite Hi. cbn [negb].
  unfold findLayerById. unfold bind at 1, gets at 1. rewrite Hfound.
  rewrite (bind_Ok _ _ _ _ _ (the_layer_at _ _ _ Hl)).
  set (p := or_else (prop feat "properties") (VObj [])) in *.
  set (g := prop feat "geometry") in *.
  assert (set_latlngs (latlngs l) l = l) as Hsame by (by destruct l).
  erewrite bind_Ok.
  2:{ destruct (instanceof_Polyline (lclass l) && truthy g); [|reflexivity].
      destruct (Hq1 eq_refl) as [Hline Hpoly].
      destruct (strict_eq (prop g "type") (VStr "LineString")).
      { rewrite (Hline eq_refl). by apply (on_layer_fixed _ _ l). }
      destruct (strict_eq (prop g "type") (VStr "Polygon")); [|reflexivity].
      rewrite (Hpoly eq_refl eq_refl). by apply (on_layer_fixed _ _ l). }
  erewrite bind_Ok.
  2:{ destruct (instanceof_Polyline (lclass l)); [|reflexivity].
      apply (on_layer_fixed _ _ l); [done|]. unfold setStyle.
      rewrite (object_assign_noop _ _ (Hq2 eq_refl)). by destruct l. }
  erewrite bind_Ok.
  2:{ destruct (truthy (prop p "label")).
      - unfold bindTooltip_open. erewrite bind_Ok.
        2:{ apply (on_layer_fixed _ _ l); [done|]. rewrite <- Hq3. by destruct l. }
        by rewrite (Hopens eq_refl).
      - apply (on_layer_fixed _ _ l); [done|]. rewrite <- Hq3. by destruct l. }
  erewrite bind_Ok.
  2:{ destruct (truthy (prop p "popup"));
        (apply (on_layer_fixed _ _ l); [done|]; rewrite <- Hq4; by destruct l). }
  apply (on_layer_fixed _ _ l); [done|]. unfold set_opt.
  rewrite (set_field_noop _ _ _ Hq5). by destruct l.
Qed.

(** X19 (a remote edit overwrites, and twice is once): when
    [editFeatureFromRemote] finds the layer of the feature's identifier
    and ends normally, only that layer has changed; it keeps its class and
    its identifier and shows what the feature says (positions, style,
    label, popup, metadata); applying the same feature again ends normally
    and changes nothing. *)
Theorem remote_edit_settles_the_layer (feat : value) (r : nat) (c c1 : State) :
  let i := prop (prop feat "properties") "_id" in
  truthy i = true →
  findLayerById i c = (Ok (Some r), c) →
  editFeatureFromRemote feat c = (Ok tt, c1) →
  (∃ l l1, drawn c !! r = Some l
           ∧ c1 = set_drawn (<[r := l1]> (drawn c)) c
           ∧ settled feat l1
           ∧ lclass l1 = lclass l ∧ opt l1 "_id" = opt l "_id")
  ∧ editFeatureFromRemote feat c1 = (Ok tt, c1).
Proof.
  intros i Hi Hfound Hrun.
  unfold findLayerById, gets in Hfound. injection Hfound as Hfound.
  pose proof (find_last_found (drawn c) i) as Hlast. rewrite Hfound in Hlast.
  destruct Hlast as (l & Hl & _).
  destruct (edit_settles feat r l c c1 Hi Hfound Hl Hrun)
    as (l1 & -> & Hsettled & Hclass & Hid).
  split; [by exists l, l1|].
  eapply edit_settled_noop; [done| | |done].
  - simpl. by rewrite (find_last_insert _ _ l).
  - simpl. by eapply lookup_insert_at.
Qed.

End Editing.

(** *** Splitting at commas *)

Lemma append_cons x a b : String x a +:+ b = String x (a +:+ b).
Proof. reflexivity. Qed.

Lemma append_empty a : a +:+ "" = a.
Proof. induction a as [|x a IH]; [done|]. by rewrite append_cons, IH. Qed.

Lemma append_snoc a c rest : (a +:+ String c "") +:+ rest = a +:+ String c rest.
Proof. induction a as [|x a IH]; [done|]. by rewrite !append_cons, IH. Qed.

Lemma split_comma_from_free acc s :
  has_comma s = false → split_comma_from acc s = [acc +:+ s].
Proof.
  revert acc. induction s as [|c rest IH]; intros acc; simpl.
  - intros _. by rewrite append_empty.
  - intros [Hc Hrest]%orb_false_iff. rewrite Hc, IH by done.
    by rewrite append_snoc.
Qed.

Lemma split_comma_from_comma acc s1 s2 :
  has_comma s1 = false →
  split_comma_from acc (s1 +:+ "," +:+ s2)
  = (acc +:+ s1) :: split_comma_from "" s2.
Proof.
  revert acc. induction s1 as [|c rest IH]; intros acc.
  - intros _. change ("" +:+ "," +:+ s2) with (String "," s2). simpl.
    by rewrite append_empty.
  - simpl. intros [Hc Hrest]%orb_false_iff.
    rewrite append_cons. simpl. rewrite Hc, IH by done.
    by rewrite append_snoc.
Qed.

Lemma split_comma_pair s1 s2 :
  has_comma s1 = false → has_comma s2 = false →
  split_comma (s1 +:+ "," +:+ s2) = [s1; s2].
Proof.
  intros H1 H2. unfold split_comma.
  rewrite split_comma_from_comma, split_comma_from_free by done. done.
Qed.

Section Icons.
Context {Lf : Leaflet} {Br : Browser}.

Lemma setMarkerIcon_pair iconName colour m :
  has_comma iconName = false → has_comma colour = false →
  opt (setMarkerIcon (iconName +:+ "," +:+ colour) m) "_am"
  = VObj [("iconName", VStr iconName); ("color", VStr colour)].
Proof.
  intros H1 H2. unfold setMarkerIcon. rewrite split_comma_pair by done.
  by rewrite opt_set_opt.
Qed.

(** The properties [collectGeoJSON] writes for a marker with an icon. *)
Lemma style_props_marker l fs :
  lclass l = Marker → truthy (opt l "_am") = true →
  ∃ fs', style_props l (VObj fs) = VObj fs' ∧ own fs' "_am" = opt l "_am".
Proof.
  intros Hcls Ham. unfold style_props. rewrite Hcls, Ham. cbn [instanceof_Polyline
    instanceof_Marker andb].
  destruct (tooltip l), (popup l); simpl; eexists; (split; [reflexivity|]);
    by rewrite own_set_field.
Qed.

(** X20 (the icon of a marker survives a snapshot): for an icon name
    and a colour without commas, the colour not empty, [setMarkerIcon]
    stores the pair on the marker, [collectGeoJSON] writes it in the
    properties of the marker's feature, and [pointToLayer] puts the same
    pair on the marker it builds from that feature. *)
Theorem marker_icon_round_trip (iconName colour : string) (m m' : Layer) :
  has_comma iconName = false → has_comma colour = false → colour ≠ "" →
  lclass m = Marker → feature m = VUndefined →
  let icon := VObj [("iconName", VStr iconName); ("color", VStr colour)] in
  let marked := setMarkerIcon (iconName +:+ "," +:+ colour) m in
  let saved := jsonable (collect_layer marked).1 in
  opt marked "_am" = icon
  ∧ prop (prop saved "properties") "_am" = icon
  ∧ opt (pointToLayer saved m') "_am" = icon.
Proof.
  intros H1 H2 Hcolour Hcls Hlocal icon marked saved.
  assert (opt marked "_am" = icon) as Hicon by (by apply setMarkerIcon_pair).
  assert (prop (prop saved "properties") "_am" = icon) as Hsaved.
  { unfold saved, collect_layer, toGeoJSON. cbn [fst].
    change (feature marked) with (feature m). rewrite Hlocal.
    unfold props_of. cbn [prop own String.eqb Ascii.eqb Bool.eqb or_else truthy].
    destruct (style_props_marker marked [] Hcls) as (fs' & -> & Hown);
      [by rewrite Hicon|].
    unfold put_props, set_prop. cbn [set_field String.eqb Ascii.eqb Bool.eqb].
    rewrite prop_jsonable; cbn [own String.eqb Ascii.eqb Bool.eqb]; [|done].
    rewrite prop_jsonable; rewrite Hown, Hicon; done. }
  split; [done|]. split; [done|].
  unfold pointToLayer.
  assert (truthy (prop saved "properties") = true) as ->.
  { destruct (prop saved "properties"); try done. }
  rewrite Hsaved. cbn [truthy andb icon prop own String.eqb Ascii.eqb Bool.eqb to_string].
  unfold or_else. rewrite (truthy_string _ Hcolour). cbn [to_string].
  by apply setMarkerIcon_pair.
Qed.

End Icons.

Section Metadata.
Context {Lf : Leaflet} {Br : Browser}.

(** X21: [updateMetaOnEdit] changes the layer it is given and no
    other; the layer keeps its identifier, its class and its positions,
    and the author and the time of its creation; the author and the time
    of the update are the client's name and the time of the call. *)
Theorem local_edit_keeps_identity (r : nat) (l : Layer) (c : State) :
  drawn c !! r = Some l →
  ∃ l' c',
    updateMetaOnEdit r c = (Ok tt, c')
    ∧ drawn c' = <[r := l']> (drawn c)
    ∧ opt l' "_id" = opt l "_id" ∧ shape l' = shape l
    ∧ prop (opt l' "_meta") "updatedBy" = VStr (name (my c))
    ∧ prop (opt l' "_meta") "updatedAt" = VStr (iso_at (clock c))
    ∧ (∀ fs, opt l "_meta" = VObj fs →
         prop (opt l' "_meta") "createdBy" = own fs "createdBy"
         ∧ prop (opt l' "_meta") "createdAt" = own fs "createdAt").
Proof.
  intros Hl. unfold updateMetaOnEdit.
  unfold bind at 1, now at 1. unfold bind at 1, gets at 1.
  erewrite bind_Ok by (apply the_layer_at; simpl; exact Hl).
  erewrite on_layer_at by (simpl; exact Hl).
  eexists _, _. split; [reflexivity|]. split; [reflexivity|].
  rewrite !opt_set_opt. simpl. split; [done|]. split; [done|].
  unfold object_assign. simpl. rewrite !own_set_field. simpl.
  split; [done|]. split; [done|].
  intros fs Hmeta. rewrite Hmeta. simpl. by rewrite ?own_set_field.
Qed.

End Metadata.

Lemma bound_to_own fs k x : bound_to fs k x → own fs k = x.
Proof.
  induction fs as [|[k0 v] rest IH]; simpl; [done|].
  by destruct (String.eqb k0 k).
Qed.

Section Propagating.
Context {Lf : Leaflet} {Br : Browser}.

Lemma updateMetaOnEdit_at r l c :
  drawn c !! r = Some l →
  ∃ l' c',
    updateMetaOnEdit r c = (Ok tt, c')
    ∧ beside_store c' = beside_store c
    ∧ drawn c' !! r = Some l'
    ∧ feature l' = feature l ∧ lclass l' = lclass l
    ∧ opt l' "_id" = opt l "_id" ∧ opt l' "color" = opt l "color".
Proof.
  intros Hl. unfold updateMetaOnEdit.
  unfold bind at 1, now at 1. unfold bind at 1, gets at 1.
  erewrite bind_Ok by (apply the_layer_at; simpl; exact Hl).
  erewrite on_layer_at by (simpl; exact Hl).
  eexists _, _. split; [reflexivity|]. split; [done|]. simpl.
  split; [by eapply lookup_insert_at|].
  by rewrite !opt_set_opt.
Qed.

Lemma applying_remote_Ok_inv apply c c' :
  applying_remote apply c = (Ok tt, c') →
  ∃ c1, apply (set_isRemoteApplying true c) = (Ok tt, c1)
        ∧ c' = set_isRemoteApplying false c1.
Proof.
  unfold applying_remote, try_finally, bind, modify. simpl.
  destruct (apply _) as [[[]|e] c1]; [|done].
  intros [= <-]. by exists c1.
Qed.

(** X26 (an edit reaches the peer): [sendEdit] of a layer drawn
    locally that has a string identifier sends one message and keeps the
    identifier; at every other client in the same room that has a layer
    with this identifier and for which [ws.onmessage] of the message ends
    normally, only that layer has changed: it keeps its class and its
    identifier and shows what the feature of the message says, and when
    both layers are lines or polygons it has the colour of the sender's
    layer. *)
Theorem edit_reaches_the_peer (r : nat) (l : Layer) (i : string) (a : State) :
  isRemoteApplying a = false → connected a = true → wsOpen a = true →
  id (my a) ≠ "" →
  drawn a !! r = Some l → feature l = VUndefined →
  opt l "_id" = VStr i → i ≠ "" →
  ∃ msg a',
    sendEdit (Some r) a = (Ok tt, a')
    ∧ sent a' = sent a ++ [Json msg]
    ∧ (∃ l', drawn a' !! r = Some l' ∧ opt l' "_id" = VStr i)
    ∧ ∀ b r' b',
        room b = room a → id (my b) ≠ id (my a) →
        findLayerById (VStr i) b = (Ok (Some r'), b) →
        onmessage (Json msg) b = (Ok tt, b') →
        ∃ l0 l1,
          drawn b !! r' = Some l0
          ∧ drawn b' = <[r' := l1]> (drawn b)
          ∧ opt l1 "_id" = VStr i ∧ lclass l1 = lclass l0
          ∧ settled (prop msg "feature") l1
          ∧ (∀ colour, instanceof_Polyline (lclass l) = true →
                       instanceof_Polyline (lclass l0) = true →
                       opt l "color" = VStr colour → colour ≠ "" →
                       opt l1 "color" = VStr colour).
Proof.
  intros Hflag Hon Hopen Hme Hl Hlocal Hid Hi.
  destruct (updateMetaOnEdit_at r l a Hl)
    as (l1 & a1 & Hrun1 & Hrest1 & Hl1 & Hf1 & Hc1 & Hid1 & Hcol1).
  assert (truthy (opt l1 "_id") = true) as Htruthy1
    by (rewrite Hid1, Hid; by apply truthy_string).
  destruct (toSingleGeoJSON_local r l1 a1 Hl1 Htruthy1 ltac:(congruence))
    as (gj & a2 & Hrun2 & Hrest2 & Hd2 & fs & -> & Hcarries & Hstroke).
  rewrite Hid1, Hid in Hcarries. rewrite Hc1, Hcol1 in Hstroke.
  assert (beside_store a2 = beside_store a) as Hrest by congruence.
  destruct (beside_store_link _ _ Hrest) as (Hon2 & Hopen2 & Hroom2 & Hmy2 & Hsent2 & _).
  set (msg := outgoing "feature:edit" [("feature", VObj fs)] a2).
  exists msg, (set_sent (sent a2 ++ [Json msg]) a2).
  split; [|split; [|split]].
  - unfold sendEdit. unfold bind at 1, gets at 1. rewrite Hflag.
    rewrite (bind_Ok _ _ _ _ _ Hrun1), (bind_Ok _ _ _ _ _ Hrun2).
    apply send_connected; congruence.
  - simpl. by rewrite Hsent2.
  - exists l1. simpl. rewrite Hd2. split; [done|congruence].
  - intros b r' b' Hsame Hother Hfound Hrun.
    destruct (outgoing_envelope "feature:edit" [("feature", VObj fs)] a2)
      as (Hmsg & Hrm & Hus); [set_solver..|]. fold msg in Hmsg, Hrm, Hus.
    destruct (outgoing_feature "feature:edit" fs a2) as (Hty & Hfeat & Hprop).
    fold msg in Hty, Hfeat, Hprop.
    pose proof (Hprop _ _ Hcarries) as Hpid.
    rewrite (onmessage_peer msg b (id (my a))) in Hrun;
      [|done|by rewrite Hrm, Hroom2, Hsame|by rewrite Hus, Hmy2|done].
    assert (remote_feature_message msg = true) as Hfeature.
    { assert (prop (prop msg "user") "id" = VStr (id (my a))) as Huid
        by (by rewrite Hus, Hmy2).
      assert (truthy (prop msg "user") = true) as Htu by (by rewrite Hus).
      unfold remote_feature_message.
      rewrite Hmsg, Htu, Huid, Hty, Hfeat.
      rewrite (truthy_string _ Hme). done. }
    destruct (handle_feature_message msg b Hfeature) as (b1 & _ & Hd & _ & Hhandle).
    rewrite Hhandle in Hrun. unfold remote_operation in Hrun. rewrite Hty in Hrun.
    change (is_type (VStr "feature:edit") "feature:add") with false in Hrun.
    change (is_type (VStr "feature:edit") "feature:edit") with true in Hrun.
    cbv iota in Hrun.
    apply applying_remote_Ok_inv in Hrun as (b2 & Hedit & ->).
    unfold findLayerById, gets in Hfound. injection Hfound as Hfound.
    pose proof (find_last_found (drawn b) (VStr i)) as Hlast.
    rewrite Hfound in Hlast. destruct Hlast as (l0 & Hl0 & _).
    destruct (edit_settles (prop msg "feature") r' l0 (set_isRemoteApplying true b1) b2)
      as (l2 & -> & Hsettled & Hclass & Hid2);
      [by rewrite Hpid; apply truthy_string
      |by rewrite Hpid; simpl; rewrite Hd
      |by simpl; rewrite Hd
      |exact Hedit|].
    exists l0, l2. simpl. rewrite Hd. split; [done|]. split; [done|].
    assert (strict_eq (opt l0 "_id") (VStr i) = true) as Hsame_id.
    { pose proof (find_last_found (drawn b) (VStr i)) as Hlast.
      rewrite Hfound in Hlast. destruct Hlast as (l0' & Hl0' & Hmatch & _).
      congruence. }
    apply strict_eq_string_object in Hsame_id.
    split; [congruence|]. split; [done|]. split; [done|].
    intros colour Hline Hline0 Hcolour Hne.
    destruct Hsettled as (_ & Hstyle & _).
    rewrite Hclass in Hstyle. specialize (Hstyle Hline0).
    assert (prop (prop (prop msg "feature") "properties") "stroke" = VStr colour)
      as Hstroke'.
    { apply Hprop. specialize (Hstroke Hline).
      rewrite Hcolour in Hstroke. unfold or_else in Hstroke.
      by rewrite (truthy_string _ Hne) in Hstroke. }
    assert (truthy (prop (prop msg "feature") "properties") = true) as Hprops.
    { by destruct (prop (prop msg "feature") "properties"). }
    unfold or_else in Hstyle at 1. rewrite Hprops in Hstyle.
    unfold style_from in Hstyle. rewrite Hstroke' in Hstyle.
    assert (bound_to (options l2) "color" (VStr colour)) as Hbound.
    { destruct (instanceof_Polygon (lclass l0));
        apply Forall_cons in Hstyle as [Hfirst _];
        simpl in Hfirst; unfold or_else in Hfirst;
        by rewrite (truthy_string _ Hne) in Hfirst. }
    by apply bound_to_own.
Qed.

End Propagating.

(** ** The theorems at work, with the small Leaflet *)

Section AtWork.
Import Simple Samples.
#[local] Existing Instance leaflet.
#[local] Existing Instance browser.

Lemma handle_records_sender_witness :
  ∃ p, (participants_get (VStr "peer") (handle cursor_message client).2).1
       = Ok (Some p)
       ∧ p_name p = VStr "Ann" ∧ p_color p = VStr "red".
Proof.
  exact (handle_records_sender (Lf := leaflet) (Br := browser)
           cursor_message "peer" client eq_refl ltac:(done) ltac:(done)).
Defined.

Lemma other_messages_leave_the_store_witness :
  (handle cursor_message client).2
  = set_participants (participants (handle cursor_message client).2) client.
Proof.
  exact (other_messages_leave_the_store (Lf := leaflet) (Br := browser)
           cursor_message client eq_refl).
Defined.


Lemma history_stays_within_limit_witness :
  1 ≤ length (undoStack (undo (snapshot client).2).2)
  ∧ 1 ≤ length (undoStack (redo (snapshot client).2).2).
Proof.
  destruct (history_stays_within_limit (Lf := leaflet) (Br := browser)
              (snapshot client).2 ltac:(vm_compute; lia) ltac:(vm_compute; lia))
    as (_ & [_ Hundo] & [_ Hredo]).
  by split.
Defined.

Lemma undo_then_redo_restores_stacks_witness :
  let c := (snapshot (snapshot one_feature).2).2 in
  undoStack (redo (undo c).2).2 = undoStack c
  ∧ redoStack (redo (undo c).2).2 = redoStack c.
Proof.
  intros c.
  destruct (undo_then_redo_restores_stacks (Lf := leaflet) (Br := browser)
              c ltac:(vm_compute; reflexivity)) as (Hundo & Hredo & _).
  by split.
Defined.

Lemma commit_discards_redo_witness :
  redo (snapshot one_feature).2 = (Ok tt, (snapshot one_feature).2).
Proof.
  exact (proj1 (proj2 (commit_discards_redo (Lf := leaflet) (Br := browser)
                         one_feature eq_refl))).
Defined.

Lemma sent_message_is_scoped_witness :
  ∃ msg,
    send "cursor" [("latlng", VArr [VNum 1; VNum 2])] client
    = (Ok tt, set_sent [Json msg] client)
    ∧ onmessage (Json msg) client = (Ok tt, client).
Proof.
  destruct (sent_message_is_scoped (Lf := leaflet) (Br := browser)
              "cursor" [("latlng", VArr [VNum 1; VNum 2])] client
              eq_refl eq_refl ltac:(simpl; set_solver) ltac:(simpl; set_solver))
    as (msg & Hsend & Hecho & _).
  exists msg. split; [exact Hsend|]. by apply Hecho.
Defined.

Lemma removal_reaches_the_peer_witness :
  ∃ msg,
    sendRemove (Some 0) drawing = (Ok tt, set_sent [Json msg] drawing)
    ∧ ∀ b, room b = "demo" → id (my b) ≠ "me" →
        (onmessage (Json msg) b).1 = Ok tt
        ∧ drawn (onmessage (Json msg) b).2
          = match find_last (drawn b) (VStr "f_local") 0 None with
            | Some r' => delete r' (drawn b)
            | None => drawn b
            end.
Proof.
  exact (removal_reaches_the_peer (Lf := leaflet) (Br := browser)
           0 local_line "f_local" drawing eq_refl eq_refl eq_refl
           ltac:(done) eq_refl eq_refl ltac:(done)).
Defined.


Lemma added_layer_reaches_the_peer_witness :
  ∃ msg a' l1 i,
    sendAdd 0 drawing = (Ok tt, a')
    ∧ sent a' = [Json msg]
    ∧ drawn a' !! 0 = Some l1 ∧ opt l1 "_id" = VStr i ∧ i ≠ ""
    ∧ VStr "f_local" = VStr i.
Proof.
  destruct (added_layer_reaches_the_peer (Lf := leaflet) (Br := browser)
              0 local_line drawing eq_refl eq_refl eq_refl ltac:(done)
              eq_refl eq_refl (λ _, eq_refl))
    as (msg & a' & l1 & i & Hsend & Hsent & Hl1 & Hid & Hi & Hkept & _).
  exists msg, a', l1, i. repeat split; try done. exact (Hkept eq_refl).
Defined.

Lemma remote_edit_settles_the_layer_witness :
  let c1 := (editFeatureFromRemote recoloured one_feature).2 in
  editFeatureFromRemote recoloured c1 = (Ok tt, c1).
Proof.
  intros c1.
  exact (proj2 (remote_edit_settles_the_layer (Lf := leaflet) (Br := browser)
                  recoloured 0 one_feature c1 eq_refl
                  ltac:(vm_compute; reflexivity) ltac:(vm_compute; reflexivity))).
Defined.

Lemma marker_icon_round_trip_witness :
  let icon := VObj [("iconName", VStr "fa-star"); ("color", VStr "#d33")] in
  let marked := setMarkerIcon "fa-star,#d33" pin in
  opt marked "_am" = icon
  ∧ opt (pointToLayer (jsonable (collect_layer marked).1) pin) "_am" = icon.
Proof.
  intros icon marked.
  destruct (marker_icon_round_trip (Lf := leaflet) (Br := browser)
              "fa-star" "#d33" pin pin eq_refl eq_refl ltac:(done) eq_refl eq_refl)
    as (Hset & _ & Hback).
  split; [exact Hset | exact Hback].
Defined.

Lemma local_edit_keeps_identity_witness :
  ∃ l' c',
    updateMetaOnEdit 0 drawing = (Ok tt, c')
    ∧ drawn c' = [l']
    ∧ opt l' "_id" = VStr "f_local"
    ∧ prop (opt l' "_meta") "updatedBy" = VStr "Me".
Proof.
  destruct (local_edit_keeps_identity (Br := browser)
              0 local_line drawing eq_refl)
    as (l' & c' & Hrun & Hdrawn & Hid & _ & Hby & _).
  exists l', c'. by repeat split.
Defined.

Lemma edit_reaches_the_peer_witness :
  ∃ msg a',
    sendEdit (Some 0) drawing = (Ok tt, a')
    ∧ sent a' = [Json msg]
    ∧ ∃ l', drawn a' !! 0 = Some l' ∧ opt l' "_id" = VStr "f_local".
Proof.
  destruct (edit_reaches_the_peer (Lf := leaflet) (Br := browser)
              0 local_line "f_local" drawing eq_refl eq_refl eq_refl
              ltac:(done) eq_refl eq_refl eq_refl ltac:(done))
    as (msg & a' & Hsend & Hsent & Hkept & _).
  by exists msg, a'.
Defined.

End AtWork.

End ClientMore.

Module FreehandFacts.
Import JS Client Frames Store Freehand ClientFacts ClientMore.
Local Open Scope script_scope.

Section Script.
Context {Lf : Leaflet} {Gr : Ground}.
Variable inputs : Inputs.

Local Abbreviation applyStyle := (Freehand.applyStyle inputs).
Local Abbreviation applyText := (Freehand.applyText inputs).
Local Abbreviation commit_line := (Freehand.commit_line inputs).
Local Abbreviation startFreehand := (Freehand.startFreehand inputs).
Local Abbreviation moveFreehand := (Freehand.moveFreehand inputs).
Local Abbreviation endFreehand := (Freehand.endFreehand inputs).
Local Abbreviation setFreehandEnabled := (Freehand.setFreehandEnabled inputs).
Local Abbreviation pen_step := (Freehand.pen_step inputs).
Local Abbreviation pen_run := (Freehand.pen_run inputs).

(** *** The pen sends nothing *)

Lemma keeps_sent_snapshot : keeps sent snapshot.
Proof.
  unfold snapshot, updateUndoRedoUI. keep. by intros c.
Qed.

Lemma keeps_sent_commit_line pts : keeps sent (commit_line pts).
Proof.
  unfold Freehand.commit_line, Freehand.applyStyle, Freehand.applyText,
    bindTooltip_open, on_layer.
  keep; try apply keeps_sent_snapshot.
  - by intros c.
  - intros c. unfold the_layer. by destruct (drawn c !! _).
Qed.

(** The line [endFreehand] makes. *)
Lemma commit_line_draws pts c :
  isRestoring c = false →
  (truthy (VStr (labelText inputs)) = true →
   opensTooltip (VStr (labelText inputs)) = true) →
  ∃ line,
    commit_line pts c
    = snapshot (set_drawn (drawn c ++ [line]) c)
    ∧ lclass line = Polyline ∧ latlngs line = VArr pts
    ∧ feature line = VUndefined
    ∧ opt line "color" = VStr (strokeColor inputs)
    ∧ opt line "_id" = own path_options "_id"
    ∧ tooltip line = (if truthy (VStr (labelText inputs))
                      then Some (VStr (labelText inputs)) else None)
    ∧ popup line = (if truthy (VStr (popupText inputs))
                    then Some (VStr (popupText inputs)) else None).
Proof.
  intros Hr Hopens. unfold Freehand.commit_line.
  unfold bind at 1, attachCommon at 1.
  set (c0 := set_drawn (drawn c ++ [L_polyline pts]) c).
  unfold Freehand.applyStyle.
  rewrite (bind_assoc (the_layer _)).
  rewrite (bind_Ok _ _ _ _ _ (the_layer_last (drawn c) _ c0 eq_refl)).
  cbn [lclass L_polyline instanceof_Polyline instanceof_Polygon].
  erewrite (bind_Ok _ _ _ _ _ (on_layer_last (drawn c) _ _ c0 eq_refl)).
  set (l1 := setStyle _ _). set (c1 := set_drawn _ c0).
  unfold Freehand.applyText. rewrite bind_assoc.
  assert (∃ l2, (if truthy (VStr (labelText inputs))
                 then bindTooltip_open (length (drawn c)) (VStr (labelText inputs))
                 else on_layer (length (drawn c)) (set_tooltip None)) c1
                = (Ok tt, set_drawn (drawn c ++ [l2]) c1)
                ∧ options l2 = options l1 ∧ lclass l2 = lclass l1
                ∧ latlngs l2 = latlngs l1 ∧ feature l2 = feature l1
                ∧ popup l2 = popup l1
                ∧ tooltip l2 = (if truthy (VStr (labelText inputs))
                                then Some (VStr (labelText inputs)) else None))
    as (l2 & Hlabel & Ho2 & Hc2 & Hll2 & Hf2 & Hp2 & Ht2).
  { destruct (truthy (VStr (labelText inputs))) eqn:Hlab.
    - unfold bindTooltip_open.
      erewrite (bind_Ok _ _ _ _ _ (on_layer_last (drawn c) _ _ c1 eq_refl)).
      rewrite (Hopens eq_refl). eexists. split; [reflexivity|]. by repeat split.
    - erewrite (on_layer_last (drawn c) _ _ c1 eq_refl).
      eexists. split; [reflexivity|]. by repeat split. }
  rewrite (bind_Ok _ _ _ _ _ Hlabel). set (c2 := set_drawn _ c1).
  assert (∃ l3, (if truthy (VStr (popupText inputs))
                 then on_layer (length (drawn c))
                        (set_popup (Some (VStr (popupText inputs))))
                 else on_layer (length (drawn c)) (set_popup None)) c2
                = (Ok tt, set_drawn (drawn c ++ [l3]) c2)
                ∧ options l3 = options l2 ∧ lclass l3 = lclass l2
                ∧ latlngs l3 = latlngs l2 ∧ feature l3 = feature l2
                ∧ tooltip l3 = tooltip l2
                ∧ popup l3 = (if truthy (VStr (popupText inputs))
                              then Some (VStr (popupText inputs)) else None))
    as (l3 & Hpopup & Ho3 & Hc3 & Hll3 & Hf3 & Ht3 & Hp3).
  { destruct (truthy (VStr (popupText inputs)));
      erewrite (on_layer_last (drawn c) _ _ c2 eq_refl);
      (eexists; split; [reflexivity|]; by repeat split). }
  rewrite (bind_Ok _ _ _ _ _ Hpopup).
  assert (lclass l1 = Polyline ∧ latlngs l1 = VArr pts ∧ feature l1 = VUndefined
          ∧ popup l1 = None) as (Hc1 & Hll1 & Hf1 & Hp1) by done.
  exists l3. split; [reflexivity|].
  split; [congruence|]. split; [congruence|]. split; [congruence|].
  assert (opt l3 "color" = VStr (strokeColor inputs)
          ∧ opt l3 "_id" = own path_options "_id") as [Hcolour Hid].
  { unfold opt. rewrite Ho3, Ho2. unfold l1, setStyle, object_assign. simpl.
    by rewrite !own_set_field. }
  split; [done|]. split; [done|]. split; congruence.
Qed.

(** X27 (a stroke becomes a line): when a stroke of at least two
    points ends by pointer-up and the label of the page can be opened,
    [endFreehand] ends normally and resets the pen; the store has one
    layer more, a line through the points of the stroke with the stroke
    colour and the label of the page; the line has no identifier of its
    own and nothing is sent; the commit is on top of the undo stack and the
    redo stack is empty. *)
Theorem stroke_becomes_a_line (p : Pen) (c : State) :
  fhDrawing p = true → 1 < length (fhPts p) → isRestoring c = false →
  (truthy (VStr (labelText inputs)) = true →
   opensTooltip (VStr (labelText inputs)) = true) →
  ∃ line c',
    endFreehand false p c
    = (Ok tt, {| fhEnabled := fhEnabled p; fhDrawing := false;
                 fhPointerId := None; fhPts := [] |}, c')
    ∧ drawn c' = map snd (map collect_layer (drawn c)) ++ [line]
    ∧ lclass line = Polyline ∧ latlngs line = VArr (fhPts p)
    ∧ opt line "color" = VStr (strokeColor inputs)
    ∧ tooltip line = (if truthy (VStr (labelText inputs))
                      then Some (VStr (labelText inputs)) else None)
    ∧ opt line "_id" = own path_options "_id"
    ∧ sent c' = sent c
    ∧ undoStack c' = pushed (undoStack c) (Json (captured (drawn c ++ [line])))
    ∧ redoStack c' = [].
Proof.
  intros Hdrawing Hpts Hr Hopens.
  destruct (commit_line_draws (fhPts p) c Hr Hopens)
    as (line & Hrun & Hcls & Hll & Hfeat & Hcol & Hid & Htip & _).
  unfold Freehand.endFreehand. rewrite Hdrawing. cbn [negb andb].
  rewrite bool_decide_eq_true_2 by done.
  rewrite Hrun, snapshot_commits by done.
  exists line. eexists. split; [reflexivity|].
  cbn [drawn set_drawn set_redoStack set_undoStack undoStack redoStack sent].
  rewrite !map_app. cbn [map].
  assert ((collect_layer line).2 = line) as ->.
  { unfold collect_layer, share_props. simpl. by rewrite Hfeat. }
  by repeat split.
Qed.

(** A stroke in progress has its points and its pointer. *)
Local Abbreviation stroke_in_hand p :=
  (fhDrawing p = true →
   fhEnabled p = true ∧ fhPts p ≠ [] ∧ is_Some (fhPointerId p)).

Lemma endFreehand_stops cancel p c :
  fhDrawing (endFreehand cancel p c).1.2 = false.
Proof.
  unfold Freehand.endFreehand. destruct (fhDrawing p) eqn:Hd; simpl; [|done].
  destruct (negb cancel && _); [|done].
  by destruct (commit_line _ c) as [[[]|e] c'].
Qed.

Lemma endFreehand_sends_nothing cancel p c :
  sent (endFreehand cancel p c).2 = sent c.
Proof.
  unfold Freehand.endFreehand. destruct (fhDrawing p); simpl; [|done].
  destruct (negb cancel && _); [|done].
  pose proof (keeps_sent_commit_line (fhPts p) c) as Hsent.
  by destruct (commit_line _ c) as [[[]|e] c'].
Qed.

Lemma pen_step_in_hand ev p c :
  stroke_in_hand p → stroke_in_hand (pen_step ev p c).1.2.
Proof.
  intros Hinv. destruct ev as [e|e|e|e|on]; simpl.
  - unfold Freehand.startFreehand. destruct (fhEnabled p) eqn:Hon; simpl. 2:{ intros Hd. by destruct (Hinv Hd). }
    destruct (_ && _ && _).
    { intros Hd. destruct (Hinv Hd) as (_ & ? & ?). by repeat split. }
    simpl. intros _. split; [done|]. split; [done|eauto].
  - unfold Freehand.moveFreehand. destruct (_ || _); [done|].
    destruct (last (fhPts p)) as [l|]; [destruct (_ || _)|]; simpl; try done.
    all: intros Hd; destruct (Hinv Hd) as (Hon & _ & Hp); split; [done|].
    all: split; [|done]; by destruct (fhPts p).
  - case_bool_decide; [|done].
    intros Hd. by rewrite endFreehand_stops in Hd.
  - case_bool_decide; [|done].
    intros Hd. by rewrite endFreehand_stops in Hd.
  - unfold Freehand.setFreehandEnabled. cbn [fhDrawing].
    destruct on; simpl.
    + intros Hd. destruct (Hinv Hd) as (_ & Hpts & Hp). by repeat split.
    + destruct (fhDrawing p) eqn:Hdrawing; [|done].
      intros Hd. by rewrite endFreehand_stops in Hd.
Qed.

Lemma pen_step_sends_nothing ev p c : sent (pen_step ev p c).2 = sent c.
Proof.
  destruct ev as [e|e|e|e|on]; simpl; try done.
  - case_bool_decide; [apply endFreehand_sends_nothing|done].
  - case_bool_decide; [apply endFreehand_sends_nothing|done].
  - unfold Freehand.setFreehandEnabled. destruct (negb on && _); [|done].
    apply endFreehand_sends_nothing.
Qed.

Lemma pen_run_in_hand evs p c :
  stroke_in_hand p →
  stroke_in_hand (pen_run evs p c).1 ∧ sent (pen_run evs p c).2 = sent c.
Proof.
  revert p c. induction evs as [|ev evs IH]; intros p c Hinv; [done|].
  cbn [Freehand.pen_run].
  pose proof (pen_step_in_hand ev p c Hinv) as Hstep.
  pose proof (pen_step_sends_nothing ev p c) as Hsent.
  destruct (pen_step ev p c) as [[r p'] c']. simpl in *.
  destruct (IH p' c' Hstep) as [Hp Hs]. split; [done|congruence].
Qed.

(** X28: after any sequence of pointer events and button clicks from
    the idle pen, a stroke in progress has freehand enabled, at least one
    point and a pointer; and whatever the pen did, it sent nothing. *)
Theorem pen_holds_its_stroke (evs : list PenEvent) (c : State) :
  let p := (pen_run evs idle c).1 in
  (fhDrawing p = true →
   fhEnabled p = true ∧ fhPts p ≠ [] ∧ is_Some (fhPointerId p))
  ∧ sent (pen_run evs idle c).2 = sent c.
Proof. apply pen_run_in_hand. done. Qed.

(** X29 (only a finished stroke draws): a pen event other than the
    pointer-up of the drawing pointer on a stroke of at least two points
    ends normally and leaves the state of the client as it is; the
    cancelling of the drawing pointer and the switching off of freehand
    while a stroke is drawn reset the pen. *)
Theorem only_a_finished_stroke_draws (ev : PenEvent) (p : Pen) (c : State) :
  (∀ e, ev = Up e →
        fhDrawing p && bool_decide (fhPointerId p = Some (pointerId e))
        && bool_decide (1 < length (fhPts p)) = false) →
  pen_step ev p c = (Ok tt, (pen_step ev p c).1.2, c)
  ∧ (∀ e, (ev = Cancel e ∧ fhPointerId p = Some (pointerId e))
          ∨ ev = Switch false →
          fhDrawing p = true →
          (pen_step ev p c).1.2
          = {| fhEnabled := (if ev is Switch _ then false else fhEnabled p);
               fhDrawing := false; fhPointerId := None; fhPts := [] |}).
Proof.
  intros Hnot. split.
  - destruct (pen_step ev p c) as [[r p'] c'] eqn:Hstep. simpl.
    enough (r = Ok tt ∧ c' = c) as [-> ->] by done.
    assert (∀ cancel q, cancel = true ∨ bool_decide (1 < length (fhPts q)) = false
                        ∨ fhDrawing q = false →
                        endFreehand cancel q c = (r, p', c') → r = Ok tt ∧ c' = c)
      as Hend.
    { intros cancel q Hwhy. unfold Freehand.endFreehand.
      destruct (fhDrawing q); simpl; [|by intros [= <- <- <-]].
      destruct Hwhy as [-> | [-> | Hq]]; simpl; rewrite ?andb_false_r;
        try discriminate; by intros [= <- <- <-]. }
    destruct ev as [e|e|e|e|on]; simpl in Hstep.
    + by injection Hstep as <- <- <-.
    + by injection Hstep as <- <- <-.
    + specialize (Hnot e eq_refl).
      destruct (bool_decide (fhPointerId p = Some (pointerId e)));
        [|by injection Hstep as <- <- <-].
      apply (Hend false p); [|done].
      destruct (fhDrawing p); simpl in Hnot; auto.
    + destruct (bool_decide (fhPointerId p = Some (pointerId e)));
        [|by injection Hstep as <- <- <-].
      apply (Hend true p); auto.
    + unfold Freehand.setFreehandEnabled in Hstep.
      destruct (negb on && _); [|by injection Hstep as <- <- <-].
      eapply Hend; [|exact Hstep]. auto.
  - intros e [[-> Hp] | ->] Hd; simpl.
    + rewrite bool_decide_eq_true_2 by done.
      unfold Freehand.endFreehand. by rewrite Hd.
    + unfold Freehand.setFreehandEnabled, Freehand.endFreehand. simpl.
      by rewrite Hd.
Qed.

End Script.

Section PenAtWork.
Import Simple Samples.
#[local] Existing Instance leaflet.
#[local] Existing Instance browser.
#[local] Existing Instance ground.

Lemma stroke_becomes_a_line_witness :
  ∃ line c',
    Freehand.endFreehand page_inputs false two_points client
    = (Ok tt, {| fhEnabled := true; fhDrawing := false;
                 fhPointerId := None; fhPts := [] |}, c')
    ∧ drawn c' = [line]
    ∧ latlngs line = VArr [VArr [VNum 1; VNum 2]; VArr [VNum 3; VNum 4]]
    ∧ opt line "color" = VStr "#ff0000"
    ∧ opt line "_id" = VUndefined
    ∧ sent c' = [].
Proof.
  destruct (stroke_becomes_a_line (Lf := leaflet) (Gr := ground)
              page_inputs two_points client eq_refl ltac:(simpl; lia) eq_refl
              ltac:(discriminate))
    as (line & c' & Hrun & Hdrawn & _ & Hll & Hcol & _ & Hid & Hsent & _).
  by exists line, c'.
Defined.

Lemma only_a_finished_stroke_draws_witness :
  Freehand.pen_step page_inputs (Cancel pen_event) two_points client
  = (Ok tt, {| fhEnabled := true; fhDrawing := false;
               fhPointerId := None; fhPts := [] |}, client).
Proof.
  destruct (only_a_finished_stroke_draws (Lf := leaflet)
              (Gr := ground) page_inputs (Cancel pen_event) two_points client
              ltac:(discriminate)) as [Hsame Hreset].
  rewrite Hsame. by rewrite (Hreset pen_event (or_introl (conj eq_refl eq_refl)) eq_refl).
Defined.

End PenAtWork.
End FreehandFacts.

Module IdsFacts.
Import Ids.

Lemma each_byte (P : Z → bool) :
  forallb P (seqZ 0 256) = true → ∀ x, (0 ≤ x < 256)%Z → P x = true.
Proof.
  intros Hall x Hx. rewrite forallb_forall in Hall.
  apply Hall, list_elem_of_In, elem_of_seqZ. lia.
Qed.

Lemma hex2_digits x :
  (0 ≤ x < 256)%Z →
  ∃ hi lo, hex2 x = String hi (String lo "")
           ∧ is_hex hi = true ∧ is_hex lo = true
           ∧ hi = hex_digit (x / 16).
Proof.
  intros Hx. exists (hex_digit (x / 16)), (hex_digit (x mod 16)).
  pose proof (each_byte
    (λ x, String.eqb (hex2 x) (String (hex_digit (x / 16))
                                 (String (hex_digit (x mod 16)) ""))
          && is_hex (hex_digit (x / 16)) && is_hex (hex_digit (x mod 16)))
    ltac:(vm_compute; reflexivity) x Hx) as Hcheck.
  apply andb_true_iff in Hcheck as [[Heq Hhi]%andb_true_iff Hlo].
  apply String.eqb_eq in Heq. done.
Qed.

Lemma version_byte x :
  (0 ≤ x < 256)%Z →
  (0 ≤ Z.lor (Z.land x 15) 64 < 256)%Z
  ∧ hex_digit (Z.lor (Z.land x 15) 64 / 16) = "4"%char.
Proof.
  intros Hx.
  pose proof (each_byte
    (λ x, let y := Z.lor (Z.land x 15) 64 in
          (0 <=? y)%Z && (y <? 256)%Z
          && Ascii.eqb (hex_digit (y / 16)) "4")
    ltac:(vm_compute; reflexivity) x Hx) as Hcheck.
  cbv zeta in Hcheck.
  apply andb_true_iff in Hcheck as [[Hlo Hhi]%andb_true_iff Hfour].
  apply Ascii.eqb_eq in Hfour. split; [lia|done].
Qed.

Lemma variant_byte x :
  (0 ≤ x < 256)%Z →
  (0 ≤ Z.lor (Z.land x 63) 128 < 256)%Z
  ∧ hex_digit (Z.lor (Z.land x 63) 128 / 16) ∈ ["8"; "9"; "a"; "b"]%char.
Proof.
  intros Hx.
  pose proof (each_byte
    (λ x, let y := Z.lor (Z.land x 63) 128 in
          (0 <=? y)%Z && (y <? 256)%Z
          && existsb (Ascii.eqb (hex_digit (y / 16))) ["8"; "9"; "a"; "b"]%char)
    ltac:(vm_compute; reflexivity) x Hx) as Hcheck.
  cbv zeta in Hcheck.
  apply andb_true_iff in Hcheck as [[Hlo Hhi]%andb_true_iff Hvar].
  split; [lia|].
  apply existsb_exists in Hvar as (c & Hin & Hc).
  apply Ascii.eqb_eq in Hc. subst c. by apply list_elem_of_In.
Qed.

(** X22: from 16 bytes, [uuidv4] gives a text of 36 characters, with
    a dash at positions 8, 13, 18 and 23 and a lowercase hexadecimal digit
    everywhere else, whose version digit (position 14) is 4 and whose
    variant digit (position 19) is 8, 9, a or b. *)
Theorem uuidv4_is_version_4 (a : list Z) :
  length a = 16 → Forall (λ x, (0 ≤ x < 256)%Z) a →
  let u := uuidv4 a in
  String.length u = 36
  ∧ (String.get 8 u = Some "-" ∧ String.get 13 u = Some "-"
     ∧ String.get 18 u = Some "-" ∧ String.get 23 u = Some "-")%char
  ∧ String.get 14 u = Some "4"%char
  ∧ (∃ c, String.get 19 u = Some c ∧ c ∈ ["8"; "9"; "a"; "b"]%char)
  ∧ Forall (λ c, c = "-"%char ∨ is_hex c = true) (list_ascii_of_string u).
Proof.
  intros Hlen Hbytes u.
  do 17 (destruct a as [|? a]; try discriminate Hlen).
  repeat match goal with
    | H : Forall _ (_ :: _) |- _ => apply Forall_cons in H as [? H]
    end.
  assert (u = String.concat ""
    [hex2 z; hex2 z0; hex2 z1; hex2 z2; "-" +:+ hex2 z3; hex2 z4;
     "-" +:+ hex2 (Z.lor (Z.land z5 15) 64); hex2 z6;
     "-" +:+ hex2 (Z.lor (Z.land z7 63) 128); hex2 z8;
     "-" +:+ hex2 z9; hex2 z10; hex2 z11; hex2 z12; hex2 z13; hex2 z14]) as ->
    by reflexivity.
  destruct (version_byte z5) as [Hv Hfour]; [done|].
  destruct (variant_byte z7) as [Hw Hvar]; [done|].
  destruct (hex2_digits _ Hv) as (hi6 & lo6 & -> & Hhi6 & Hlo6 & Hd6).
  rewrite Hfour in Hd6. subst hi6.
  destruct (hex2_digits _ Hw) as (hi8 & lo8 & -> & Hhi8 & Hlo8 & Hd8).
  rewrite <- Hd8 in Hvar. clear Hv Hw Hd8 Hfour.
  repeat match goal with
    | H : (0 ≤ ?x < 256)%Z |- context [hex2 ?x] =>
        let hi := fresh "hi" in let lo := fresh "lo" in
        let Hhi := fresh "Hhi" in let Hlo := fresh "Hlo" in
        let Hd := fresh "Hd" in
        destruct (hex2_digits x H) as (hi & lo & -> & Hhi & Hlo & Hd)
    end.
  split; [reflexivity|]. split; [by repeat split|].
  split; [reflexivity|].
  split; [by exists hi8|].
  repeat (constructor; [by auto|]). constructor.
Qed.

Lemma name_hash_snoc name code :
  name_hash (name ++ [code]) = ((name_hash name * 31 + code) mod 2 ^ 32)%Z.
Proof. unfold name_hash. by rewrite foldl_snoc. Qed.

Lemma name_hash_bound name : (0 ≤ name_hash name < 2 ^ 32)%Z.
Proof.
  induction name as [|code name _] using rev_ind; [done|].
  rewrite name_hash_snoc. apply Z.mod_pos_bound. done.
Qed.

(** X23: for every name, [colorFromName] gives [hsl(h 70% 55%)] with
    a hue [h] from 0 to 359; with UTF-16 code units, the number the loop
    hands to [>>>0] stays below 2^53 (so it is exact as a JavaScript
    number), and [>>>0] keeps its low 32 bits. *)
Theorem colorFromName_is_a_hue (name : list Z) :
  Forall (λ code, (0 ≤ code < 65536)%Z) name →
  (∃ h, (0 ≤ h < 360)%Z ∧ colorFromName name = "hsl(" +:+ pretty h +:+ " 70% 55%)")
  ∧ (∀ before code rest, name = before ++ code :: rest →
       (0 ≤ name_hash before * 31 + code < 2 ^ 53)%Z
       ∧ name_hash (before ++ [code])
         = Z.land (name_hash before * 31 + code) (Z.ones 32)).
Proof.
  intros Hcodes. split.
  - exists (Z.rem (name_hash name) 360). split; [|done].
    pose proof (name_hash_bound name).
    rewrite Z.rem_mod_nonneg by lia. apply Z.mod_pos_bound. done.
  - intros before code rest ->.
    apply Forall_app in Hcodes as [_ [Hcode _]%Forall_cons].
    pose proof (name_hash_bound before). split; [lia|].
    rewrite name_hash_snoc. by rewrite Z.land_ones.
Qed.

Lemma uuidv4_is_version_4_witness :
  let u := uuidv4 [0; 17; 34; 51; 68; 85; 102; 119; 136; 153; 170; 187; 204;
                   221; 238; 255]%Z in
  u = "00112233-4455-4677-8899-aabbccddeeff"
  ∧ String.length u = 36 ∧ String.get 14 u = Some "4"%char.
Proof.
  intros u. split; [reflexivity|].
  destruct (uuidv4_is_version_4
              [0; 17; 34; 51; 68; 85; 102; 119; 136; 153; 170; 187; 204;
               221; 238; 255]%Z eq_refl
              ltac:(repeat constructor; lia))
    as (Hlen & _ & Hversion & _).
  split; [exact Hlen | exact Hversion].
Defined.

Lemma colorFromName_is_a_hue_witness :
  ∃ h, (0 ≤ h < 360)%Z
       ∧ colorFromName [65; 110; 110]%Z = "hsl(" +:+ pretty h +:+ " 70% 55%)".
Proof.
  exact (proj1 (colorFromName_is_a_hue [65; 110; 110]%Z
                  ltac:(repeat constructor; lia))).
Defined.

End IdsFacts.

Module ShadowFacts.
Import Shadow.

Lemma each_minute (P : nat → bool) :
  forallb P (seq 0 1440) = true → ∀ m, m < 1440 → P m = true.
Proof.
  intros Hall m Hm. rewrite forallb_forall in Hall.
  apply Hall, in_seq. lia.
Qed.

(** X24: for the minutes of a day, [minutesToHHMM] gives five
    characters with a colon in the middle, and different minutes give
    different texts. *)
Theorem minutesToHHMM_of_a_day (m m' : nat) :
  m < 1440 → m' < 1440 →
  String.length (minutesToHHMM m) = 5
  ∧ String.get 2 (minutesToHHMM m) = Some ":"%char
  ∧ (minutesToHHMM m = minutesToHHMM m' → m = m').
Proof.
  intros Hm Hm'.
  set (digit := λ (s : string) (i : nat),
         match String.get i s with
         | Some c => Ascii.nat_of_ascii c - 48
         | None => 0
         end).
  set (minutes := λ s, (digit s 0 * 10 + digit s 1) * 60 + digit s 3 * 10 + digit s 4).
  assert (∀ n, n < 1440 →
            (String.length (minutesToHHMM n) =? 5)
            && bool_decide (String.get 2 (minutesToHHMM n) = Some ":"%char)
            && (minutes (minutesToHHMM n) =? n) = true) as Hcheck.
  { apply each_minute. vm_compute. reflexivity. }
  pose proof (Hcheck m Hm) as [[Hlen Hcolon]%andb_true_iff Hback]%andb_true_iff.
  pose proof (Hcheck m' Hm') as [_ Hback']%andb_true_iff.
  apply Nat.eqb_eq in Hlen, Hback, Hback'. apply bool_decide_eq_true in Hcolon.
  split; [done|]. split; [done|].
  intros Hsame. rewrite <- Hback, <- Hback'. by rewrite Hsame.
Qed.

Lemma minutesToHHMM_of_a_day_witness :
  minutesToHHMM 754 = "12:34"
  ∧ String.length (minutesToHHMM 754) = 5
  ∧ (minutesToHHMM 754 = minutesToHHMM 755 → 754 = 755).
Proof.
  split; [reflexivity|].
  destruct (minutesToHHMM_of_a_day 754 755 ltac:(lia) ltac:(lia))
    as (Hlen & _ & Hinj).
  split; [exact Hlen | exact Hinj].
Defined.

End ShadowFacts.
